(** * Ai2Human: text analytics, comparison, humanizer routes and batch jobs

    A shallow embedding of the Python services of the repository
    (text_analytics_service.py, text_comparison_service.py,
    batch_processing_service.py, routes/humanizer.py, routes/analytics.py)
    and the properties of the specification that concern them.

    Conventions of the embedding.
    - A Python [str] is a list of Unicode code points ([N]).  The class
      [\s] and [str.strip] are those of CPython; the class [\w] and
      [str.lower] are exact on ASCII and, beyond it, read from a table
      ([UnicodeData]) in which every definition and theorem is parametric.
    - A Python [float] (and an [int] that flows into float arithmetic) is an
      exact rational ([Q]): the rounding errors of binary floating point are
      not modelled.  [round(x, n)] rounds half to even, as Python does on a
      value that is exactly representable; [math.sqrt] is a parameter
      ([FloatSqrt]).
    - A result dictionary is a [gmap] from keys to numbers or strings where
      the code looks keys up, a record where it does not; the job table is
      a [gmap] from batch identifiers to job records; a fixed lookup table
      is an association list.
    - The pseudo-random source, the clock, the remote services and the order
      in which the workers of a batch complete are explicit arguments of
      the functions that depend on them.
    - An exception is an explicit result ([None], or a message).  The
      outermost handlers of [analyze_text], [compare_texts] and
      [process_batch], which turn an unexpected exception into an error
      result, are not reached on the typed inputs of the embedding and are
      left out. *)

From Stdlib Require Import List ZArith NArith QArith Qround Qabs Qminmax Lia Lqa.
From Stdlib Require Import String Ascii Bool Permutation DecimalString.
From stdpp Require Import gmap strings sorting.
Import ListNotations.

(** ** Python numbers on the rational model *)

Module Py.

(** [min(a, b)] and [max(a, b)]: the first argument wins a tie. *)
Definition min (a b : Q) : Q := if Qlt_le_dec b a then b else a.
Definition max (a b : Q) : Q := if Qlt_le_dec a b then b else a.

(** Nearest integer, ties to the even neighbour. *)
Definition round_half_even (x : Q) : Z :=
  let f := Qfloor x in
  match Qcompare (x - inject_Z f) (1 # 2) with
  | Lt => f
  | Gt => (f + 1)%Z
  | Eq => if Z.even f then f else (f + 1)%Z
  end.

Definition pow10 (ndigits : nat) : Q := inject_Z (10 ^ Z.of_nat ndigits).

(** [round(x, ndigits)]. *)
Definition round (x : Q) (ndigits : nat) : Q :=
  inject_Z (round_half_even (x * pow10 ndigits)) / pow10 ndigits.

(** [abs(x)] on integers is [Z.abs]; [len] is [length]. *)
Definition len {A} (l : list A) : Q := inject_Z (Z.of_nat (length l)).

End Py.

(** ** Python strings *)

Abbreviation char := N (only parsing).
Abbreviation str := (list N) (only parsing).

(** An ASCII literal as a [str]. *)
Definition lit (s : string) : str :=
  map N_of_ascii (list_ascii_of_string s).

(** The parts of the Unicode character database that the code reaches through
    [str.lower] and the regular-expression class [\w] for code points outside
    ASCII.  The embedding is parametric in them: every theorem holds for any
    such table. *)
Class UnicodeData := {
  uni_isalnum : char -> bool;
  uni_lower : char -> list char
}.

(** The table that knows no letter outside ASCII, for running examples. *)
Definition ascii_data : UnicodeData :=
  {| uni_isalnum := fun _ => false; uni_lower := fun c => [c] |}.

Module Char.
Local Open Scope N_scope.

Definition space : char := 32.
Definition period : char := 46.
Definition comma : char := 44.
Definition bang : char := 33.
Definition question : char := 63.
Definition underscore : char := 95.
Definition em_dash : char := 8212.

Definition between (lo hi c : char) : bool := (lo <=? c) && (c <=? hi).

(** [str.isspace] of CPython, which is also the class [\s] of [re] on
    [str] patterns and what [str.strip()] removes. *)
Definition is_space (c : char) : bool :=
  between 9 13 c || between 28 32 c || (c =? 133) || (c =? 160)
  || (c =? 5760) || between 8192 8202 c || (c =? 8232) || (c =? 8233)
  || (c =? 8239) || (c =? 8287) || (c =? 12288).

Definition is_upper_ascii (c : char) : bool := between 65 90 c.

(** The class [\w]: alphanumeric or underscore. *)
Definition is_word `{UnicodeData} (c : char) : bool :=
  if c <? 128
  then between 48 57 c || between 65 90 c || between 97 122 c || (c =? 95)
  else uni_isalnum c.

Definition lower `{UnicodeData} (c : char) : list char :=
  if c <? 128 then [if is_upper_ascii c then c + 32 else c]
  else uni_lower c.

Definition is_em_dash (c : char) : bool := c =? em_dash.

(** [ [.!?] ] *)
Definition is_terminator (c : char) : bool :=
  (c =? period) || (c =? bang) || (c =? question).

(** The punctuation class of the analytics service: semicolon, colon,
    comma, hyphen, em-dash, round, square and curly brackets, and the
    double quote. *)
Definition is_punct (c : char) : bool :=
  (c =? 59) || (c =? 58) || (c =? 44) || (c =? 45) || (c =? em_dash)
  || (c =? 40) || (c =? 41) || (c =? 91) || (c =? 93) || (c =? 123)
  || (c =? 125) || (c =? 34).

(** The punctuation class of the comparison service: the same with the
    three sentence terminators added. *)
Definition is_punct_or_terminator (c : char) : bool :=
  is_terminator c || is_punct c.

Definition is_vowel (c : char) : bool :=
  existsb (N.eqb c) [97; 101; 105; 111; 117; 121].

End Char.

Module Str.

Fixpoint drop_while (p : char -> bool) (s : str) : str :=
  match s with
  | c :: r => if p c then drop_while p r else s
  | [] => []
  end.

Fixpoint take_while (p : char -> bool) (s : str) : str :=
  match s with
  | c :: r => if p c then c :: take_while p r else []
  | [] => []
  end.

Definition lstrip (s : str) : str := drop_while Char.is_space s.
Definition rstrip (s : str) : str := rev (drop_while Char.is_space (rev s)).

(** [s.strip()] *)
Definition strip (s : str) : str := rstrip (lstrip s).

(** [s.lower()] *)
Definition lower `{UnicodeData} (s : str) : str := flat_map Char.lower s.

(** Truthiness of a string: [not s] is [is_empty s]. *)
Definition is_empty (s : str) : bool :=
  match s with [] => true | _ => false end.

Definition eqb (a b : str) : bool := bool_decide (a = b).

(** [s.endswith(c)] for a one-character suffix. *)
Definition ends_with (c : char) (s : str) : bool :=
  match rev s with
  | d :: _ => N.eqb c d
  | [] => false
  end.

End Str.

(** Checks on the windows of two and of three neighbouring characters of a
    string, to state what a text does not contain. *)
Module Window.

Fixpoint pairs_ok (R : char -> char -> bool) (s : str) : bool :=
  match s with
  | x :: ((y :: _) as r) => R x y && pairs_ok R r
  | _ => true
  end.

Fixpoint triples_ok (R : char -> char -> char -> bool) (s : str) : bool :=
  match s with
  | x :: ((y :: z :: _) as r) => R x y z && triples_ok R r
  | _ => true
  end.

(** The first character, if any, is in the class [p]. *)
Definition head_in (p : char -> bool) (s : str) : bool :=
  match s with c :: _ => p c | [] => false end.

(** [x] may stand before the first character of [s]. *)
Definition hd_rel (R : char -> char -> bool) (x : char) (s : str) : bool :=
  match s with c :: _ => R x c | [] => true end.

(** No two neighbours are both in the class [p]. *)
Definition not_both (p : char -> bool) (x y : char) : bool :=
  negb (p x && p y).

(** Two neighbouring white-space characters stand between two em-dashes. *)
Definition double_space_between_dashes (x y z : char) : bool :=
  implb (Char.is_space y && Char.is_space z) (N.eqb x Char.em_dash)
  && implb (Char.is_space x && Char.is_space y) (N.eqb z Char.em_dash).

(** An em-dash has a space before it and a space after it. *)
Definition dash_spaced (x y : char) : bool :=
  implb (N.eqb y Char.em_dash) (N.eqb x Char.space)
  && implb (N.eqb x Char.em_dash) (N.eqb y Char.space).

End Window.

(** A small lookup table with a default, [table.get(key, default)]. *)
Fixpoint table_get {V} (table : list (str * V)) (key : str) (default : V) : V :=
  match table with
  | (k, v) :: rest => if Str.eqb k key then v else table_get rest key default
  | [] => default
  end.

(** Result dictionaries: the services return [dict]s whose values are
    numbers or strings, and a failed analysis is a dictionary that holds only
    the key [error]. *)
Inductive pyval :=
| PNum (q : Q)
| PStr (s : str).

Abbreviation dict := (gmap string pyval) (only parsing).

Definition error_dict (msg : string) : dict :=
  {[ "error"%string := PStr (lit msg) ]}.

(** [n] as a float. *)
Definition Qn (n : nat) : Q := inject_Z (Z.of_nat n).

(** The square root of [math.sqrt], which leaves the rationals: the embedding
    is parametric in it, and uses of it only that its results are not
    negative. *)
Class FloatSqrt := {
  fsqrt : Q -> Q;
  fsqrt_nonneg : forall x : Q, (0 <= fsqrt x)%Q
}.

(** The module [statistics] of Python, on lists of numbers. *)
Module Statistics.
Local Open Scope Q_scope.

Definition sum (data : list Q) : Q := fold_right Qplus 0 data.

(** [statistics.mean] *)
Definition mean (data : list Q) : Q := sum data / Py.len data.

(** [statistics.variance], the sample variance. *)
Definition variance (data : list Q) : Q :=
  let mu := mean data in
  sum (map (fun x => (x - mu) * (x - mu)) data) / (Py.len data - 1).

(** [statistics.stdev] *)
Definition stdev `{FloatSqrt} (data : list Q) : Q := fsqrt (variance data).

End Statistics.

(** ** The regular expressions of the services

    A pattern is embedded by its matcher: at the start of [s] it returns the
    matched text and the rest, or fails.  [scan] is the left-to-right,
    non-overlapping search shared by [re.sub], [re.findall] and [re.split]:
    where the pattern fails the character is passed over.  None of the
    patterns of the services matches the empty string. *)

Module Re.

Definition matcher := str -> option (str * str).

Inductive item :=
| Lit (c : char)
| Match (m : str).

Fixpoint scan_fuel (fuel : nat) (m : matcher) (s : str) : list item :=
  match fuel with
  | O => []
  | S fuel' =>
      match s with
      | [] => []
      | c :: r =>
          match m s with
          | Some (matched, rest) => Match matched :: scan_fuel fuel' m rest
          | None => Lit c :: scan_fuel fuel' m r
          end
      end
  end.

Definition scan (m : matcher) (s : str) : list item :=
  scan_fuel (length s) m s.

(** A matcher is sound when what it returns splits its input and the
    matched text is not empty. *)
Definition sound (m : matcher) : Prop :=
  forall s w rest, m s = Some (w, rest) -> w <> [] /\ s = w ++ rest.

(** [re.sub(pattern, repl, s)] *)
Definition sub (m : matcher) (repl : str) (s : str) : str :=
  flat_map (fun it => match it with Lit c => [c] | Match _ => repl end)
           (scan m s).

(** [re.findall(pattern, s)] *)
Definition findall (m : matcher) (s : str) : list str :=
  flat_map (fun it => match it with Lit _ => [] | Match w => [w] end)
           (scan m s).

Fixpoint split_items (its : list item) : list str :=
  match its with
  | [] => [[]]
  | Lit c :: r =>
      match split_items r with
      | f :: fs => (c :: f) :: fs
      | [] => [[c]]
      end
  | Match _ :: r => [] :: split_items r
  end.

(** [re.split(pattern, s)] *)
Definition split (m : matcher) (s : str) : list str :=
  split_items (scan m s).

(** [ [class]+ ]: a maximal run of characters of the class. *)
Definition run (p : char -> bool) : matcher := fun s =>
  match Str.take_while p s with
  | [] => None
  | w => Some (w, Str.drop_while p s)
  end.

(** [ [class] ]: one character of the class. *)
Definition one (p : char -> bool) : matcher := fun s =>
  match s with
  | c :: r => if p c then Some ([c], r) else None
  | [] => None
  end.

(** [\s+] *)
Definition spaces : matcher := run Char.is_space.

(** [\.+] *)
Definition periods : matcher := run (N.eqb Char.period).

(** [ [.!?]+ ] *)
Definition terminators : matcher := run Char.is_terminator.

(** [\b\w+\b]: between two word boundaries the greedy [\w+] takes a
    maximal run of word characters, and the search resumes after it. *)
Definition word `{UnicodeData} : matcher := run Char.is_word.

(** [,\s*,]: a comma, any white space, a comma. *)
Definition comma_pair : matcher := fun s =>
  match s with
  | c :: r =>
      if N.eqb c Char.comma then
        match Str.drop_while Char.is_space r with
        | d :: rest =>
            if N.eqb d Char.comma
            then Some (c :: Str.take_while Char.is_space r ++ [d], rest)
            else None
        | [] => None
        end
      else None
  | [] => None
  end.

(** [\s*—\s*]: an em-dash with the white space on both sides. *)
Definition dash : matcher := fun s =>
  match Str.drop_while Char.is_space s with
  | d :: r =>
      if N.eqb d Char.em_dash
      then Some (Str.take_while Char.is_space s ++ d
                   :: Str.take_while Char.is_space r,
                 Str.drop_while Char.is_space r)
      else None
  | [] => None
  end.

End Re.

(** ** services/text_analytics_service.py *)

Module TextAnalytics.
Local Open Scope Q_scope.

Section WithUnicode.
Context `{UnicodeData}.

(** [_split_sentences], l.400-403 *)
Definition _split_sentences (text : str) : list str :=
  let sentences := Re.split Re.terminators text in
  map Str.strip
      (List.filter (fun s => negb (Str.is_empty (Str.strip s))) sentences).

(** [_split_words], l.405-408 *)
Definition _split_words (text : str) : list str :=
  Re.findall Re.word (Str.lower text).

(** [_count_syllables], l.410-427.  The state of the loop is the pair
    [(syllable_count, prev_was_vowel)]. *)
Definition syllable_step (st : nat * bool) (c : char) : nat * bool :=
  let '(syllable_count, prev_was_vowel) := st in
  let is_vowel := Char.is_vowel c in
  (if is_vowel && negb prev_was_vowel
   then S syllable_count else syllable_count,
   is_vowel).

Definition _count_syllables (word : str) : nat :=
  let word := Str.lower word in
  let syllable_count := fst (fold_left syllable_step word (O, false)) in
  let syllable_count :=
    if Str.ends_with 101%N word && (1 <? syllable_count)%nat
    then (syllable_count - 1)%nat else syllable_count in
  Nat.max 1 syllable_count.

(** [_get_readability_level], l.429-444 *)
Definition _get_readability_level (flesch_score : Q) : string :=
  if Qle_bool 90 flesch_score then "very_easy"
  else if Qle_bool 80 flesch_score then "easy"
  else if Qle_bool 70 flesch_score then "fairly_easy"
  else if Qle_bool 60 flesch_score then "standard"
  else if Qle_bool 50 flesch_score then "fairly_difficult"
  else if Qle_bool 30 flesch_score then "difficult"
  else "very_difficult".

Definition sum_nat (l : list nat) : nat := fold_right Nat.add O l.

(** The four indices before rounding, l.150-170. *)
Definition flesch_ease_of (word_count sentence_count syllables : nat) : Q :=
  Py.max 0 (Py.min 100
    (206.835 - 1.015 * (Qn word_count / Qn sentence_count)
     - 84.6 * (Qn syllables / Qn word_count))).

Definition flesch_kincaid_of (word_count sentence_count syllables : nat) : Q :=
  Py.max 0
    (0.39 * (Qn word_count / Qn sentence_count)
     + 11.8 * (Qn syllables / Qn word_count) - 15.59).

Definition ari_of (word_count sentence_count characters : nat) : Q :=
  Py.max 0
    (4.71 * (Qn characters / Qn word_count)
     + 0.5 * (Qn word_count / Qn sentence_count) - 21.43).

Definition coleman_liau_of (word_count sentence_count characters : nat) : Q :=
  let l := Qn characters / Qn word_count * 100 in
  let s := Qn sentence_count / Qn word_count * 100 in
  Py.max 0 (0.0588 * l - 0.296 * s - 15.8).

(** [_calculate_readability], l.138-179 *)
Definition _calculate_readability (text : str) : dict :=
  let sentences := _split_sentences text in
  let words := _split_words text in
  let syllables := sum_nat (map _count_syllables words) in
  let sentence_count := length sentences in
  let word_count := length words in
  if (sentence_count =? 0)%nat || (word_count =? 0)%nat
  then error_dict "Insufficient text for readability analysis"
  else
    let flesch_ease := flesch_ease_of word_count sentence_count syllables in
    let flesch_kincaid :=
      flesch_kincaid_of word_count sentence_count syllables in
    let characters := sum_nat (map (@length N) words) in
    let ari := ari_of word_count sentence_count characters in
    let coleman_liau :=
      coleman_liau_of word_count sentence_count characters in
    let avg_grade := (flesch_kincaid + ari + coleman_liau) / 3 in
    <["flesch_reading_ease"%string := PNum (Py.round flesch_ease 2)]>
    (<["flesch_kincaid_grade"%string := PNum (Py.round flesch_kincaid 2)]>
    (<["automated_readability_index"%string := PNum (Py.round ari 2)]>
    (<["coleman_liau_index"%string := PNum (Py.round coleman_liau 2)]>
    (<["average_grade_level"%string := PNum (Py.round avg_grade 2)]>
    (<["readability_level"%string :=
         PStr (lit (_get_readability_level flesch_ease))]> ∅))))).

Definition common_words : list str :=
  map lit
    ["the"; "be"; "to"; "of"; "and"; "a"; "in"; "that"; "have"; "i";
     "it"; "for"; "not"; "on"; "with"; "he"; "as"; "you"; "do"; "at";
     "this"; "but"; "his"; "by"; "from"; "they"; "we"; "say"; "her";
     "she"; "or"; "an"; "will"; "my"; "one"; "all"; "would"; "there";
     "their"; "what"; "so"; "up"; "out"; "if"; "about"; "who"; "get";
     "which"; "go"]%string.

Definition formal_indicators : list str :=
  map lit
    ["utilize"; "implement"; "facilitate"; "demonstrate";
     "comprehensive"; "significant"; "substantial"; "considerable";
     "numerous"; "various"; "furthermore"; "moreover"; "additionally";
     "consequently"; "therefore"; "subsequently"; "nevertheless";
     "however"; "nonetheless"; "accordingly"]%string.

Definition transition_words : list str :=
  map lit
    ["however"; "furthermore"; "moreover"; "additionally";
     "consequently"; "therefore"; "subsequently"; "nevertheless";
     "nonetheless"; "accordingly"]%string.

(** [word in set] *)
Definition word_in (set : list str) (word : str) : bool :=
  existsb (Str.eqb word) set.

(** [count / total if total else 0] *)
Definition ratio (count total : nat) : Q :=
  if (total =? 0)%nat then 0 else Qn count / Qn total.

Definition sentence_lengths_of (sentences : list str) : list Q :=
  map (fun sentence => Qn (length (_split_words sentence))) sentences.

(** [statistics.variance(xs) if len(xs) > 1 else 0] *)
Definition variance_or_zero (xs : list Q) : Q :=
  if (1 <? length xs)%nat then Statistics.variance xs else 0.

(** [_analyze_complexity], l.181-210 *)
Definition _analyze_complexity (text : str) : dict :=
  let words := _split_words text in
  let sentences := _split_sentences text in
  let complex_words :=
    List.filter (fun word => (6 <? length word)%nat) words in
  let complex_word_ratio := ratio (length complex_words) (length words) in
  let sentence_lengths := sentence_lengths_of sentences in
  let avg_sentence_length :=
    match sentence_lengths with
    | [] => 0
    | _ :: _ => Statistics.mean sentence_lengths
    end in
  let sentence_length_variance := variance_or_zero sentence_lengths in
  let formal_word_count :=
    length (List.filter
              (fun word => word_in formal_indicators (Str.lower word))
              words) in
  let formal_word_ratio := ratio formal_word_count (length words) in
  let punctuation_marks := Re.findall (Re.one Char.is_punct) text in
  let punctuation_density :=
    ratio (length punctuation_marks) (length words) in
  <["complex_word_ratio"%string := PNum (Py.round complex_word_ratio 3)]>
  (<["average_sentence_length"%string :=
       PNum (Py.round avg_sentence_length 2)]>
  (<["sentence_length_variance"%string :=
       PNum (Py.round sentence_length_variance 2)]>
  (<["formal_word_ratio"%string := PNum (Py.round formal_word_ratio 3)]>
  (<["punctuation_density"%string :=
       PNum (Py.round punctuation_density 3)]>
  (<["complexity_score"%string :=
       PNum (Py.round
               ((complex_word_ratio + formal_word_ratio
                 + punctuation_density) * 100) 2)]> ∅))))).

(** [_get_ai_likelihood_level], l.446-457, and [_get_burstiness_level],
    l.459-470, which has the same thresholds. *)
Definition _get_ai_likelihood_level (ai_score : Q) : string :=
  if Qle_bool 80 ai_score then "very_high"
  else if Qle_bool 60 ai_score then "high"
  else if Qle_bool 40 ai_score then "moderate"
  else if Qle_bool 20 ai_score then "low"
  else "very_low".

Definition _get_burstiness_level (burstiness_score : Q) : string :=
  if Qle_bool 80 burstiness_score then "very_high"
  else if Qle_bool 60 burstiness_score then "high"
  else if Qle_bool 40 burstiness_score then "moderate"
  else if Qle_bool 20 burstiness_score then "low"
  else "very_low".

(** The dictionary [word_frequency] of l.251-254. *)
Definition count_word (word_frequency : gmap str nat) (word : str)
  : gmap str nat :=
  if negb (word_in common_words word) && (3 <? length word)%nat
  then <[word := S (default O (word_frequency !! word))]> word_frequency
  else word_frequency.

(** The weighted sum of l.273-274. *)
Definition ai_score_of
    (formal_ratio repetition_score uniformity_score transition_ratio : Q)
  : Q :=
  (formal_ratio * 0.3 + repetition_score * 0.2 + uniformity_score * 0.3
   + Py.min transition_ratio 1 * 0.2) * 100.

(** [_analyze_ai_indicators], l.241-283 *)
Definition _analyze_ai_indicators (text : str) : dict :=
  let words := map Str.lower (_split_words text) in
  let sentences := _split_sentences text in
  let formal_count :=
    length (List.filter (word_in formal_indicators) words) in
  let formal_ratio := ratio formal_count (length words) in
  let word_frequency := fold_left count_word words ∅ in
  let repeated_words :=
    length (List.filter (fun kv => (2 <? snd kv)%nat)
                        (map_to_list word_frequency)) in
  let repetition_score := ratio repeated_words (size word_frequency) in
  let sentence_lengths := sentence_lengths_of sentences in
  let length_variance := variance_or_zero sentence_lengths in
  let uniformity_score :=
    if Qlt_le_dec 0 length_variance
    then 1 / (1 + length_variance) else 1 in
  let transition_count :=
    length (List.filter (word_in transition_words) words) in
  let transition_ratio := ratio transition_count (length sentences) in
  let ai_score :=
    ai_score_of formal_ratio repetition_score uniformity_score
                transition_ratio in
  <["formal_language_ratio"%string := PNum (Py.round formal_ratio 3)]>
  (<["repetition_score"%string := PNum (Py.round repetition_score 3)]>
  (<["sentence_uniformity"%string := PNum (Py.round uniformity_score 3)]>
  (<["transition_word_ratio"%string :=
       PNum (Py.round transition_ratio 3)]>
  (<["ai_likelihood_score"%string := PNum (Py.round ai_score 2)]>
  (<["ai_likelihood_level"%string :=
       PStr (lit (_get_ai_likelihood_level ai_score))]> ∅))))).

(** The complexity of one sentence, l.302-305. *)
Definition sentence_complexity (sentence : str) : Q :=
  let words := _split_words sentence in
  let complex_words :=
    length (List.filter (fun word => (6 <? length word)%nat) words) in
  let punctuation :=
    length (Re.findall (Re.one Char.is_punct) sentence) in
  ratio (complex_words + punctuation) (length words).

(** [_analyze_burstiness], l.285-323 *)
Definition _analyze_burstiness `{FloatSqrt} (text : str) : dict :=
  let sentences := _split_sentences text in
  let sentence_lengths := sentence_lengths_of sentences in
  if (length sentence_lengths <? 2)%nat
  then error_dict "Insufficient sentences for burstiness analysis"
  else
    let mean_length := Statistics.mean sentence_lengths in
    let length_variance := Statistics.variance sentence_lengths in
    let length_std := Statistics.stdev sentence_lengths in
    let coefficient_of_variation :=
      if Qlt_le_dec 0 mean_length then length_std / mean_length else 0 in
    let complexity_scores := map sentence_complexity sentences in
    let complexity_variance := variance_or_zero complexity_scores in
    let burstiness_score :=
      Py.min 100 ((coefficient_of_variation + complexity_variance) * 50) in
    <["sentence_count"%string := PNum (Qn (length sentences))]>
    (<["mean_sentence_length"%string := PNum (Py.round mean_length 2)]>
    (<["length_variance"%string := PNum (Py.round length_variance 2)]>
    (<["length_standard_deviation"%string :=
         PNum (Py.round length_std 2)]>
    (<["coefficient_of_variation"%string :=
         PNum (Py.round coefficient_of_variation 3)]>
    (<["complexity_variance"%string :=
         PNum (Py.round complexity_variance 3)]>
    (<["burstiness_score"%string := PNum (Py.round burstiness_score 2)]>
    (<["burstiness_level"%string :=
         PStr (lit (_get_burstiness_level burstiness_score))]>
       ∅))))))).

(** [_get_humanness_level], l.485-498 *)
Definition _get_humanness_level (score : Q) : string :=
  if Qle_bool 85 score then "very_human"
  else if Qle_bool 70 score then "mostly_human"
  else if Qle_bool 55 score then "somewhat_human"
  else if Qle_bool 40 score then "mixed"
  else if Qle_bool 25 score then "somewhat_ai"
  else "likely_ai".

(** The value of [overall_score]: the score, its level and the four
    [component_scores]. *)
Record overall := {
  overall_humanness_score : Q;
  humanness_level : string;
  component_readability : Q;
  component_complexity : Q;
  component_anti_ai : Q;
  component_burstiness : Q
}.

(** [d.get(key, default)] used as a number: arithmetic on a value that
    is not a number raises [TypeError], here [None]. *)
Definition get_number (d : dict) (key : string) (default : Q) : option Q :=
  match d !! key with
  | Some (PNum q) => Some q
  | Some (PStr _) => None
  | None => Some default
  end.

(** The body of the [try] of [_calculate_overall_score], l.363-386. *)
Definition overall_score_body
    (readability complexity ai_indicators burstiness : dict)
  : option overall :=
  flesch ← get_number readability "flesch_reading_ease" 50;
  let readability_score := Py.min 100 (Py.max 0 flesch) in
  complexity_value ← get_number complexity "complexity_score" 50;
  let complexity_score := Py.min 100 complexity_value in
  ai_likelihood ← get_number ai_indicators "ai_likelihood_score" 50;
  let ai_score := 100 - ai_likelihood in
  burstiness_score ← get_number burstiness "burstiness_score" 50;
  let overall_score :=
    readability_score * 0.25 + complexity_score * 0.25
    + ai_score * 0.3 + burstiness_score * 0.2 in
  Some {| overall_humanness_score := Py.round overall_score 2;
          humanness_level := _get_humanness_level overall_score;
          component_readability := Py.round readability_score 2;
          component_complexity := Py.round complexity_score 2;
          component_anti_ai := Py.round ai_score 2;
          component_burstiness := Py.round burstiness_score 2 |}.

(** The result of the handler, l.387-397. *)
Definition neutral_overall : overall :=
  {| overall_humanness_score := 50; humanness_level := "moderate";
     component_readability := 50; component_complexity := 50;
     component_anti_ai := 50; component_burstiness := 50 |}.

(** [_calculate_overall_score], l.359-397 *)
Definition _calculate_overall_score
    (readability complexity ai_indicators burstiness : dict) : overall :=
  match overall_score_body readability complexity ai_indicators
                           burstiness with
  | Some result => result
  | None => neutral_overall
  end.

(** The groups of the report of [analyze_text], l.50-101, that feed the
    overall score, and the score.  The groups [basic_stats],
    [sentiment] and [perplexity] are left out. *)
Record report := {
  readability : dict;
  complexity : dict;
  ai_indicators : dict;
  burstiness : dict;
  overall_score : overall
}.

Definition analyze_text `{FloatSqrt} (text : str) : report :=
  let readability := _calculate_readability text in
  let complexity := _analyze_complexity text in
  let ai_indicators := _analyze_ai_indicators text in
  let burstiness := _analyze_burstiness text in
  {| readability := readability;
     complexity := complexity;
     ai_indicators := ai_indicators;
     burstiness := burstiness;
     overall_score :=
       _calculate_overall_score readability complexity ai_indicators
                                burstiness |}.

End WithUnicode.

(** A square root for running examples: the integer square root of the
    argument scaled by ten to the twelfth. *)
Definition approx_sqrt_fun (x : Q) : Q :=
  inject_Z (Z.sqrt (Qfloor (x * inject_Z (10 ^ 12)))) / inject_Z (10 ^ 6).

Definition approx_sqrt : FloatSqrt.
Proof.
  refine {| fsqrt := approx_sqrt_fun |}.
  intros x. unfold approx_sqrt_fun.
  apply Qle_shift_div_l; [reflexivity |].
  rewrite Qmult_0_l. change 0 with (inject_Z 0).
  rewrite <- Zle_Qle. apply Z.sqrt_nonneg.
Defined.

End TextAnalytics.

(** ** [difflib.SequenceMatcher] of the Python library

    The comparison service calls [SequenceMatcher(None, a, b).ratio()] on
    texts, on lists of words and on lists of sentences.  The embedding
    follows the library's algorithm: the index [b2j] with its purge of
    popular elements (autojunk), [find_longest_match] with its table
    [j2len], the queue of [get_matching_blocks], and [ratio].  No junk
    function is given ([None]), so the two loops of [find_longest_match]
    that extend a match over junk never run and are left out. *)

Module Difflib.
Section WithElements.
Context {A : Type} `{EqDecision A}.

(** The positions of [x] in [b], in increasing order, counted from [i]. *)
Fixpoint indices_from (i : nat) (x : A) (b : list A) : list nat :=
  match b with
  | [] => []
  | y :: r =>
      if decide (y = x) then i :: indices_from (S i) x r
      else indices_from (S i) x r
  end.

(** Autojunk: in a sequence of 200 elements or more, an element that
    occurs more than [n // 100 + 1] times is popular. *)
Definition popular (b : list A) (x : A) : bool :=
  (200 <=? length b)%nat
  && (length b / 100 + 1 <? length (indices_from 0 x b))%nat.

(** [b2j.get(x, [])] after [__chain_b]. *)
Definition b2j (b : list A) (x : A) : list nat :=
  if popular b x then [] else indices_from 0 x b.

Record best := {
  besti : nat;
  bestj : nat;
  bestsize : nat
}.

(** [j2len.get(j - 1, 0)] *)
Definition prev_len (j2len : gmap nat nat) (j : nat) : nat :=
  match j with
  | O => O
  | S j' => default O (j2len !! j')
  end.

(** The inner loop of [find_longest_match] over the positions of [a[i]]
    in [b]. *)
Fixpoint inner (js : list nat) (blo bhi i : nat)
    (j2len newj2len : gmap nat nat) (bst : best) : gmap nat nat * best :=
  match js with
  | [] => (newj2len, bst)
  | j :: js' =>
      if (j <? blo)%nat then inner js' blo bhi i j2len newj2len bst
      else if (bhi <=? j)%nat then (newj2len, bst)
      else
        let k := S (prev_len j2len j) in
        let newj2len := <[j := k]> newj2len in
        let bst :=
          if (bestsize bst <? k)%nat
          then {| besti := i + 1 - k; bestj := j + 1 - k; bestsize := k |}
          else bst in
        inner js' blo bhi i j2len newj2len bst
  end.

(** One turn of the outer loop. *)
Definition row (a b : list A) (blo bhi : nat)
    (st : gmap nat nat * best) (i : nat) : gmap nat nat * best :=
  let '(j2len, bst) := st in
  let js := match a !! i with Some x => b2j b x | None => [] end in
  inner js blo bhi i j2len ∅ bst.

(** [a[i] == b[j]] *)
Definition same_at (a b : list A) (i j : nat) : bool :=
  match a !! i, b !! j with
  | Some x, Some y => bool_decide (x = y)
  | _, _ => false
  end.

(** The loop that extends the match to the left; it runs at most [besti]
    times. *)
Fixpoint extend_left (fuel : nat) (a b : list A) (alo blo : nat) (bst : best)
  : best :=
  match fuel with
  | O => bst
  | S fuel' =>
      if (alo <? besti bst)%nat && (blo <? bestj bst)%nat
         && same_at a b (besti bst - 1) (bestj bst - 1)
      then extend_left fuel' a b alo blo
             {| besti := besti bst - 1; bestj := bestj bst - 1;
                bestsize := bestsize bst + 1 |}
      else bst
  end.

(** The loop that extends the match to the right; it runs at most [ahi]
    times. *)
Fixpoint extend_right (fuel : nat) (a b : list A) (ahi bhi : nat) (bst : best)
  : best :=
  match fuel with
  | O => bst
  | S fuel' =>
      if (besti bst + bestsize bst <? ahi)%nat
         && (bestj bst + bestsize bst <? bhi)%nat
         && same_at a b (besti bst + bestsize bst) (bestj bst + bestsize bst)
      then extend_right fuel' a b ahi bhi
             {| besti := besti bst; bestj := bestj bst;
                bestsize := bestsize bst + 1 |}
      else bst
  end.

(** [find_longest_match(alo, ahi, blo, bhi)] *)
Definition find_longest_match (a b : list A) (alo ahi blo bhi : nat) : best :=
  let start := {| besti := alo; bestj := blo; bestsize := 0 |} in
  let '(_, bst) :=
    fold_left (row a b blo bhi) (seq alo (ahi - alo)) (∅, start) in
  let bst := extend_left (besti bst) a b alo blo bst in
  extend_right ahi a b ahi bhi bst.

(** The loop of [get_matching_blocks] over its queue; the head of the list
    is the entry that [queue.pop()] takes.  A turn that finds a match
    removes an element from the ranges it leaves, so that twice the length
    of [a] plus one turns empty the queue. *)
Fixpoint blocks_loop (fuel : nat) (a b : list A)
    (queue : list (nat * nat * nat * nat)) (matching_blocks : list best)
  : list best :=
  match fuel with
  | O => matching_blocks
  | S fuel' =>
      match queue with
      | [] => matching_blocks
      | (alo, ahi, blo, bhi) :: queue =>
          let x := find_longest_match a b alo ahi blo bhi in
          let '(i, j, k) := (besti x, bestj x, bestsize x) in
          if (k =? 0)%nat then blocks_loop fuel' a b queue matching_blocks
          else
            let queue :=
              if (alo <? i)%nat && (blo <? j)%nat
              then (alo, i, blo, j) :: queue else queue in
            let queue :=
              if (i + k <? ahi)%nat && (j + k <? bhi)%nat
              then (i + k, ahi, j + k, bhi) :: queue else queue in
            blocks_loop fuel' a b queue (matching_blocks ++ [x])
      end
  end.

(** The order of [matching_blocks.sort()] on triples. *)
Definition block_leb (x y : best) : bool :=
  (besti x <? besti y)%nat
  || ((besti x =? besti y)%nat
      && ((bestj x <? bestj y)%nat
          || ((bestj x =? bestj y)%nat && (bestsize x <=? bestsize y)%nat))).

Fixpoint insert_block (x : best) (l : list best) : list best :=
  match l with
  | y :: r => if block_leb x y then x :: l else y :: insert_block x r
  | [] => [x]
  end.

Definition sort_blocks (l : list best) : list best := foldr insert_block [] l.

(** The loop that merges adjacent blocks; [cur] is [(i1, j1, k1)]. *)
Fixpoint collapse (cur : best) (blocks : list best) : list best :=
  match blocks with
  | x :: r =>
      if (besti cur + bestsize cur =? besti x)%nat
         && (bestj cur + bestsize cur =? bestj x)%nat
      then collapse {| besti := besti cur; bestj := bestj cur;
                       bestsize := bestsize cur + bestsize x |} r
      else (if (bestsize cur =? 0)%nat then [] else [cur]) ++ collapse x r
  | [] => if (bestsize cur =? 0)%nat then [] else [cur]
  end.

(** [get_matching_blocks()] *)
Definition get_matching_blocks (a b : list A) : list best :=
  let la := length a in
  let lb := length b in
  let matching_blocks :=
    blocks_loop (2 * la + 1) a b [(0, la, 0, lb)]%nat [] in
  collapse {| besti := 0; bestj := 0; bestsize := 0 |}
           (sort_blocks matching_blocks)
  ++ [{| besti := la; bestj := lb; bestsize := 0 |}].

(** [ratio()], with [_calculate_ratio]. *)
Definition ratio (a b : list A) : Q :=
  let matches :=
    fold_right Nat.add O (map bestsize (get_matching_blocks a b)) in
  let length := (length a + length b)%nat in
  if (length =? 0)%nat then 1%Q else (2 * Qn matches / Qn length)%Q.

(** The length of the block of elements that are not popular and that ends
    at position [i] of [a]: what [j2len] holds on the diagonal when a
    sequence is matched with itself. *)
Fixpoint run_ending_at (a : list A) (i : nat) : nat :=
  match a !! i with
  | Some x =>
      if popular a x then O
      else S (match i with O => O | S i' => run_ending_at a i' end)
  | None => O
  end.

End WithElements.
End Difflib.

(** ** services/text_comparison_service.py *)

Module TextComparison.

Section WithUnicode.
Context `{UnicodeData}.

Record text_stats := {
  characters : Z;
  characters_no_spaces : Z;
  words : Z;
  sentences : Z;
  paragraphs : Z
}.

(** [text.replace(' ', '')] *)
Definition remove_spaces (text : str) : str :=
  List.filter (fun c => negb (N.eqb c Char.space)) text.

(** Non-overlapping occurrences of two line feeds, read left to right:
    [text.split] on a blank line yields one more piece. *)
Fixpoint count_blank_lines (text : str) : nat :=
  match text with
  | c :: r =>
      if N.eqb c 10 then
        match r with
        | d :: r2 =>
            if N.eqb d 10 then S (count_blank_lines r2)
            else count_blank_lines r
        | [] => O
        end
      else count_blank_lines r
  | [] => O
  end.

(** [_get_text_stats], l.368-376 *)
Definition _get_text_stats (text : str) : text_stats :=
  {| characters := Z.of_nat (length text);
     characters_no_spaces := Z.of_nat (length (remove_spaces text));
     words := Z.of_nat (length (Re.findall Re.word text));
     sentences := Z.of_nat (length (Re.split Re.terminators text)) - 1;
     paragraphs := Z.of_nat (count_blank_lines text) + 1 |}.

(** [re.findall] of the words of the lowered text, l.94, l.296. *)
Definition words_of (text : str) : list str :=
  Re.findall Re.word (Str.lower text).

(** The sentences of l.148-152 and l.302-306. *)
Definition sentences_of (text : str) : list str :=
  let sentences := Re.split Re.terminators text in
  map Str.strip
      (List.filter (fun s => negb (Str.is_empty (Str.strip s))) sentences).

(** [len(s.split())] *)
Definition split_count (s : str) : nat :=
  length (Re.findall (Re.run (fun c => negb (Char.is_space c))) s).

(** The counts of [_analyze_word_changes], l.92-144, that the summary
    reads; the lists of words themselves, which Python returns in the
    arbitrary order of a set, are left out. *)
Record word_changes := {
  added_count : nat;
  removed_count : nat;
  common_words_count : nat;
  complexity_change : Z
}.

Definition _analyze_word_changes (original humanized : str) : word_changes :=
  let original_words := words_of original in
  let humanized_words := words_of humanized in
  let original_set : gset str := list_to_set original_words in
  let humanized_set : gset str := list_to_set humanized_words in
  let original_complex :=
    List.filter (fun w => (6 <? length w)%nat) original_words in
  let humanized_complex :=
    List.filter (fun w => (6 <? length w)%nat) humanized_words in
  {| added_count := size (humanized_set ∖ original_set);
     removed_count := size (original_set ∖ humanized_set);
     common_words_count := size (original_set ∩ humanized_set);
     complexity_change :=
       (Z.of_nat (length humanized_complex)
        - Z.of_nat (length original_complex))%Z |}.

(** The fields of [_analyze_sentence_changes], l.146-196, that the summary
    reads. *)
Record sentence_changes := {
  sentence_count_change : Z;
  average_length_change : Q
}.

Definition average_length (sentences : list str) : Q :=
  match sentences with
  | [] => 0%Q
  | _ :: _ =>
      (Qn (fold_right Nat.add O (map split_count sentences))
       / Qn (length sentences))%Q
  end.

Definition _analyze_sentence_changes (original humanized : str)
  : sentence_changes :=
  let original_sentences := sentences_of original in
  let humanized_sentences := sentences_of humanized in
  let avg_original_length := average_length original_sentences in
  let avg_humanized_length := average_length humanized_sentences in
  {| sentence_count_change :=
       (Z.of_nat (length humanized_sentences)
        - Z.of_nat (length original_sentences))%Z;
     average_length_change :=
       Py.round (avg_humanized_length - avg_original_length)%Q 2 |}.

(** The fields of [_analyze_structural_changes], l.198-251, that the
    summary reads: the punctuation marks whose count changed, and the net
    change of the transition words. *)
Record structural_changes := {
  punctuation_changes : list str;
  transition_total_change : Z
}.

Definition transition_words : list str :=
  map lit
    ["however"; "furthermore"; "moreover"; "additionally"; "consequently";
     "therefore"; "subsequently"; "nevertheless"; "nonetheless";
     "accordingly"; "meanwhile"; "finally"; "ultimately"; "specifically";
     "particularly"]%string.

(** [list.count] *)
Definition count_of {A} `{EqDecision A} (x : A) (l : list A) : nat :=
  length (List.filter (fun y => bool_decide (y = x)) l).

(** The occurrences of a word between word boundaries, case ignored: the
    words of the lowered text that are the word. *)
Definition occurrences (word text : str) : nat :=
  count_of word (words_of text).

Definition _analyze_structural_changes (original humanized : str)
  : structural_changes :=
  let original_punct :=
    Re.findall (Re.one Char.is_punct_or_terminator) original in
  let humanized_punct :=
    Re.findall (Re.one Char.is_punct_or_terminator) humanized in
  let all_punct : gset str :=
    list_to_set (original_punct ++ humanized_punct) in
  let punct_changes :=
    List.filter
      (fun punct =>
         negb (count_of punct original_punct
               =? count_of punct humanized_punct)%nat)
      (elements all_punct) in
  let total_change :=
    fold_right Z.add 0%Z
      (map (fun word =>
              (Z.of_nat (occurrences word humanized)
               - Z.of_nat (occurrences word original))%Z)
           transition_words) in
  {| punctuation_changes := punct_changes;
     transition_total_change := total_change |}.

(** [_calculate_similarity_metrics], l.290-324: the five values, rounded to
    three decimals. *)
Record similarity_metrics := {
  character_similarity : Q;
  word_similarity : Q;
  sentence_similarity : Q;
  jaccard_similarity : Q;
  overall_similarity : Q
}.

Definition _calculate_similarity_metrics (original humanized : str)
  : similarity_metrics :=
  let char_similarity := Difflib.ratio original humanized in
  let original_words := words_of original in
  let humanized_words := words_of humanized in
  let word_similarity := Difflib.ratio original_words humanized_words in
  let original_sentences := sentences_of original in
  let humanized_sentences := sentences_of humanized in
  let sentence_similarity :=
    Difflib.ratio original_sentences humanized_sentences in
  let original_set : gset str := list_to_set original_words in
  let humanized_set : gset str := list_to_set humanized_words in
  let intersection := size (original_set ∩ humanized_set) in
  let union := size (original_set ∪ humanized_set) in
  let jaccard_similarity :=
    if (0 <? union)%nat then (Qn intersection / Qn union)%Q else 0%Q in
  {| character_similarity := Py.round char_similarity 3;
     word_similarity := Py.round word_similarity 3;
     sentence_similarity := Py.round sentence_similarity 3;
     jaccard_similarity := Py.round jaccard_similarity 3;
     overall_similarity :=
       Py.round ((char_similarity + word_similarity + sentence_similarity
                  + jaccard_similarity) / 4)%Q 3 |}.

(** [_generate_change_summary], l.326-366 *)
Record change_summary := {
  change_level : string;
  change_types : list string;
  total_word_changes : nat;
  sentence_modifications : Z;
  structural_modifications : nat;
  preservation_score : Q
}.

Definition _generate_change_summary
    (word_changes : word_changes) (sentence_changes : sentence_changes)
    (structural_changes : structural_changes) : change_summary :=
  let total_word_changes :=
    (added_count word_changes + removed_count word_changes)%nat in
  let sentence_count_change' :=
    Z.abs (sentence_count_change sentence_changes) in
  let punct_changes := length (punctuation_changes structural_changes) in
  let change_level :=
    if (total_word_changes <? 5)%nat && (sentence_count_change' <? 2)%Z
       && (punct_changes <? 3)%nat then "minimal"
    else if (total_word_changes <? 15)%nat && (sentence_count_change' <? 5)%Z
            && (punct_changes <? 8)%nat then "moderate"
    else if (total_word_changes <? 30)%nat && (sentence_count_change' <? 10)%Z
            && (punct_changes <? 15)%nat then "substantial"
    else "extensive" in
  let change_types :=
    (if (5 <? added_count word_changes)%nat
     then ["vocabulary_expansion"] else [])
    ++ (if (5 <? removed_count word_changes)%nat
        then ["vocabulary_simplification"] else [])
    ++ (if (2 <? sentence_count_change sentence_changes)%Z
        then ["sentence_restructuring"] else [])
    ++ (if Qlt_le_dec 2 (Qabs (average_length_change sentence_changes))
        then ["sentence_length_modification"] else [])
    ++ (if (3 <? transition_total_change structural_changes)%Z
        then ["transition_enhancement"] else [])
    ++ (if (5 <? punct_changes)%nat
        then ["punctuation_modification"] else []) in
  {| change_level := change_level;
     change_types := change_types;
     total_word_changes := total_word_changes;
     sentence_modifications := sentence_count_change';
     structural_modifications := punct_changes;
     preservation_score :=
       Py.round
         (100 - (Qn total_word_changes + inject_Z sentence_count_change'
                 + Qn punct_changes))%Q 2 |}.

(** The groups of the report of [compare_texts], l.18-69, that the
    properties below read; the basic statistics, the comparison of
    readability and the matching of sentences are left out. *)
Record comparison := {
  word_changes_of : word_changes;
  sentence_changes_of : sentence_changes;
  structural_changes_of : structural_changes;
  similarity_metrics_of : similarity_metrics;
  change_summary_of : change_summary
}.

Definition compare_texts (original humanized : str) : comparison :=
  let word_changes := _analyze_word_changes original humanized in
  let sentence_changes := _analyze_sentence_changes original humanized in
  let structural_changes := _analyze_structural_changes original humanized in
  let similarity_metrics :=
    _calculate_similarity_metrics original humanized in
  {| word_changes_of := word_changes;
     sentence_changes_of := sentence_changes;
     structural_changes_of := structural_changes;
     similarity_metrics_of := similarity_metrics;
     change_summary_of :=
       _generate_change_summary word_changes sentence_changes
                                structural_changes |}.

End WithUnicode.

End TextComparison.

(** ** The readability formulas as the specification words them (section 4.2)

    Written from the text of the specification, to be compared with the
    values that [TextAnalytics._calculate_readability] returns. *)

Module ReadabilitySpec.
Local Open Scope Q_scope.

Definition clamp (lo hi x : Q) : Q := Qmax lo (Qmin hi x).
Definition floored_at (lo x : Q) : Q := Qmax lo x.

Definition flesch_reading_ease (words sentences syllables : Q) : Q :=
  clamp 0 100 (206.835 - 1.015 * (words / sentences)
               - 84.6 * (syllables / words)).

Definition flesch_kincaid_grade (words sentences syllables : Q) : Q :=
  floored_at 0 (0.39 * (words / sentences)
                + 11.8 * (syllables / words) - 15.59).

Definition automated_readability_index (chars words sentences : Q) : Q :=
  floored_at 0 (4.71 * (chars / words) + 0.5 * (words / sentences) - 21.43).

Definition coleman_liau (chars words sentences : Q) : Q :=
  let L := chars / words * 100 in
  let S := sentences / words * 100 in
  floored_at 0 (0.0588 * L - 0.296 * S - 15.8).

End ReadabilitySpec.

(** ** The overall humanness score as the specification words it
    (section 4.2): the weighted blend of the four sub-scores, each clamped
    to [0,100]. *)

Module OverallSpec.
Local Open Scope Q_scope.

Definition blend (readability complexity ai_likelihood burstiness : Q) : Q :=
  ReadabilitySpec.clamp 0 100 readability * 0.25
  + ReadabilitySpec.clamp 0 100 complexity * 0.25
  + ReadabilitySpec.clamp 0 100 (100 - ai_likelihood) * 0.3
  + ReadabilitySpec.clamp 0 100 burstiness * 0.2.

End OverallSpec.

(** ** routes/humanizer.py: mode tables and the achieved-score simulation *)

Module Humanizer.
Local Open Scope Q_scope.

Record percentages := {
  ai_generated : Z;
  human_written : Z
}.

Definition targets : list (str * percentages) :=
  [ (lit "fast", {| ai_generated := 75; human_written := 25 |});
    (lit "balanced", {| ai_generated := 50; human_written := 50 |});
    (lit "aggressive", {| ai_generated := 0; human_written := 100 |}) ].

(** [targets.get(mode, targets['balanced'])] *)
Definition get_target_percentages (mode : str) : percentages :=
  table_get targets mode {| ai_generated := 50; human_written := 50 |}.

Definition intensities : list (str * Q) :=
  [ (lit "fast", 0.4); (lit "balanced", 0.7); (lit "aggressive", 1.0) ].

(** [intensities.get(mode, 0.7)] *)
Definition calculate_humanization_intensity (mode : str) : Q :=
  table_get intensities mode 0.7.

(** The simulation of the achieved percentages, written twice in the source
    with the same text: humanizer.py l.562-572 and
    batch_processing_service.py l.192-202.  [variation] is the value drawn
    by [random.uniform(-3, 3)]. *)
Definition simulate_achieved (target : percentages) (variation : Q) : Q * Q :=
  let achieved_ai :=
    Py.max 0 (Py.min 100 (inject_Z (ai_generated target) + variation)) in
  let achieved_human :=
    Py.max 0 (Py.min 100 (inject_Z (human_written target) - variation)) in
  let total := achieved_ai + achieved_human in
  if Qlt_le_dec 0 total
  then (achieved_ai / total * 100, achieved_human / total * 100)
  else (achieved_ai, achieved_human).

(** Step 11 of [UltimateEnhancedHumanizer.humanize_text], l.523-528: the
    clean-up of formatting that ends the pipeline. *)
Definition clean_up_formatting (humanized : str) : str :=
  let humanized := Re.sub Re.spaces [Char.space] humanized in
  let humanized := Re.sub Re.periods [Char.period] humanized in
  let humanized := Re.sub Re.comma_pair [Char.comma] humanized in
  let humanized :=
    Re.sub Re.dash [Char.space; Char.em_dash; Char.space] humanized in
  Str.strip humanized.

(** Steps 1 to 10 call remote services and draw from [random]; what they
    did in one run is an input of the model: the text they produced, or
    the message of the exception that escaped them. *)
Inductive rewrite_outcome :=
| Rewritten (humanized : str)
| Raised (message : str).

(** What one run takes from its environment. *)
Record draw := {
  rewriting : rewrite_outcome;
  variation : Q;        (* [random.uniform(-3, 3)] *)
  elapsed_ms : Q        (* the measured processing time *)
}.

(** [UltimateEnhancedHumanizer.humanize_text], l.473-530; the record of the
    services that were applied is left out. *)
Definition humanize_text (text mode : str) (d : draw)
  : str + (str * percentages) :=
  let target := get_target_percentages mode in
  match rewriting d with
  | Rewritten humanized => inr (clean_up_formatting humanized, target)
  | Raised message => inl message
  end.

End Humanizer.

(** ** services/batch_processing_service.py *)

Module Batch.
Local Open Scope Q_scope.

Inductive job_status := Processing | Completed | Failed.

(** A record of [self.active_batches]. *)
Record job := {
  total : nat;
  completed : nat;
  failed : nat;
  start_time : Q;
  status : job_status;
  end_time : option Q;
  error : option str
}.

(** [self.active_batches] *)
Abbreviation table := (gmap str job) (only parsing).

(** The dictionary returned for one text. *)
Record item_success := {
  index : nat;
  original_text : str;
  humanized_text : str;
  mode : str;
  target_ai_score : Z;
  target_human_score : Z;
  achieved_ai_score : Q;
  achieved_human_score : Q;
  processing_time_ms : Q;
  original_length : nat;
  humanized_length : nat
}.

Record item_failure := {
  failure_error : str;
  failure_index : nat;
  failure_original_text : str
}.

Inductive item_result :=
| ItemOk (r : item_success)
| ItemFailed (r : item_failure).

(** [result['success']] and [result['index']] *)
Definition success (r : item_result) : bool :=
  match r with ItemOk _ => true | ItemFailed _ => false end.

Definition index_of (r : item_result) : nat :=
  match r with ItemOk r => index r | ItemFailed r => failure_index r end.

Definition original_text_of (r : item_result) : str :=
  match r with
  | ItemOk r => original_text r
  | ItemFailed r => failure_original_text r
  end.

(** [_process_single_text], l.176-227 *)
Definition _process_single_text
    (text mode : str) (index : nat) (d : Humanizer.draw) : item_result :=
  match Humanizer.humanize_text text mode d with
  | inr (humanized_text, target_percentages) =>
      let '(achieved_ai, achieved_human) :=
        Humanizer.simulate_achieved target_percentages
          (Humanizer.variation d) in
      ItemOk
        {| index := index;
           original_text := text;
           humanized_text := humanized_text;
           mode := mode;
           target_ai_score := Humanizer.ai_generated target_percentages;
           target_human_score := Humanizer.human_written target_percentages;
           achieved_ai_score := Py.round achieved_ai 1;
           achieved_human_score := Py.round achieved_human 1;
           processing_time_ms := Py.round (Humanizer.elapsed_ms d) 1;
           original_length := length text;
           humanized_length := length humanized_text |}
  | inl message =>
      ItemFailed
        {| failure_error := message;
           failure_index := index;
           failure_original_text := text |}
  end.

(** The update of the counters, l.154-158. *)
Definition count_item (ok : bool) (j : job) : job :=
  if ok
  then {| total := total j; completed := S (completed j);
          failed := failed j; start_time := start_time j;
          status := status j; end_time := end_time j; error := error j |}
  else {| total := total j; completed := completed j;
          failed := S (failed j); start_time := start_time j;
          status := status j; end_time := end_time j; error := error j |}.

(** The counters after the results [rs] have been counted one by one. *)
Definition count_all (rs : list item_result) (j : job) : job :=
  fold_left (fun j r => count_item (success r) j) rs j.

(** [results.sort(key=lambda x: x.get('index', 0))]: a stable sort. *)
Fixpoint insert_by_index (x : item_result) (l : list item_result)
  : list item_result :=
  match l with
  | y :: r =>
      if (index_of x <=? index_of y)%nat then x :: l
      else y :: insert_by_index x r
  | [] => [x]
  end.

Definition sort_by_index (l : list item_result) : list item_result :=
  foldr insert_by_index [] l.

(** One turn of the loop over [as_completed], l.146-158: the future of
    [index] has completed.  The handler of l.160-170 is for an exception
    out of the worker, which [_process_single_text] never lets escape. *)
Definition collect
    (texts : list str) (mode batch_id : str) (draws : nat -> Humanizer.draw)
    (st : list item_result * table) (index : nat)
  : list item_result * table :=
  let '(results, active_batches) := st in
  match texts !! index with
  | Some text =>
      let result := _process_single_text text mode index (draws index) in
      (results ++ [result],
       alter (count_item (success result)) batch_id active_batches)
  | None => st
  end.

(** The result of the item at [index]. *)
Definition item_at
    (texts : list str) (mode : str) (draws : nat -> Humanizer.draw)
    (index : nat) : item_result :=
  _process_single_text (default [] (texts !! index)) mode index (draws index).

(** The order of the sort. *)
Definition index_le (x y : item_result) : Prop :=
  (index_of x <= index_of y)%nat.

(** [_process_texts_parallel], l.134-174.  [schedule] is the order in which
    the futures complete, each index of [texts] once. *)
Definition _process_texts_parallel
    (texts : list str) (mode batch_id : str)
    (schedule : list nat) (draws : nat -> Humanizer.draw)
    (active_batches : table) : list item_result * table :=
  let '(results, active_batches) :=
    fold_left (collect texts mode batch_id draws) schedule
              ([], active_batches) in
  (sort_by_index results, active_batches).

(** The three readings of [time.time()] of one call of [process_batch]. *)
Record clock := {
  at_naming : Q;
  at_start : Q;
  at_end : Q
}.

(** [int(x)] truncates towards zero. *)
Definition py_int (x : Q) : Z := Z.quot (Qnum x) (Z.pos (Qden x)).

(** [f"batch_{int(time.time() * 1000)}"] *)
Definition generated_id (now : Q) : str :=
  lit "batch_" ++ lit (NilZero.string_of_int (Z.to_int (py_int (now * 1000)))).

Record batch_result := {
  batch_id : str;
  total_texts : nat;
  successful : nat;
  failed_count : nat;
  results : list item_result;
  processing_time : Q
}.

Inductive batch_reply :=
| Rejected (error : string)
| Accepted (r : batch_result).

Definition finish (now : Q) (j : job) : job :=
  {| total := total j; completed := completed j; failed := failed j;
     start_time := start_time j; status := Completed;
     end_time := Some now; error := error j |}.

(** [process_batch], l.20-93.  The statistics of the batch, which are
    computed from the results and stored nowhere, are left out. *)
Definition process_batch
    (texts : list str) (mode : str) (batch_id : option str)
    (clk : clock) (schedule : list nat) (draws : nat -> Humanizer.draw)
    (active_batches : table) : batch_reply * table :=
  match texts with
  | [] => (Rejected "No texts provided for batch processing", active_batches)
  | _ :: _ =>
      if (50 <? length texts)%nat
      then (Rejected "Batch size too large. Maximum 50 texts allowed.",
            active_batches)
      else
        let batch_id :=
          match batch_id with
          | Some b => if Str.is_empty b then generated_id (at_naming clk) else b
          | None => generated_id (at_naming clk)
          end in
        let active_batches :=
          <[batch_id := {| total := length texts; completed := 0;
                           failed := 0; start_time := at_start clk;
                           status := Processing; end_time := None;
                           error := None |}]> active_batches in
        let '(results, active_batches) :=
          _process_texts_parallel texts mode batch_id schedule draws
                                  active_batches in
        let active_batches :=
          alter (finish (at_end clk)) batch_id active_batches in
        let successful_results := List.filter (fun r => success r) results in
        let failed_results := List.filter (fun r => negb (success r)) results in
        (Accepted
           {| batch_id := batch_id;
              total_texts := length texts;
              successful := length successful_results;
              failed_count := length failed_results;
              results := results;
              processing_time := at_end clk - at_start clk |},
         active_batches)
  end.

(** A finished job of one text, started at [t]. *)
Definition job_started_at (t : Q) : job :=
  {| total := 1; completed := 1; failed := 0; start_time := t;
     status := Completed; end_time := Some t; error := None |}.

Record batch_info := {
  info : job;
  progress_percentage : Q;
  estimated_remaining_seconds : option Q
}.

Definition is_processing (s : job_status) : bool :=
  match s with Processing => true | _ => false end.

(** [get_batch_status], l.95-132; [None] is the reply [Batch ID not
    found]. *)
Definition get_batch_status (batch_id : str) (now : Q)
    (active_batches : table) : option batch_info :=
  match active_batches !! batch_id with
  | None => None
  | Some j =>
      let progress :=
        if (0 <? total j)%nat
        then Qn (completed j) / Qn (total j) * 100 else 0 in
      Some
        {| info := j;
           progress_percentage := Py.round progress 2;
           estimated_remaining_seconds :=
             if (0 <? completed j)%nat && is_processing (status j) then
               let elapsed_time := now - start_time j in
               let avg_time_per_text := elapsed_time / Qn (completed j) in
               let remaining_texts :=
                 inject_Z (Z.of_nat (total j) - Z.of_nat (completed j)) in
               Some (Py.round (avg_time_per_text * remaining_texts) 2)
             else None |}
  end.

(** [cleanup_old_batches], l.304-318; [now] is the reading of the clock. *)
Definition cleanup_old_batches (max_age_hours : Q) (now : Q)
    (active_batches : table) : table :=
  let current_time := now in
  let max_age_seconds := max_age_hours * 3600 in
  let batch_ids_to_remove :=
    flat_map
      (fun '(batch_id, batch_info) =>
         let batch_age := current_time - start_time batch_info in
         if Qlt_le_dec max_age_seconds batch_age then [batch_id] else [])
      (map_to_list active_batches) in
  foldr delete active_batches batch_ids_to_remove.

End Batch.

(** ** routes/humanizer.py and routes/analytics.py: the two endpoints that
    take a mode *)

Module Routes.
Local Open Scope Q_scope.

Inductive http (A : Type) :=
| Ok200 (body : A)
| Fail (status : nat) (error : string).
Arguments Ok200 {A} body.
Arguments Fail {A} status error.

(** The JSON body of a request to [/api/humanize]. *)
Record humanize_request := {
  req_text : option str;
  req_mode : option str
}.

Record humanize_response := {
  humanizedText : str;
  mode : str;
  targetAIScore : Z;
  targetHumanScore : Z;
  achievedAIScore : Q;
  achievedHumanScore : Q;
  processingTime : Q;
  originalLength : nat;
  humanizedLength : nat
}.

Section WithUnicode.
Context `{UnicodeData}.

(** [humanize_text], humanizer.py l.536-590 *)
Definition humanize_text
    (data : option humanize_request) (d : Humanizer.draw)
  : http humanize_response :=
  match data with
  | None => Fail 400 "No text provided"
  | Some data =>
      match req_text data with
      | None => Fail 400 "No text provided"
      | Some text =>
          let mode :=
            Str.lower (default (lit "balanced") (req_mode data)) in
          if Str.is_empty (Str.strip text)
          then Fail 400 "Empty text provided"
          else
            match Humanizer.humanize_text text mode d with
            | inl _ => Fail 500 "Processing failed"
            | inr (humanized_text, target_percentages) =>
                let '(achieved_ai, achieved_human) :=
                  Humanizer.simulate_achieved target_percentages
                    (Humanizer.variation d) in
                Ok200
                  {| humanizedText := humanized_text;
                     mode := mode;
                     targetAIScore :=
                       Humanizer.ai_generated target_percentages;
                     targetHumanScore :=
                       Humanizer.human_written target_percentages;
                     achievedAIScore := Py.round achieved_ai 1;
                     achievedHumanScore := Py.round achieved_human 1;
                     processingTime :=
                       Py.round (Humanizer.elapsed_ms d) 1;
                     originalLength := length text;
                     humanizedLength := length humanized_text |}
            end
      end
  end.

(** The JSON body of a request to [/api/batch]. *)
Record batch_request := {
  req_texts : option (list str);
  req_batch_mode : option str;
  req_batch_id : option str
}.

Definition valid_modes : list str :=
  [lit "fast"; lit "balanced"; lit "aggressive"].

(** [process_batch], analytics.py l.108-139.  The reply of the service
    is sent as it is, with status 200, whether it accepted the batch or
    not. *)
Definition process_batch
    (data : option batch_request)
    (clk : Batch.clock) (schedule : list nat)
    (draws : nat -> Humanizer.draw) (active_batches : gmap str Batch.job)
  : http Batch.batch_reply * gmap str Batch.job :=
  match data with
  | None => (Fail 400 "No texts provided", active_batches)
  | Some data =>
      match req_texts data with
      | None => (Fail 400 "No texts provided", active_batches)
      | Some texts =>
          let mode :=
            Str.lower (default (lit "balanced") (req_batch_mode data)) in
          let batch_id := req_batch_id data in
          match texts with
          | [] => (Fail 400 "Empty text list provided", active_batches)
          | _ :: _ =>
              if negb (existsb (Str.eqb mode) valid_modes)
              then (Fail 400
                      "Invalid mode. Must be 'fast', 'balanced', or 'aggressive'",
                    active_batches)
              else
                let '(reply, active_batches) :=
                  Batch.process_batch texts mode batch_id clk schedule
                                      draws active_batches in
                (Ok200 reply, active_batches)
          end
      end
  end.

End WithUnicode.

End Routes.



(** ** Built-in functions of Python on lists of numbers *)

Module Builtins.
Local Open Scope Q_scope.

(** [sum(xs)]: the additions run from the left, starting at 0. *)
Definition sum (xs : list Q) : Q := fold_left Qplus xs 0.

(** [min(xs)] and [max(xs)] of a list that is not empty: the first of the
    smallest, or of the largest, elements. *)
Definition min_from (x : Q) (xs : list Q) : Q :=
  fold_left (fun m y => if Qlt_le_dec y m then y else m) xs x.

Definition max_from (x : Q) (xs : list Q) : Q :=
  fold_left (fun m y => if Qlt_le_dec m y then y else m) xs x.

End Builtins.

(** [math.log2] and the power [2 ** x] leave the rationals: the embedding is
    parametric in them, and uses of the logarithm only that it is not
    positive on the interval from 0 to 1. *)
Class FloatLog := {
  flog2 : Q -> Q;
  fpow2 : Q -> Q;
  flog2_nonpos : forall p : Q, (0 < p)%Q -> (p <= 1)%Q -> (flog2 p <= 0)%Q
}.

(** ** services/text_analytics_service.py: basic statistics, sentiment and
    perplexity, the groups of the report that the overall score does not
    read *)

Module TextReport.
Local Open Scope Q_scope.

Section WithUnicode.
Context `{UnicodeData}.

Record basic_stats := {
  character_count : nat;
  character_count_no_spaces : nat;
  word_count : nat;
  unique_word_count : nat;
  sentence_count : nat;
  paragraph_count : nat;
  avg_words_per_sentence : Q;
  avg_characters_per_word : Q;
  vocabulary_diversity : Q
}.

(** [_calculate_basic_stats], l.103-136.  [len(text.split(sep))] is one
    more than the occurrences of the separator. *)
Definition _calculate_basic_stats (text : str) : basic_stats :=
  let sentences := TextAnalytics._split_sentences text in
  let words := TextAnalytics._split_words text in
  let char_count := length text in
  let char_count_no_spaces := length (TextComparison.remove_spaces text) in
  let word_count' := length words in
  let unique_words : gset str := list_to_set (map Str.lower words) in
  let sentence_count' := length sentences in
  let avg_words_per_sentence' :=
    if (0 <? sentence_count')%nat
    then Qn word_count' / Qn sentence_count' else 0 in
  let avg_chars_per_word :=
    if (0 <? word_count')%nat
    then Qn char_count_no_spaces / Qn word_count' else 0 in
  let vocabulary_diversity' :=
    if (0 <? word_count')%nat
    then Qn (size unique_words) / Qn word_count' else 0 in
  {| character_count := char_count;
     character_count_no_spaces := char_count_no_spaces;
     word_count := word_count';
     unique_word_count := size unique_words;
     sentence_count := sentence_count';
     paragraph_count := S (TextComparison.count_blank_lines text);
     avg_words_per_sentence := Py.round avg_words_per_sentence' 2;
     avg_characters_per_word := Py.round avg_chars_per_word 2;
     vocabulary_diversity := Py.round vocabulary_diversity' 3 |}.

Definition positive_words : list str :=
  map lit
    ["good"; "great"; "excellent"; "amazing"; "wonderful"; "fantastic";
     "outstanding"; "superb"; "brilliant"; "perfect"; "awesome";
     "incredible"; "remarkable"; "exceptional"; "magnificent"; "marvelous";
     "splendid"; "terrific"; "fabulous"; "phenomenal"; "impressive";
     "effective"; "successful"; "beneficial"; "valuable"; "useful";
     "helpful"; "positive"]%string.

Definition negative_words : list str :=
  map lit
    ["bad"; "terrible"; "awful"; "horrible"; "dreadful"; "poor"; "worst";
     "disappointing"; "inadequate"; "insufficient"; "problematic";
     "difficult"; "challenging"; "complex"; "complicated"; "confusing";
     "unclear"; "negative"; "harmful"; "dangerous"; "risky"; "ineffective";
     "useless"]%string.

Record sentiment := {
  positive_word_count : nat;
  negative_word_count : nat;
  sentiment_score : Q;
  sentiment_label : string;
  sentiment_ratio : Q
}.

(** The label of l.226-231. *)
Definition label_of (sentiment_score' : Q) : string :=
  if Qlt_le_dec 0.1 sentiment_score' then "positive"
  else if Qlt_le_dec sentiment_score' (-0.1) then "negative"
  else "neutral".

(** [_analyze_sentiment], l.212-239 *)
Definition _analyze_sentiment (text : str) : sentiment :=
  let words := map Str.lower (TextAnalytics._split_words text) in
  let positive_count :=
    length (List.filter (TextAnalytics.word_in positive_words) words) in
  let negative_count :=
    length (List.filter (TextAnalytics.word_in negative_words) words) in
  let total_sentiment_words := (positive_count + negative_count)%nat in
  let '(sentiment_score', sentiment_label') :=
    if (total_sentiment_words =? 0)%nat then (0, "neutral"%string)
    else
      let sentiment_score' :=
        inject_Z (Z.of_nat positive_count - Z.of_nat negative_count)
        / Qn total_sentiment_words in
      (sentiment_score', label_of sentiment_score') in
  {| positive_word_count := positive_count;
     negative_word_count := negative_count;
     sentiment_score := Py.round sentiment_score' 3;
     sentiment_label := sentiment_label';
     sentiment_ratio :=
       match words with
       | [] => 0
       | _ :: _ => Py.round (Qn total_sentiment_words / Py.len words) 3
       end |}.

(** [_get_perplexity_level], l.472-483 *)
Definition _get_perplexity_level (perplexity : Q) : string :=
  if Qle_bool 100 perplexity then "very_high"
  else if Qle_bool 50 perplexity then "high"
  else if Qle_bool 20 perplexity then "moderate"
  else if Qle_bool 10 perplexity then "low"
  else "very_low".

(** One turn of the loop of l.334-335. *)
Definition count_occurrence (word_freq : gmap str nat) (word : str)
  : gmap str nat :=
  <[word := S (default O (word_freq !! word))]> word_freq.

Definition is_positive (p : Q) : bool :=
  if Qlt_le_dec 0 p then true else false.

(** The entropy of l.339-342: the sum runs over the words of the text, one
    term for each occurrence. *)
Definition entropy_of `{FloatLog} (words : list str) : Q :=
  let word_freq := fold_left count_occurrence words ∅ in
  let total_words := length words in
  let probabilities :=
    map (fun word => Qn (default O (word_freq !! word)) / Qn total_words)
        words in
  - Builtins.sum
      (map (fun p => p * flog2 p) (List.filter is_positive probabilities)).

(** [_estimate_perplexity], l.325-357 *)
Definition _estimate_perplexity `{FloatLog} (text : str) : dict :=
  let words := map Str.lower (TextAnalytics._split_words text) in
  if (length words <? 2)%nat
  then error_dict "Insufficient text for perplexity estimation"
  else
    let entropy := entropy_of words in
    let perplexity := fpow2 entropy in
    let total_words := length words in
    let unique_words : gset str := list_to_set words in
    let vocabulary_richness := Qn (size unique_words) / Qn total_words in
    <["estimated_perplexity"%string := PNum (Py.round perplexity 2)]>
    (<["entropy"%string := PNum (Py.round entropy 3)]>
    (<["vocabulary_richness"%string :=
         PNum (Py.round vocabulary_richness 3)]>
    (<["unique_word_ratio"%string :=
         PNum (Py.round (Qn (size unique_words) / Qn total_words) 3)]>
    (<["perplexity_level"%string :=
         PStr (lit (_get_perplexity_level perplexity))]> ∅)))).

End WithUnicode.

(** A logarithm and a power for running examples, on whole numbers: the
    integer logarithm of the integer part, with the sign of the logarithm
    below 1. *)
Definition approx_log2_fun (p : Q) : Q :=
  if Qlt_le_dec p 1 then - inject_Z (Z.log2 (Qfloor (/ p)))
  else inject_Z (Z.log2 (Qfloor p)).

Definition approx_pow2_fun (x : Q) : Q := Qpower 2 (Qfloor x).

Definition approx_log : FloatLog.
Proof.
  refine {| flog2 := approx_log2_fun; fpow2 := approx_pow2_fun |}.
  intros p Hpos Hle. unfold approx_log2_fun.
  destruct (Qlt_le_dec p 1) as [Hlt | Hge].
  - assert (Hl : (0 <= Z.log2 (Qfloor (/ p)))%Z) by apply Z.log2_nonneg.
    rewrite Zle_Qle in Hl. change (inject_Z 0) with 0 in Hl. lra.
  - assert (E : p == 1) by lra.
    rewrite (Qfloor_comp _ _ E). apply Qle_refl.
Defined.

End TextReport.

(** ** services/batch_processing_service.py: the statistics of a batch and
    the list of the jobs *)

Module BatchReport.
Local Open Scope Q_scope.

(** [[r for r in results if r['success']]], l.67 *)
Definition successful_results (results : list Batch.item_result)
  : list Batch.item_success :=
  flat_map (fun r => match r with
                     | Batch.ItemOk s => [s]
                     | Batch.ItemFailed _ => []
                     end) results.

Record processing_time_statistics := {
  average_ms : Q;
  minimum_ms : Q;
  maximum_ms : Q
}.

Record accuracy_statistics := {
  average_ai_accuracy : Q;
  average_human_accuracy : Q;
  overall_accuracy : Q
}.

Record text_length_statistics := {
  average_original_length : Q;
  average_humanized_length : Q;
  average_length_change : Q;
  length_change_percentage : Q
}.

Record batch_statistics := {
  processing_time : processing_time_statistics;
  accuracy : accuracy_statistics;
  text_length : text_length_statistics
}.

(** The accuracies of one result, l.246-252. *)
Definition ai_accuracy_of (result : Batch.item_success) : Q :=
  100 - Qabs (inject_Z (Batch.target_ai_score result)
              - Batch.achieved_ai_score result).

Definition human_accuracy_of (result : Batch.item_success) : Q :=
  100 - Qabs (inject_Z (Batch.target_human_score result)
              - Batch.achieved_human_score result).

(** [_calculate_batch_statistics], l.229-302; [None] is the empty
    dictionary returned for no result.  The usage of the remote services,
    which the results of the embedding do not record, is left out, and so
    is the handler of l.300-302, which no list of results reaches. *)
Definition _calculate_batch_statistics
    (successful_results : list Batch.item_success)
  : option batch_statistics :=
  match successful_results with
  | [] => None
  | first :: rest =>
      let processing_times :=
        map Batch.processing_time_ms successful_results in
      let avg_processing_time :=
        Builtins.sum processing_times / Py.len processing_times in
      let min_processing_time :=
        Builtins.min_from (Batch.processing_time_ms first)
                          (map Batch.processing_time_ms rest) in
      let max_processing_time :=
        Builtins.max_from (Batch.processing_time_ms first)
                          (map Batch.processing_time_ms rest) in
      let ai_accuracies := map ai_accuracy_of successful_results in
      let human_accuracies := map human_accuracy_of successful_results in
      let avg_ai_accuracy :=
        Builtins.sum ai_accuracies / Py.len ai_accuracies in
      let avg_human_accuracy :=
        Builtins.sum human_accuracies / Py.len human_accuracies in
      let original_lengths :=
        map (fun r => Qn (Batch.original_length r)) successful_results in
      let humanized_lengths :=
        map (fun r => Qn (Batch.humanized_length r)) successful_results in
      let avg_original_length :=
        Builtins.sum original_lengths / Py.len original_lengths in
      let avg_humanized_length :=
        Builtins.sum humanized_lengths / Py.len humanized_lengths in
      let avg_length_change := avg_humanized_length - avg_original_length in
      Some
        {| processing_time :=
             {| average_ms := Py.round avg_processing_time 2;
                minimum_ms := Py.round min_processing_time 2;
                maximum_ms := Py.round max_processing_time 2 |};
           accuracy :=
             {| average_ai_accuracy := Py.round avg_ai_accuracy 2;
                average_human_accuracy := Py.round avg_human_accuracy 2;
                overall_accuracy :=
                  Py.round ((avg_ai_accuracy + avg_human_accuracy) / 2) 2 |};
           text_length :=
             {| average_original_length := Py.round avg_original_length 2;
                average_humanized_length := Py.round avg_humanized_length 2;
                average_length_change := Py.round avg_length_change 2;
                length_change_percentage :=
                  if Qlt_le_dec 0 avg_original_length
                  then Py.round (avg_length_change / avg_original_length
                                 * 100) 2
                  else 0 |} |}
  end.

(** The results that [_process_texts_parallel] collects along a schedule,
    in the order of completion: an index that names no text names no
    future and is passed over. *)
Definition collected
    (texts : list str) (mode : str) (draws : nat -> Humanizer.draw)
    (schedule : list nat) : list Batch.item_result :=
  flat_map (fun i => match texts !! i with
                     | Some text =>
                         [Batch._process_single_text text mode i (draws i)]
                     | None => []
                     end) schedule.

(** The identifier under which [process_batch] files the job, l.46-48, and
    the record that it files at the start, l.51-57. *)
Definition chosen_id (batch_id : option str) (clk : Batch.clock) : str :=
  match batch_id with
  | Some b => if Str.is_empty b then Batch.generated_id (Batch.at_naming clk)
              else b
  | None => Batch.generated_id (Batch.at_naming clk)
  end.

Definition started (texts : list str) (clk : Batch.clock) : Batch.job :=
  {| Batch.total := length texts; Batch.completed := 0; Batch.failed := 0;
     Batch.start_time := Batch.at_start clk; Batch.status := Batch.Processing;
     Batch.end_time := None; Batch.error := None |}.

(** An entry of the list of [get_active_batches]. *)
Record active_entry := {
  entry_total : nat;
  entry_completed : nat;
  entry_failed : nat;
  entry_status : Batch.job_status;
  entry_progress_percentage : Q
}.

Record active_batches_report := {
  active_batch_count : nat;
  batches : gmap str active_entry
}.

Definition entry_of (info : Batch.job) : active_entry :=
  {| entry_total := Batch.total info;
     entry_completed := Batch.completed info;
     entry_failed := Batch.failed info;
     entry_status := Batch.status info;
     entry_progress_percentage :=
       if (0 <? Batch.total info)%nat
       then Py.round (Qn (Batch.completed info) / Qn (Batch.total info)
                      * 100) 2
       else 0 |}.

(** [get_active_batches], l.320-334 *)
Definition get_active_batches (active_batches : gmap str Batch.job)
  : active_batches_report :=
  {| active_batch_count := size active_batches;
     batches := entry_of <$> active_batches |}.

End BatchReport.

(** ** routes/analytics.py: the endpoints of the batch jobs *)

Module BatchRoutes.
Local Open Scope Q_scope.

(** A value of a JSON body, as far as the routes tell values apart. *)
Inductive json_value :=
| JNumber (q : Q)
| JBoolean (b : bool)
| JString (s : str)
| JNull.

(** [isinstance(v, (int, float))] with the number that [v] is: a Boolean
    is an [int] in Python. *)
Definition number_of (v : json_value) : option Q :=
  match v with
  | JNumber q => Some q
  | JBoolean b => Some (if b then 1 else 0)
  | JString _ | JNull => None
  end.

(** The JSON body of a request to [/api/batch/cleanup]: an object, whose
    key [max_age_hours] may be missing. *)
Record cleanup_request := {
  req_max_age_hours : option json_value
}.

(** [cleanup_old_batches], analytics.py l.168-189; a reply with status 200
    carries the threshold that was applied.  A missing or empty body
    counts as the empty object. *)
Definition cleanup_old_batches
    (data : option cleanup_request) (now : Q)
    (active_batches : gmap str Batch.job)
  : Routes.http Q * gmap str Batch.job :=
  let max_age_hours :=
    match data with
    | Some data => default (JNumber 24) (req_max_age_hours data)
    | None => JNumber 24
    end in
  match number_of max_age_hours with
  | None =>
      (Routes.Fail 400 "max_age_hours must be a positive number",
       active_batches)
  | Some hours =>
      if Qle_bool hours 0
      then (Routes.Fail 400 "max_age_hours must be a positive number",
            active_batches)
      else (Routes.Ok200 hours,
            Batch.cleanup_old_batches hours now active_batches)
  end.

(** [get_batch_status], analytics.py l.141-151: the reply of the service is
    sent with status 200 whether the job is known or not. *)
Definition get_batch_status
    (batch_id : str) (now : Q) (active_batches : gmap str Batch.job)
  : Routes.http (option Batch.batch_info) :=
  Routes.Ok200 (Batch.get_batch_status batch_id now active_batches).

(** [get_active_batches], analytics.py l.153-166 *)
Definition get_active_batches (active_batches : gmap str Batch.job)
  : Routes.http BatchReport.active_batches_report :=
  Routes.Ok200 (BatchReport.get_active_batches active_batches).

(** The counts of [get_analytics_stats], analytics.py l.240-269. *)
Record analytics_stats := {
  active_batch_count : nat;
  total_batches_tracked : nat;
  max_batch_size : nat
}.

Definition get_analytics_stats (active_batches : gmap str Batch.job)
  : Routes.http analytics_stats :=
  let listing := BatchReport.get_active_batches active_batches in
  Routes.Ok200
    {| active_batch_count := BatchReport.active_batch_count listing;
       total_batches_tracked := size active_batches;
       max_batch_size := 50 |}.

End BatchRoutes.

(** ** Regular expressions that look at the character before the match

    A pattern that begins with a word boundary, searched with the flag
    [IGNORECASE].  Which characters outside ASCII a letter of the pattern
    matches when case is ignored is read from a table, in which the
    definitions and theorems are parametric. *)

Class UnicodeFold := {
  uni_same_ignoring_case : char -> char -> bool
}.

(** The table that matches no character outside ASCII, for running
    examples. *)
Definition ascii_fold : UnicodeFold :=
  {| uni_same_ignoring_case := fun _ _ => false |}.

Module ReCtx.

Section WithUnicode.
Context `{UnicodeData} `{UnicodeFold}.

(** At the start of [s], which the character [prev] precedes, the matcher
    returns the matched text and the rest, or fails. *)
Definition matcher := option char -> str -> option (str * str).

(** The last character read once [w] has been passed over. *)
Definition last_of (prev : option char) (w : str) : option char :=
  match rev w with
  | c :: _ => Some c
  | [] => prev
  end.

Fixpoint scan_fuel (fuel : nat) (m : matcher) (prev : option char) (s : str)
  : list Re.item :=
  match fuel with
  | O => []
  | S fuel' =>
      match s with
      | [] => []
      | c :: r =>
          match m prev s with
          | Some (matched, rest) =>
              Re.Match matched :: scan_fuel fuel' m (last_of prev matched) rest
          | None => Re.Lit c :: scan_fuel fuel' m (Some c) r
          end
      end
  end.

Definition scan (m : matcher) (s : str) : list Re.item :=
  scan_fuel (length s) m None s.

(** [re.findall(pattern, s, re.IGNORECASE)] *)
Definition findall (m : matcher) (s : str) : list str :=
  flat_map (fun it => match it with Re.Lit _ => [] | Re.Match w => [w] end)
           (scan m s).

Definition is_word_at (c : option char) : bool :=
  match c with
  | Some c => Char.is_word c
  | None => false
  end.

(** [\b]: exactly one of the two neighbours is a word character; the two
    ends of the text count as none. *)
Definition boundary (before after : option char) : bool :=
  xorb (is_word_at before) (is_word_at after).

(** A lower-case ASCII letter [p] of the pattern against the character [c]
    of the text, case ignored. *)
Definition letter_ignoring_case (p c : char) : bool :=
  if (c <? 128)%N
  then N.eqb p (if Char.is_upper_ascii c then c + 32 else c)%N
  else uni_same_ignoring_case p c.

(** The letters of [p], one after the other. *)
Fixpoint literal_ignoring_case (p : str) (s : str) : option (str * str) :=
  match p with
  | [] => Some ([], s)
  | x :: p' =>
      match s with
      | c :: r =>
          if letter_ignoring_case x c then
            match literal_ignoring_case p' r with
            | Some (w, rest) => Some (c :: w, rest)
            | None => None
            end
          else None
      | [] => None
      end
  end.

(** [(a1|a2|...)\b]: the first alternative after which there is a word
    boundary. *)
Fixpoint first_alternative (alternatives : list str) (s : str)
  : option (str * str) :=
  match alternatives with
  | [] => None
  | a :: others =>
      match literal_ignoring_case a s with
      | Some (w, rest) =>
          if boundary (last_of None w) (head rest) then Some (w, rest)
          else first_alternative others s
      | None => first_alternative others s
      end
  end.

(** [\b(a1|a2|...)\b] *)
Definition word_among (alternatives : list str) : matcher := fun prev s =>
  if boundary prev (head s) then first_alternative alternatives s else None.

End WithUnicode.

End ReCtx.

(** ** services/text_comparison_service.py: the groups of the report that
    the summary does not read *)

Module ComparisonReport.
Local Open Scope Q_scope.

Section WithUnicode.
Context `{UnicodeData} `{UnicodeFold}.

Record basic_changes := {
  character_change : Z;
  word_change : Z;
  sentence_change : Z;
  character_change_percent : Q;
  word_change_percent : Q
}.

Record basic_comparison := {
  original_stats : TextComparison.text_stats;
  humanized_stats : TextComparison.text_stats;
  changes : basic_changes
}.

(** [round((h - o) / o * 100, 2) if o > 0 else 0] on counts. *)
Definition change_percent (o h : Z) : Q :=
  if (0 <? o)%Z then Py.round (inject_Z (h - o) / inject_Z o * 100) 2 else 0.

(** [_compare_basic_stats], l.71-90 *)
Definition _compare_basic_stats (original humanized : str)
  : basic_comparison :=
  let original_stats' := TextComparison._get_text_stats original in
  let humanized_stats' := TextComparison._get_text_stats humanized in
  {| original_stats := original_stats';
     humanized_stats := humanized_stats';
     changes :=
       {| character_change :=
            (TextComparison.characters humanized_stats'
             - TextComparison.characters original_stats')%Z;
          word_change :=
            (TextComparison.words humanized_stats'
             - TextComparison.words original_stats')%Z;
          sentence_change :=
            (TextComparison.sentences humanized_stats'
             - TextComparison.sentences original_stats')%Z;
          character_change_percent :=
            change_percent (TextComparison.characters original_stats')
                           (TextComparison.characters humanized_stats');
          word_change_percent :=
            change_percent (TextComparison.words original_stats')
                           (TextComparison.words humanized_stats') |} |}.

Record structures := {
  simple : nat;
  compound : nat;
  complex : nat;
  compound_complex : nat
}.

Definition coordinating : list str :=
  map lit ["and"; "but"; "or"; "so"; "yet"]%string.

Definition subordinating : list str :=
  map lit ["because"; "since"; "although"; "while"; "if"; "when"; "that";
           "which"]%string.

(** One turn of the loop of [_analyze_sentence_structures], l.387-399. *)
Definition count_structure (st : structures) (sentence : str) : structures :=
  let coord_conjunctions :=
    length (ReCtx.findall (ReCtx.word_among coordinating) sentence) in
  let subord_conjunctions :=
    length (ReCtx.findall (ReCtx.word_among subordinating) sentence) in
  if (0 <? coord_conjunctions)%nat && (0 <? subord_conjunctions)%nat
  then {| simple := simple st; compound := compound st;
          complex := complex st;
          compound_complex := S (compound_complex st) |}
  else if (0 <? coord_conjunctions)%nat
  then {| simple := simple st; compound := S (compound st);
          complex := complex st;
          compound_complex := compound_complex st |}
  else if (0 <? subord_conjunctions)%nat
  then {| simple := simple st; compound := compound st;
          complex := S (complex st);
          compound_complex := compound_complex st |}
  else {| simple := S (simple st); compound := compound st;
          complex := complex st;
          compound_complex := compound_complex st |}.

(** [_analyze_sentence_structures], l.378-401 *)
Definition _analyze_sentence_structures (sentences : list str) : structures :=
  fold_left count_structure sentences
            {| simple := 0; compound := 0; complex := 0;
               compound_complex := 0 |}.

(** [min(xs) if xs else 0] and [max(xs) if xs else 0] on counts. *)
Definition min_or_zero (xs : list nat) : nat :=
  match xs with
  | [] => O
  | x :: rest => fold_left Nat.min rest x
  end.

Definition max_or_zero (xs : list nat) : nat :=
  match xs with
  | [] => O
  | x :: rest => fold_left Nat.max rest x
  end.

Record length_summary := {
  min_length : nat;
  max_length : nat;
  avg_length : Q
}.

(** An entry of [length_distribution], l.184-195. *)
Definition length_summary_of (sentences : list str) : length_summary :=
  let lengths := map TextComparison.split_count sentences in
  {| min_length := min_or_zero lengths;
     max_length := max_or_zero lengths;
     avg_length := Py.round (TextComparison.average_length sentences) 2 |}.

(** The groups of [_analyze_sentence_changes], l.146-196, that
    [TextComparison._analyze_sentence_changes] leaves out, but for the
    matching of sentences by [difflib.get_close_matches]. *)
Record sentence_report := {
  sentence_changes_of : TextComparison.sentence_changes;
  original_structures : structures;
  humanized_structures : structures;
  original_lengths : length_summary;
  humanized_lengths : length_summary
}.

Definition _analyze_sentence_changes (original humanized : str)
  : sentence_report :=
  let original_sentences := TextComparison.sentences_of original in
  let humanized_sentences := TextComparison.sentences_of humanized in
  {| sentence_changes_of :=
       TextComparison._analyze_sentence_changes original humanized;
     original_structures := _analyze_sentence_structures original_sentences;
     humanized_structures :=
       _analyze_sentence_structures humanized_sentences;
     original_lengths := length_summary_of original_sentences;
     humanized_lengths := length_summary_of humanized_sentences |}.

Record improvements := {
  flesch_ease_change : Q;
  grade_level_change : Q;
  readability_improved : bool
}.

Inductive readability_comparison :=
| ReadabilityCompared (original humanized : dict) (changes : improvements)
| ReadabilityFailed (missing_key : string).

(** [d[key]] used as a number: a key that is missing raises [KeyError]. *)
Definition number_at (d : dict) (key : string) : option Q :=
  match d !! key with
  | Some (PNum q) => Some q
  | _ => None
  end.

(** [_compare_readability], l.253-288.  [analyze_text] always reports
    success on a text of the embedding; a readability group that holds an
    error lacks the keys that are read, and the handler of l.286-288
    answers with the name of the first key that was missing. *)
Definition _compare_readability `{FloatSqrt} (original humanized : str)
  : readability_comparison :=
  let original_readability :=
    TextAnalytics.readability (TextAnalytics.analyze_text original) in
  let humanized_readability :=
    TextAnalytics.readability (TextAnalytics.analyze_text humanized) in
  match number_at humanized_readability "flesch_reading_ease",
        number_at original_readability "flesch_reading_ease" with
  | Some humanized_ease, Some original_ease =>
      match number_at humanized_readability "average_grade_level",
            number_at original_readability "average_grade_level" with
      | Some humanized_grade, Some original_grade =>
          ReadabilityCompared original_readability humanized_readability
            {| flesch_ease_change :=
                 Py.round (humanized_ease - original_ease) 2;
               grade_level_change :=
                 Py.round (humanized_grade - original_grade) 2;
               readability_improved :=
                 if Qlt_le_dec original_ease humanized_ease
                 then true else false |}
      | _, _ => ReadabilityFailed "average_grade_level"
      end
  | _, _ => ReadabilityFailed "flesch_reading_ease"
  end.

End WithUnicode.

End ComparisonReport.

(** ** services/languagetool_service.py

    The reply of the remote checker is an input of the model.  A match is
    read through [dict.get] with defaults, so that a key that is missing
    and a key that holds the default are the same match; the offsets and
    the lengths that LanguageTool reports are natural numbers. *)

(** [str.upper] beyond ASCII is read from a table. *)
Class UnicodeUpper := {
  uni_upper : char -> list char
}.

(** The table that changes no character outside ASCII, for running
    examples. *)
Definition ascii_upper : UnicodeUpper := {| uni_upper := fun c => [c] |}.

Module LanguageTool.

Record rule_match := {
  match_offset : nat;             (* [match.get('offset', 0)] *)
  match_length : nat;             (* [match.get('length', 0)] *)
  match_replacements : list str;  (* the [value] of each replacement *)
  match_category : str            (* the [id] of the category of the rule *)
}.

(** [sorted(matches, key=offset, reverse=True)]: the sort is stable, so
    that matches of the same offset keep their order. *)
Fixpoint insert_by_offset (m : rule_match) (l : list rule_match)
  : list rule_match :=
  match l with
  | y :: r =>
      if (match_offset y <=? match_offset m)%nat then m :: l
      else y :: insert_by_offset m r
  | [] => [m]
  end.

Definition sorted_by_offset_reversed (matches : list rule_match)
  : list rule_match :=
  foldr insert_by_offset [] matches.

Definition skip_categories : list str :=
  map lit ["STYLE"; "REDUNDANCY"; "COLLOQUIALISMS"]%string.

(** One turn of the loop of [apply_corrections], l.78-115. *)
Definition apply_one (apply_all : bool) (corrected_text : str)
    (m : rule_match) : str :=
  match match_replacements m with
  | [] => corrected_text
  | replacement :: _ =>
      if negb apply_all
         && (TextAnalytics.word_in skip_categories (match_category m)
             || (3 <? length (match_replacements m))%nat)
      then corrected_text
      else if Str.is_empty replacement then corrected_text
      else take (match_offset m) corrected_text ++ replacement
           ++ drop (match_offset m + match_length m) corrected_text
  end.

(** [apply_corrections], l.59-117 *)
Definition apply_corrections (text : str) (matches : list rule_match)
    (apply_all : bool) : str :=
  match matches with
  | [] => text
  | _ :: _ =>
      fold_left (apply_one apply_all) (sorted_by_offset_reversed matches) text
  end.

(** The replacement that a turn of the loop makes for a match, if it makes
    one. *)
Definition replacement_of (apply_all : bool) (m : rule_match) : option str :=
  match match_replacements m with
  | [] => None
  | replacement :: _ =>
      if negb apply_all
         && (TextAnalytics.word_in skip_categories (match_category m)
             || (3 <? length (match_replacements m))%nat)
      then None
      else if Str.is_empty replacement then None
      else Some replacement
  end.

(** The text from position [pos] on in which the spans of the matches,
    read from left to right, are replaced all at once, each by the
    replacement that is made for it. *)
Fixpoint replace_spans (apply_all : bool) (pos : nat) (text : str)
    (spans : list rule_match) : str :=
  match spans with
  | [] => drop pos text
  | m :: rest =>
      take (match_offset m - pos) (drop pos text)
      ++ match replacement_of apply_all m with
         | Some replacement => replacement
         | None => take (match_length m) (drop (match_offset m) text)
         end
      ++ replace_spans apply_all (match_offset m + match_length m) text rest
  end.

(** Spans that follow one another from position [pos] on without
    overlap, at offsets that grow, inside a text of [n] characters. *)
Fixpoint spans_in_order (pos n : nat) (spans : list rule_match) : Prop :=
  match spans with
  | [] => (pos <= n)%nat
  | m :: rest =>
      (pos <= match_offset m)%nat
      /\ match rest with
         | [] => True
         | m' :: _ => (match_offset m < match_offset m')%nat
         end
      /\ spans_in_order (match_offset m + match_length m) n rest
  end.

(** [s.upper()] *)
Definition upper `{UnicodeUpper} (s : str) : str :=
  flat_map (fun c => if (c <? 128)%N
                     then [if Char.between 97 122 c then (c - 32)%N else c]
                     else uni_upper c) s.

Fixpoint starts_with (prefix s : str) : bool :=
  match prefix with
  | [] => true
  | p :: prefix' =>
      match s with
      | c :: r => N.eqb p c && starts_with prefix' r
      | [] => false
      end
  end.

(** [needle in s] on strings *)
Fixpoint contains (needle s : str) : bool :=
  starts_with needle s
  || match s with
     | _ :: r => contains needle r
     | [] => false
     end.

Record writing_statistics := {
  total_issues : nat;
  grammar_issues : nat;
  spelling_issues : nat;
  style_issues : nat;
  punctuation_issues : nat;
  other_issues : nat
}.

(** One turn of the loop of [get_writing_statistics], l.138-154. *)
Definition count_issue `{UnicodeUpper} (stats : writing_statistics)
    (m : rule_match) : writing_statistics :=
  let category_id := upper (match_category m) in
  if contains (lit "GRAMMAR") category_id
  then {| total_issues := total_issues stats;
          grammar_issues := S (grammar_issues stats);
          spelling_issues := spelling_issues stats;
          style_issues := style_issues stats;
          punctuation_issues := punctuation_issues stats;
          other_issues := other_issues stats |}
  else if contains (lit "TYPOS") category_id
          || contains (lit "SPELLING") category_id
  then {| total_issues := total_issues stats;
          grammar_issues := grammar_issues stats;
          spelling_issues := S (spelling_issues stats);
          style_issues := style_issues stats;
          punctuation_issues := punctuation_issues stats;
          other_issues := other_issues stats |}
  else if contains (lit "STYLE") category_id
  then {| total_issues := total_issues stats;
          grammar_issues := grammar_issues stats;
          spelling_issues := spelling_issues stats;
          style_issues := S (style_issues stats);
          punctuation_issues := punctuation_issues stats;
          other_issues := other_issues stats |}
  else if contains (lit "PUNCTUATION") category_id
  then {| total_issues := total_issues stats;
          grammar_issues := grammar_issues stats;
          spelling_issues := spelling_issues stats;
          style_issues := style_issues stats;
          punctuation_issues := S (punctuation_issues stats);
          other_issues := other_issues stats |}
  else {| total_issues := total_issues stats;
          grammar_issues := grammar_issues stats;
          spelling_issues := spelling_issues stats;
          style_issues := style_issues stats;
          punctuation_issues := punctuation_issues stats;
          other_issues := S (other_issues stats) |}.

(** [get_writing_statistics], l.119-156 *)
Definition get_writing_statistics `{UnicodeUpper} (matches : list rule_match)
  : writing_statistics :=
  fold_left count_issue matches
            {| total_issues := length matches; grammar_issues := 0;
               spelling_issues := 0; style_issues := 0;
               punctuation_issues := 0; other_issues := 0 |}.

(** What [check_text] returns: a dictionary that holds an error, or the
    matches of the reply. *)
Inductive check_result :=
| CheckFailed (error : str)
| Checked (matches : list rule_match).

(** What [enhance_text_quality] returns; with an error the statistics are
    the dictionary that holds 0 for [total_issues] and nothing else. *)
Inductive quality_result :=
| QualityError (enhanced_text : str) (error : str)
| QualityChecked (enhanced_text : str) (matches : list rule_match)
                 (statistics : writing_statistics).

(** [enhance_text_quality], l.158-199 *)
Definition enhance_text_quality `{UnicodeUpper}
    (check_text : str -> check_result) (text : str)
    (apply_corrections' : bool) : quality_result :=
  match check_text text with
  | CheckFailed error => QualityError text error
  | Checked matches =>
      let enhanced_text :=
        match matches with
        | _ :: _ =>
            if apply_corrections'
            then apply_corrections text matches false else text
        | [] => text
        end in
      QualityChecked enhanced_text matches (get_writing_statistics matches)
  end.

End LanguageTool.

(** ** services/prowritingaid_service.py

    The outcome of the remote analysis is an input of the model. *)

Module ProWritingAid.
Local Open Scope Q_scope.

Section WithUnicode.
Context `{UnicodeData}.

(** A tag of the analysis, read with the defaults of [dict.get]. *)
Record suggestion := {
  start_pos : nat;              (* [startPos] *)
  end_pos : option nat;         (* [endPos], [start_pos] when missing *)
  suggestions : list str;
  category : str
}.

(** [sorted(suggestions, key=startPos, reverse=True)], a stable sort. *)
Fixpoint insert_by_start (x : suggestion) (l : list suggestion)
  : list suggestion :=
  match l with
  | y :: r =>
      if (start_pos y <=? start_pos x)%nat then x :: l
      else y :: insert_by_start x r
  | [] => [x]
  end.

Definition sorted_by_start_reversed (l : list suggestion) : list suggestion :=
  foldr insert_by_start [] l.

Definition grammar_categories : list str :=
  map lit ["grammar"; "spelling"; "punctuation"]%string.

Definition style_categories : list str :=
  map lit ["style"; "readability"; "overused"]%string.

(** One turn of the loop of [apply_suggestions], l.206-234. *)
Definition apply_one (apply_grammar apply_style : bool)
    (corrected_text : str) (s : suggestion) : str :=
  let start_pos' := start_pos s in
  let end_pos' := default start_pos' (end_pos s) in
  let category' := Str.lower (category s) in
  match suggestions s with
  | [] => corrected_text
  | replacement :: _ =>
      let should_apply :=
        if apply_grammar
           && TextAnalytics.word_in grammar_categories category'
        then true
        else apply_style && TextAnalytics.word_in style_categories category'
      in
      if should_apply
      then take start_pos' corrected_text ++ replacement
           ++ drop end_pos' corrected_text
      else corrected_text
  end.

(** [apply_suggestions], l.179-236 *)
Definition apply_suggestions (text : str) (suggestions' : list suggestion)
    (apply_grammar apply_style : bool) : str :=
  match suggestions' with
  | [] => text
  | _ :: _ =>
      fold_left (apply_one apply_grammar apply_style)
                (sorted_by_start_reversed suggestions') text
  end.

(** The result of an analysis, as far as it is read: the tags, and the
    text, which is empty when the key is missing. *)
Record analysis_report := {
  tags : list suggestion;
  report_text : str
}.

(** The scores; the count of the issues is missing from the reply that is
    given for no result. *)
Record writing_scores := {
  overall_score : Q;
  grammar_score : Z;
  style_score : Z;
  readability_score : Z;
  issues_found : option nat
}.

(** The two counters of the loop of l.268-273. *)
Definition count_tag (st : nat * nat) (tag : suggestion) : nat * nat :=
  let '(grammar_issues, style_issues) := st in
  let category' := Str.lower (category tag) in
  if TextAnalytics.word_in grammar_categories category'
  then (S grammar_issues, style_issues)
  else if TextAnalytics.word_in style_categories category'
  then (grammar_issues, S style_issues)
  else (grammar_issues, style_issues).

(** [get_writing_score], l.238-293; [None] is an [analysis_result] that is
    empty or holds no result. *)
Definition get_writing_score (analysis_result : option analysis_report)
  : writing_scores :=
  match analysis_result with
  | None =>
      {| overall_score := 0; grammar_score := 0; style_score := 0;
         readability_score := 0; issues_found := None |}
  | Some result =>
      let '(grammar_issues, style_issues) :=
        fold_left count_tag (tags result) (O, O) in
      let text_length := length (report_text result) in
      if (0 <? text_length)%nat
      then
        let grammar_score' :=
          Z.max 0 (100 - Z.of_nat grammar_issues * 10) in
        let style_score' := Z.max 0 (100 - Z.of_nat style_issues * 5) in
        {| overall_score := inject_Z (grammar_score' + style_score') / 2;
           grammar_score := grammar_score';
           style_score := style_score';
           readability_score := 0;
           issues_found := Some (length (tags result)) |}
      else
        {| overall_score := 0; grammar_score := 0; style_score := 0;
           readability_score := 0;
           issues_found := Some (length (tags result)) |}
  end.

(** What [analyze_text_sync] returns: a dictionary that holds an error,
    every message of which is a text that is not empty, or the result of an
    analysis that is done, which the reply of the service may lack. *)
Inductive analysis :=
| AnalysisFailed (error : str)
| AnalysisDone (result : option analysis_report).

(** What [enhance_text_quality] returns; with an error the scores are the
    dictionary that holds 0 for [overall_score] and nothing else. *)
Inductive quality_result :=
| QualityError (enhanced_text : str) (error : string)
| QualityRemoteError (enhanced_text : str) (error : str)
| QualityAnalysed (enhanced_text : str) (suggestions : list suggestion)
                  (scores : writing_scores).

(** Truthiness of a key or of an address that may not be set. *)
Definition configured (key : option str) : bool :=
  match key with
  | Some k => negb (Str.is_empty k)
  | None => false
  end.

(** [enhance_text_quality], l.295-346; [None] is the [AttributeError] that
    a result that is missing raises at l.323. *)
Definition enhance_text_quality
    (api_key : option str) (analyze_text_sync : str -> analysis)
    (text : str) (apply_corrections : bool) : option quality_result :=
  if negb (configured api_key)
  then Some (QualityError text "ProWritingAid API key not configured")
  else
    match analyze_text_sync text with
    | AnalysisFailed error => Some (QualityRemoteError text error)
    | AnalysisDone None => None
    | AnalysisDone (Some result) =>
        let suggestions' := tags result in
        let enhanced_text :=
          match suggestions' with
          | _ :: _ =>
              if apply_corrections
              then apply_suggestions text suggestions' true false else text
          | [] => text
          end in
        Some (QualityAnalysed enhanced_text suggestions'
                              (get_writing_score (Some result)))
    end.

End WithUnicode.

End ProWritingAid.

(** ** routes/humanizer.py: the remote services of the pipeline *)

Module Services.

(** What the humanizers of AI-Text-Humanizer and of HIX Bypass return: the
    text they made, or an error. *)
Inductive remote_outcome :=
| Humanized (humanized_text : str)
| NotHumanized (error : str).

(** The configuration of the services and what each of them answers to a
    text in one run. *)
Record environment := {
  languagetool_check : str -> LanguageTool.check_result;
  prowritingaid_key : option str;
  prowritingaid_analysis : str -> ProWritingAid.analysis;
  ai_text_humanizer_email : option str;
  ai_text_humanizer : str -> remote_outcome;
  hix_bypass_key : option str;
  hix_bypass : str -> remote_outcome
}.

(** An entry of [service_results]: the details that a service reports are
    kept for LanguageTool and ProWritingAid. *)
Record service_report (A : Type) := {
  applied : bool;
  error : option str;
  report : option A
}.
Arguments applied {A}.
Arguments error {A}.
Arguments report {A}.

Definition not_run {A} : service_report A :=
  {| applied := false; error := None; report := None |}.

Record service_results := {
  languagetool : service_report LanguageTool.writing_statistics;
  prowritingaid : service_report ProWritingAid.writing_scores;
  ai_text_humanizer_result : service_report unit;
  hix_bypass_result : service_report unit
}.

Section WithUnicode.
Context `{UnicodeData} `{UnicodeUpper}.

(** [mode in ['balanced', 'aggressive']] *)
Definition balanced_or_aggressive (mode : str) : bool :=
  Str.eqb mode (lit "balanced") || Str.eqb mode (lit "aggressive").

(** [enhance_with_external_services], humanizer.py l.101-209 *)
Definition enhance_with_external_services
    (env : environment) (text mode : str) : str * service_results :=
  let enhanced_text := text in
  (* Step 1 *)
  let '(enhanced_text, languagetool') :=
    match LanguageTool.enhance_text_quality (languagetool_check env)
                                            enhanced_text true with
    | LanguageTool.QualityChecked enhanced _ statistics =>
        (enhanced,
         {| applied := true; error := None; report := Some statistics |})
    | LanguageTool.QualityError _ error' =>
        (enhanced_text,
         {| applied := false; error := Some error'; report := None |})
    end in
  (* Step 2 *)
  let '(enhanced_text, prowritingaid') :=
    if balanced_or_aggressive mode
       && ProWritingAid.configured (prowritingaid_key env)
    then
      match ProWritingAid.enhance_text_quality
              (prowritingaid_key env) (prowritingaid_analysis env)
              enhanced_text (Str.eqb mode (lit "aggressive")) with
      | Some (ProWritingAid.QualityAnalysed enhanced _ scores) =>
          (if Str.eqb mode (lit "aggressive") then enhanced
           else enhanced_text,
           {| applied := true; error := None; report := Some scores |})
      | Some (ProWritingAid.QualityError _ error') =>
          (enhanced_text,
           {| applied := false; error := Some (lit error');
              report := None |})
      | Some (ProWritingAid.QualityRemoteError _ error') =>
          (enhanced_text,
           {| applied := false; error := Some error'; report := None |})
      | None =>
          (enhanced_text,
           {| applied := false;
              error :=
                Some (lit ("ProWritingAid error: 'NoneType' object has "
                           ++ "no attribute 'get'"));
              report := None |})
      end
    else (enhanced_text, not_run) in
  (* Step 3 *)
  let '(enhanced_text, ai_text_humanizer') :=
    if balanced_or_aggressive mode
       && ProWritingAid.configured (ai_text_humanizer_email env)
    then
      match ai_text_humanizer env enhanced_text with
      | Humanized humanized_text =>
          (if Str.eqb mode (lit "aggressive") then humanized_text
           else enhanced_text,
           {| applied := true; error := None; report := Some tt |})
      | NotHumanized error' =>
          (enhanced_text,
           {| applied := false; error := Some error'; report := None |})
      end
    else (enhanced_text, not_run) in
  (* Step 4 *)
  let '(enhanced_text, hix_bypass') :=
    if Str.eqb mode (lit "aggressive")
       && ProWritingAid.configured (hix_bypass_key env)
    then
      match hix_bypass env enhanced_text with
      | Humanized humanized_text =>
          (humanized_text,
           {| applied := true; error := None; report := Some tt |})
      | NotHumanized error' =>
          (enhanced_text,
           {| applied := false; error := Some error'; report := None |})
      end
    else (enhanced_text, not_run) in
  (enhanced_text,
   {| languagetool := languagetool';
      prowritingaid := prowritingaid';
      ai_text_humanizer_result := ai_text_humanizer';
      hix_bypass_result := hix_bypass' |}).

End WithUnicode.

End Services.
(* ===================================================================== *)
(** * Properties *)
(* ===================================================================== *)

(** ** Arithmetic of [Py.min], [Py.max] and [Py.round] *)

Section PyArith.
Local Open Scope Q_scope.

Lemma py_min_le_l a b : Py.min a b <= a.
Proof. unfold Py.min. destruct (Qlt_le_dec b a); lra. Qed.

Lemma py_min_le_r a b : Py.min a b <= b.
Proof. unfold Py.min. destruct (Qlt_le_dec b a); lra. Qed.

Lemma py_max_ge_l a b : a <= Py.max a b.
Proof. unfold Py.max. destruct (Qlt_le_dec a b); lra. Qed.

Lemma py_max_ge_r a b : b <= Py.max a b.
Proof. unfold Py.max. destruct (Qlt_le_dec a b); lra. Qed.

End PyArith.

Section Rounding.
Local Open Scope Q_scope.

Lemma Qfloor_unique (x : Q) (z : Z) :
  inject_Z z <= x -> x < inject_Z (z + 1) -> Qfloor x = z.
Proof.
  intros H1 H2.
  pose proof (Qfloor_le x) as Hf. pose proof (Qlt_floor x) as Hc.
  assert (Ha : inject_Z z < inject_Z (Qfloor x + 1)) by lra.
  assert (Hb : inject_Z (Qfloor x) < inject_Z (z + 1)) by lra.
  rewrite <- Zlt_Qlt in Ha, Hb. lia.
Qed.

Lemma round_half_even_cases (x : Q) :
  (Py.round_half_even x = Qfloor x /\ x - inject_Z (Qfloor x) <= 1 # 2)
  \/ (Py.round_half_even x = (Qfloor x + 1)%Z
      /\ 1 # 2 <= x - inject_Z (Qfloor x)).
Proof.
  unfold Py.round_half_even. cbv zeta.
  destruct (Qcompare_spec (x - inject_Z (Qfloor x)) (1 # 2)) as [E | L | G].
  - destruct (Z.even (Qfloor x)); [left | right]; split; trivial; lra.
  - left. split; trivial. lra.
  - right. split; trivial. lra.
Qed.

Lemma round_half_even_ge (x : Q) (z : Z) :
  inject_Z z <= x -> (z <= Py.round_half_even x)%Z.
Proof.
  intros H.
  assert (Hz : (z <= Qfloor x)%Z).
  { rewrite <- (Qfloor_Z z). now apply Qfloor_resp_le. }
  destruct (round_half_even_cases x) as [[-> _] | [-> _]]; lia.
Qed.

Lemma round_half_even_le (x : Q) (z : Z) :
  x <= inject_Z z -> (Py.round_half_even x <= z)%Z.
Proof.
  intros H. pose proof (Qfloor_le x) as Hf.
  destruct (round_half_even_cases x) as [[-> _] | [-> Hr]].
  - rewrite Zle_Qle. lra.
  - assert (Hlt : inject_Z (Qfloor x) < inject_Z z) by lra.
    rewrite <- Zlt_Qlt in Hlt. lia.
Qed.

Lemma round_half_even_Z (z : Z) : Py.round_half_even (inject_Z z) = z.
Proof.
  apply Z.le_antisymm.
  - apply round_half_even_le. lra.
  - apply round_half_even_ge. lra.
Qed.

Lemma round_half_even_comp (x y : Q) :
  x == y -> Py.round_half_even x = Py.round_half_even y.
Proof.
  intros E. unfold Py.round_half_even. cbv zeta.
  rewrite (Qfloor_comp _ _ E).
  assert (E' : x - inject_Z (Qfloor y) == y - inject_Z (Qfloor y))
    by (rewrite E; reflexivity).
  now rewrite (Qcompare_comp _ _ E' _ _ (Qeq_refl (1 # 2))).
Qed.

(** Rounding [x] and [c - x] to the nearest integer, ties to even, keeps the
    sum when [c] is an even integer. *)
Lemma round_half_even_complement (x : Q) (c : Z) :
  Z.even c = true ->
  (Py.round_half_even x + Py.round_half_even (inject_Z c - x) = c)%Z.
Proof.
  intros Hc.
  pose proof (Qfloor_le x) as Hf. pose proof (Qlt_floor x) as Hl.
  set (f := Qfloor x) in *.
  rewrite inject_Z_plus in Hl. change (inject_Z 1) with 1 in Hl.
  destruct (Qeq_dec x (inject_Z f)) as [Hint | Hfrac].
  - rewrite (round_half_even_comp x (inject_Z f) Hint).
    rewrite (round_half_even_comp (inject_Z c - x) (inject_Z (c - f))).
    + rewrite !round_half_even_Z. lia.
    + unfold Z.sub. rewrite inject_Z_plus, inject_Z_opp. lra.
  - assert (Hgt : inject_Z f < x).
    { destruct (Qlt_le_dec (inject_Z f) x) as [L | G]; trivial.
      exfalso. apply Hfrac. lra. }
    assert (Hfl : Qfloor (inject_Z c - x) = (c - f - 1)%Z).
    { apply Qfloor_unique.
      - unfold Z.sub. rewrite !inject_Z_plus, !inject_Z_opp.
        change (inject_Z 1) with 1. lra.
      - replace (c - f - 1 + 1)%Z with (c + - f)%Z by lia.
        rewrite inject_Z_plus, inject_Z_opp. lra. }
    assert (Hfi : inject_Z (c - f - 1) == inject_Z c - inject_Z f - 1).
    { unfold Z.sub. rewrite !inject_Z_plus, !inject_Z_opp.
      change (inject_Z 1) with 1. lra. }
    unfold Py.round_half_even. cbv zeta. rewrite Hfl. fold f.
    destruct (Qcompare_spec (x - inject_Z f) (1 # 2)) as [E | L | G];
      destruct (Qcompare_spec (inject_Z c - x - inject_Z (c - f - 1)) (1 # 2))
        as [E' | L' | G']; try lra.
    + replace (c - f - 1)%Z with (c - (f + 1))%Z by lia.
      rewrite Z.even_sub, Hc, Z.even_add. simpl.
      destruct (Z.even f); simpl; lia.
    + lia.
    + lia.
Qed.

Lemma pow10_pos (n : nat) : 0 < Py.pow10 n.
Proof.
  unfold Py.pow10. change 0 with (inject_Z 0). rewrite <- Zlt_Qlt.
  apply Z.pow_pos_nonneg; lia.
Qed.

Lemma round_ge (x : Q) (n : nat) (z : Z) :
  inject_Z z <= x -> inject_Z z <= Py.round x n.
Proof.
  intros H. unfold Py.round. pose proof (pow10_pos n) as Hp.
  apply Qle_shift_div_l; trivial.
  unfold Py.pow10 in *. rewrite <- inject_Z_mult, <- Zle_Qle.
  apply round_half_even_ge. rewrite inject_Z_mult.
  apply Qmult_le_compat_r; lra.
Qed.

Lemma round_le (x : Q) (n : nat) (z : Z) :
  x <= inject_Z z -> Py.round x n <= inject_Z z.
Proof.
  intros H. unfold Py.round. pose proof (pow10_pos n) as Hp.
  apply Qle_shift_div_r; trivial.
  unfold Py.pow10 in *. rewrite <- inject_Z_mult, <- Zle_Qle.
  apply round_half_even_le. rewrite inject_Z_mult.
  apply Qmult_le_compat_r; lra.
Qed.

Lemma round_comp (x y : Q) (n : nat) : x == y -> Py.round x n == Py.round y n.
Proof.
  intros E. unfold Py.round.
  rewrite (round_half_even_comp (x * Py.pow10 n) (y * Py.pow10 n)).
  - reflexivity.
  - now rewrite E.
Qed.

Lemma round_Z (z : Z) (n : nat) : Py.round (inject_Z z) n == inject_Z z.
Proof.
  apply Qle_antisym; [apply round_le | apply round_ge]; lra.
Qed.

(** Rounding the two shares of 100 to one decimal keeps their sum. *)
Lemma round_complement_100 (x : Q) :
  Py.round x 1 + Py.round (100 - x) 1 == 100.
Proof.
  unfold Py.round.
  rewrite (round_half_even_comp ((100 - x) * Py.pow10 1)
             (inject_Z 1000 - x * Py.pow10 1)).
  2:{ change (Py.pow10 1) with 10. change (inject_Z 1000) with 1000. lra. }
  pose proof (round_half_even_complement (x * Py.pow10 1) 1000 eq_refl) as H.
  set (a := Py.round_half_even (x * Py.pow10 1)) in *.
  set (b := Py.round_half_even (inject_Z 1000 - x * Py.pow10 1)) in *.
  assert (Hq : inject_Z a + inject_Z b == 1000).
  { rewrite <- inject_Z_plus, H. reflexivity. }
  change (Py.pow10 1) with 10.
  assert (Hs : inject_Z a / 10 + inject_Z b / 10
               == (inject_Z a + inject_Z b) / 10) by field.
  rewrite Hs, Hq. reflexivity.
Qed.

End Rounding.

(** ** Examples of the tokenizer *)

Section TokenizerExamples.
Local Existing Instance ascii_data.

Example split_sentences_cat :
  TextAnalytics._split_sentences (lit "The cat sat. It was happy.")
  = [lit "The cat sat"; lit "It was happy"].
Proof. vm_compute. reflexivity. Qed.

Example split_words_cat :
  TextAnalytics._split_words (lit "The cat sat. It was happy.")
  = [lit "the"; lit "cat"; lit "sat"; lit "it"; lit "was"; lit "happy"].
Proof. vm_compute. reflexivity. Qed.

Example syllables_examples :
  map TextAnalytics._count_syllables
      [lit "the"; lit "happy"; lit "Table"; lit "rhythm"; lit "queue"]
  = [1; 2; 1; 1; 1]%nat.
Proof. vm_compute. reflexivity. Qed.

Example text_stats_cat :
  TextComparison.sentences
    (TextComparison._get_text_stats (lit "The cat sat. It was happy.")) = 2%Z.
Proof. vm_compute. reflexivity. Qed.

End TokenizerExamples.

(** ** The scanning engine *)

Section Scan.

Lemma sound_shorter m s w rest :
  Re.sound m -> m s = Some (w, rest) -> (length rest < length s)%nat.
Proof.
  intros Hm E. destruct (Hm _ _ _ E) as [Hw ->].
  rewrite length_app. destruct w; [congruence | simpl; lia].
Qed.

Lemma scan_fuel_enough m (Hm : Re.sound m) :
  forall fuel1 fuel2 s,
    (length s <= fuel1)%nat -> (length s <= fuel2)%nat ->
    Re.scan_fuel fuel1 m s = Re.scan_fuel fuel2 m s.
Proof.
  induction fuel1 as [| fuel1 IH]; intros fuel2 s H1 H2.
  - destruct s; [| simpl in H1; lia]. destruct fuel2; reflexivity.
  - destruct fuel2 as [| fuel2].
    + destruct s; [reflexivity | simpl in H2; lia].
    + destruct s as [| c r]; [reflexivity |]. simpl.
      destruct (m (c :: r)) as [[w rest] |] eqn:E.
      * pose proof (sound_shorter _ _ _ _ Hm E) as Hlt. simpl in *.
        f_equal. apply IH; lia.
      * f_equal. simpl in *. apply IH; lia.
Qed.

(** The equation of the search. *)
Lemma scan_cons m (Hm : Re.sound m) c r :
  Re.scan m (c :: r)
  = match m (c :: r) with
    | Some (w, rest) => Re.Match w :: Re.scan m rest
    | None => Re.Lit c :: Re.scan m r
    end.
Proof.
  unfold Re.scan. simpl.
  destruct (m (c :: r)) as [[w rest] |] eqn:E.
  - pose proof (sound_shorter _ _ _ _ Hm E) as Hlt. simpl in Hlt.
    f_equal. apply scan_fuel_enough; trivial; lia.
  - reflexivity.
Qed.

Lemma take_drop_while p s : Str.take_while p s ++ Str.drop_while p s = s.
Proof.
  induction s as [| c r IH]; simpl; [reflexivity |].
  destruct (p c); simpl; [now rewrite IH | reflexivity].
Qed.

Lemma sound_run p : Re.sound (Re.run p).
Proof.
  intros s w rest. unfold Re.run.
  destruct (Str.take_while p s) as [| c t] eqn:E; [discriminate |].
  intros [= <- <-]. split; [discriminate |].
  rewrite <- E. symmetry. apply take_drop_while.
Qed.

Lemma sound_one p : Re.sound (Re.one p).
Proof.
  intros [| c r] w rest; simpl; [discriminate |].
  destruct (p c); [| discriminate]. intros [= <- <-]. split; [discriminate | reflexivity].
Qed.

Lemma sound_comma_pair : Re.sound Re.comma_pair.
Proof.
  intros [| c r] w rest; simpl; [discriminate |].
  destruct (N.eqb c Char.comma); [| discriminate].
  destruct (Str.drop_while Char.is_space r) as [| d r'] eqn:E; [discriminate |].
  destruct (N.eqb d Char.comma); [| discriminate].
  intros [= <- <-]. split; [discriminate |].
  simpl. f_equal. rewrite <- app_assoc. simpl. rewrite <- E.
  symmetry. apply take_drop_while.
Qed.

Lemma sound_dash : Re.sound Re.dash.
Proof.
  intros s w rest. unfold Re.dash.
  destruct (Str.drop_while Char.is_space s) as [| d r] eqn:E; [discriminate |].
  destruct (N.eqb d Char.em_dash); [| discriminate].
  intros [= <- <-]. split.
  - destruct (Str.take_while Char.is_space s); discriminate.
  - rewrite <- app_assoc. simpl. rewrite take_drop_while, <- E.
    symmetry. apply take_drop_while.
Qed.

End Scan.

(** ** Readability (text_analytics_service.py) *)

Section Readability.
Context `{UnicodeData}.
Local Open Scope Q_scope.

Lemma py_max_Qmax a b : Py.max a b == Qmax a b.
Proof.
  unfold Py.max. destruct (Qlt_le_dec a b) as [L | G].
  - symmetry. apply Q.max_r. lra.
  - symmetry. apply Q.max_l. lra.
Qed.

Lemma py_min_Qmin a b : Py.min a b == Qmin a b.
Proof.
  unfold Py.min. destruct (Qlt_le_dec b a) as [L | G].
  - symmetry. apply Q.min_r. lra.
  - symmetry. apply Q.min_l. lra.
Qed.

Lemma py_max_comp a b b' : b == b' -> Py.max a b == Py.max a b'.
Proof.
  intros E. unfold Py.max.
  destruct (Qlt_le_dec a b), (Qlt_le_dec a b'); lra.
Qed.

Lemma flesch_ease_refines w s y :
  TextAnalytics.flesch_ease_of w s y
  == ReadabilitySpec.flesch_reading_ease (Qn w) (Qn s) (Qn y).
Proof.
  unfold TextAnalytics.flesch_ease_of, ReadabilitySpec.flesch_reading_ease,
    ReadabilitySpec.clamp.
  rewrite py_max_Qmax. apply Q.max_compat; [reflexivity |].
  apply py_min_Qmin.
Qed.

Lemma flesch_kincaid_refines w s y :
  TextAnalytics.flesch_kincaid_of w s y
  == ReadabilitySpec.flesch_kincaid_grade (Qn w) (Qn s) (Qn y).
Proof. apply py_max_Qmax. Qed.

Lemma ari_refines w s c :
  TextAnalytics.ari_of w s c
  == ReadabilitySpec.automated_readability_index (Qn c) (Qn w) (Qn s).
Proof. apply py_max_Qmax. Qed.

Lemma coleman_liau_refines w s c :
  TextAnalytics.coleman_liau_of w s c
  == ReadabilitySpec.coleman_liau (Qn c) (Qn w) (Qn s).
Proof. apply py_max_Qmax. Qed.

Lemma clamped_round_bounds x :
  0 <= Py.round (Py.max 0 (Py.min 100 x)) 2
  /\ Py.round (Py.max 0 (Py.min 100 x)) 2 <= 100.
Proof.
  split.
  - apply (round_ge _ 2 0). apply py_max_ge_l.
  - apply (round_le _ 2 100). change (inject_Z 100) with 100.
    unfold Py.max.
    destruct (Qlt_le_dec 0 (Py.min 100 x)); [apply py_min_le_l | lra].
Qed.

Lemma floored_round_nonneg x : 0 <= Py.round (Py.max 0 x) 2.
Proof. apply (round_ge _ 2 0). apply py_max_ge_l. Qed.


End Readability.


(** ** Sentence counts of the two services *)

(** C9.  On a text without a closing terminator the comparison service counts
    no sentence where the segmenter of the analyzer yields one; after a
    leading terminator it counts two where the segmenter yields one. *)
Theorem C9_sentence_count_divergence `{UnicodeData} :
  TextComparison.sentences (TextComparison._get_text_stats (lit "Hello world"))
  = 0%Z
  /\ length (TextAnalytics._split_sentences (lit "Hello world")) = 1%nat
  /\ TextComparison.sentences (TextComparison._get_text_stats (lit "...Hi."))
     = 2%Z
  /\ length (TextAnalytics._split_sentences (lit "...Hi.")) = 1%nat.
Proof. repeat split; vm_compute; reflexivity. Qed.

(** ** Mode tables and the achieved-score simulation (routes/humanizer.py) *)

Section AchievedScores.
Local Open Scope Q_scope.

Lemma target_percentages_sum (mode : str) :
  let t := Humanizer.get_target_percentages mode in
  (Humanizer.ai_generated t + Humanizer.human_written t = 100
   /\ 0 <= Humanizer.ai_generated t /\ 0 <= Humanizer.human_written t)%Z.
Proof.
  unfold Humanizer.get_target_percentages, Humanizer.targets. simpl.
  repeat match goal with
         | |- context [Str.eqb ?a ?b] => destruct (Str.eqb a b)
         end; simpl; lia.
Qed.

(** The two shares before the renormalisation already add up to 100, and
    each lies in [0,100]. *)
Lemma simulate_achieved_shares (t : Humanizer.percentages) (v : Q) :
  (Humanizer.ai_generated t + Humanizer.human_written t = 100)%Z ->
  (0 <= Humanizer.ai_generated t)%Z ->
  (0 <= Humanizer.human_written t)%Z ->
  let '(a, h) := Humanizer.simulate_achieved t v in
  0 <= a /\ 0 <= h /\ a + h == 100.
Proof.
  intros Hsum Ha Hh. unfold Humanizer.simulate_achieved.
  assert (Es : inject_Z (Humanizer.ai_generated t)
               + inject_Z (Humanizer.human_written t) == 100).
  { rewrite <- inject_Z_plus, Hsum. reflexivity. }
  assert (Ea : 0 <= inject_Z (Humanizer.ai_generated t)).
  { change 0 with (inject_Z 0). now rewrite <- Zle_Qle. }
  assert (Eh : 0 <= inject_Z (Humanizer.human_written t)).
  { change 0 with (inject_Z 0). now rewrite <- Zle_Qle. }
  set (A := inject_Z (Humanizer.ai_generated t)) in *.
  set (B := inject_Z (Humanizer.human_written t)) in *.
  assert (Ht : Py.max 0 (Py.min 100 (A + v)) + Py.max 0 (Py.min 100 (B - v))
               == 100).
  { unfold Py.max, Py.min.
    destruct (Qlt_le_dec (A + v) 100), (Qlt_le_dec (B - v) 100);
      repeat match goal with
             | |- context [Qlt_le_dec ?a ?b] => destruct (Qlt_le_dec a b)
             end; lra. }
  pose proof (py_max_ge_l 0 (Py.min 100 (A + v))) as Hx.
  pose proof (py_max_ge_l 0 (Py.min 100 (B - v))) as Hy.
  set (x := Py.max 0 (Py.min 100 (A + v))) in *.
  set (y := Py.max 0 (Py.min 100 (B - v))) in *.
  destruct (Qlt_le_dec 0 (x + y)) as [Hpos | Hneg]; [| lra].
  assert (Hx' : x / (x + y) * 100 == x) by (rewrite Ht; field).
  assert (Hy' : y / (x + y) * 100 == y) by (rewrite Ht; field).
  rewrite Hx', Hy'. repeat split; lra.
Qed.

Lemma simulate_achieved_rounded (mode : str) (v : Q) :
  let '(a, h) :=
    Humanizer.simulate_achieved (Humanizer.get_target_percentages mode) v in
  a + h == 100 /\ Py.round a 1 + Py.round h 1 == 100.
Proof.
  destruct (target_percentages_sum mode) as (Hs & Ha & Hh).
  pose proof (simulate_achieved_shares _ v Hs Ha Hh) as H.
  destruct (Humanizer.simulate_achieved _ v) as [a h].
  destruct H as (_ & _ & E). split; [exact E |].
  rewrite (round_comp h (100 - a)) by lra.
  apply round_complement_100.
Qed.


End AchievedScores.


(** ** Validation of the mode *)

Section ModeValidation.
Context `{UnicodeData}.

Lemma unknown_mode_tables (mode : str) :
  existsb (Str.eqb mode) Routes.valid_modes = false ->
  Humanizer.get_target_percentages mode
  = {| Humanizer.ai_generated := 50; Humanizer.human_written := 50 |}
  /\ Humanizer.calculate_humanization_intensity mode = 0.7%Q.
Proof.
  unfold Routes.valid_modes. simpl. intros Hm.
  apply orb_false_elim in Hm as [H1 Hm].
  apply orb_false_elim in Hm as [H2 Hm].
  apply orb_false_elim in Hm as [H3 _].
  unfold Str.eqb in *.
  apply bool_decide_eq_false in H1, H2, H3.
  unfold Humanizer.get_target_percentages,
    Humanizer.calculate_humanization_intensity,
    Humanizer.targets, Humanizer.intensities. simpl. unfold Str.eqb.
  rewrite !bool_decide_eq_false_2 by congruence. split; reflexivity.
Qed.

Lemma process_batch_accepts (texts : list str) (mode : str)
      (batch_id : option str) (clk : Batch.clock) (schedule : list nat)
      (draws : nat -> Humanizer.draw) (tbl : gmap str Batch.job) :
  texts <> [] -> (length texts <= 50)%nat ->
  exists r tbl',
    Batch.process_batch texts mode batch_id clk schedule draws tbl
    = (Batch.Accepted r, tbl').
Proof.
  intros Hne Hlen. unfold Batch.process_batch.
  destruct texts as [| t ts]; [congruence |].
  destruct (Nat.ltb_spec 50 (length (t :: ts))) as [Hgt | _]; [lia |].
  destruct (Batch._process_texts_parallel _ _ _ _ _ _) as [results tbl'].
  eauto.
Qed.

(** C8 as the code has it.  Only the batch endpoint validates the mode: a
    mode that, in lower case, is not fast, balanced or aggressive is
    answered with status 400 and the job table is left as it was.  The
    humanize endpoint and the batch service take any mode: an unknown one
    gets the target percentages 50/50 and the intensity 0.7 of the
    balanced mode, the endpoint answers with status 200 and echoes the
    mode, and the service accepts the batch. *)
Theorem C8_mode_validation :
  (forall (data : Routes.batch_request) (texts : list str)
          (clk : Batch.clock) (schedule : list nat)
          (draws : nat -> Humanizer.draw) (tbl : gmap str Batch.job),
      Routes.req_texts data = Some texts -> texts <> [] ->
      existsb
        (Str.eqb
           (Str.lower (default (lit "balanced") (Routes.req_batch_mode data))))
        Routes.valid_modes = false ->
      Routes.process_batch (Some data) clk schedule draws tbl
      = (Routes.Fail 400
           "Invalid mode. Must be 'fast', 'balanced', or 'aggressive'", tbl))
  /\ (forall mode : str,
         existsb (Str.eqb mode) Routes.valid_modes = false ->
         Humanizer.get_target_percentages mode
         = {| Humanizer.ai_generated := 50; Humanizer.human_written := 50 |}
         /\ Humanizer.calculate_humanization_intensity mode = 0.7%Q)
  /\ (forall (text mode : str) (d : Humanizer.draw) (humanized : str),
         Str.is_empty (Str.strip text) = false ->
         Humanizer.rewriting d = Humanizer.Rewritten humanized ->
         existsb (Str.eqb (Str.lower mode)) Routes.valid_modes = false ->
         exists r,
           Routes.humanize_text
             (Some {| Routes.req_text := Some text;
                      Routes.req_mode := Some mode |}) d
           = Routes.Ok200 r
           /\ Routes.mode r = Str.lower mode
           /\ Routes.targetAIScore r = 50%Z
           /\ Routes.targetHumanScore r = 50%Z)
  /\ (forall (texts : list str) (mode : str) (batch_id : option str)
             (clk : Batch.clock) (schedule : list nat)
             (draws : nat -> Humanizer.draw) (tbl : gmap str Batch.job),
         texts <> [] -> (length texts <= 50)%nat ->
         exists r tbl',
           Batch.process_batch texts mode batch_id clk schedule draws tbl
           = (Batch.Accepted r, tbl')).
Proof.
  split; [| split; [| split]].
  - intros data texts clk schedule draws tbl Ht Hne Hm.
    unfold Routes.process_batch. rewrite Ht.
    destruct texts as [| t ts]; [congruence |].
    now rewrite Hm.
  - apply unknown_mode_tables.
  - intros text mode d humanized Htext Hd Hm.
    destruct (unknown_mode_tables _ Hm) as [Ht _].
    unfold Routes.humanize_text. simpl. rewrite Htext.
    unfold Humanizer.humanize_text. rewrite Hd, Ht.
    destruct (Humanizer.simulate_achieved _ _) as [a h].
    eexists. split; [reflexivity |]. simpl. auto.
  - intros. now apply process_batch_accepts.
Qed.

End ModeValidation.

Lemma C8_mode_validation_witness :
  let data := {| Routes.req_texts := Some [lit "Hello there."];
                 Routes.req_batch_mode := Some (lit "Turbo");
                 Routes.req_batch_id := None |} in
  let clk := {| Batch.at_naming := 5; Batch.at_start := 5;
                Batch.at_end := 6 |} in
  let draws := fun _ : nat =>
    {| Humanizer.rewriting := Humanizer.Rewritten (lit "Hello there.");
       Humanizer.variation := 0; Humanizer.elapsed_ms := 1 |} in
  Routes.process_batch (H := ascii_data) (Some data) clk [0%nat] draws ∅
  = (Routes.Fail 400
       "Invalid mode. Must be 'fast', 'balanced', or 'aggressive'", ∅).
Proof.
  intros data clk draws.
  apply (proj1 (C8_mode_validation (H := ascii_data))
           data [lit "Hello there."] clk [0%nat] draws ∅).
  - reflexivity.
  - discriminate.
  - vm_compute. reflexivity.
Defined.

(** C8 as the specification states it fails on the humanize endpoint: the
    mode [turbo] is none of the three, yet the request is answered with
    status 200, the mode echoed and the balanced targets. *)
Lemma C8_counterexample :
  let d := {| Humanizer.rewriting := Humanizer.Rewritten (lit "Hello there.");
              Humanizer.variation := 0; Humanizer.elapsed_ms := 1 |} in
  let data := {| Routes.req_text := Some (lit "Hello there.");
                 Routes.req_mode := Some (lit "turbo") |} in
  existsb (Str.eqb (Str.lower (H := ascii_data) (lit "turbo")))
          Routes.valid_modes = false
  /\ exists r,
      Routes.humanize_text (H := ascii_data) (Some data) d = Routes.Ok200 r
      /\ Routes.mode r = lit "turbo"
      /\ Routes.targetAIScore r = 50%Z
      /\ Routes.targetHumanScore r = 50%Z
      /\ Routes.humanizedText r = lit "Hello there.".
Proof.
  intros d data. split; [vm_compute; reflexivity |].
  eexists. split; [vm_compute; reflexivity |].
  repeat split.
Qed.

(** ** The batch service (batch_processing_service.py) *)

Section BatchResults.
Local Open Scope nat_scope.

Variables (texts : list str) (mode : str) (draws : nat -> Humanizer.draw).

Let f := Batch.item_at texts mode draws.

Lemma index_of_single (text : str) (i : nat) (d : Humanizer.draw) :
  Batch.index_of (Batch._process_single_text text mode i d) = i.
Proof.
  unfold Batch._process_single_text.
  destruct (Humanizer.humanize_text text mode d) as [msg | [h t]].
  - reflexivity.
  - destruct (Humanizer.simulate_achieved _ _). reflexivity.
Qed.

Lemma index_of_item_at (i : nat) : Batch.index_of (f i) = i.
Proof. apply index_of_single. Qed.

Lemma original_text_of_single (text : str) (i : nat) (d : Humanizer.draw) :
  Batch.original_text_of (Batch._process_single_text text mode i d) = text.
Proof.
  unfold Batch._process_single_text.
  destruct (Humanizer.humanize_text text mode d) as [msg | [h t]].
  - reflexivity.
  - destruct (Humanizer.simulate_achieved _ _). reflexivity.
Qed.

(** The loop appends the result of each completed future and counts it in
    the record of the batch. *)
Lemma collect_fold (batch_id : str) (schedule : list nat) :
  forall (acc : list Batch.item_result) (tbl : gmap str Batch.job),
    Forall (fun i => i < length texts) schedule ->
    fold_left (Batch.collect texts mode batch_id draws) schedule (acc, tbl)
    = (acc ++ map f schedule,
       fold_left
         (fun t r => alter (Batch.count_item (Batch.success r)) batch_id t)
         (map f schedule) tbl).
Proof.
  induction schedule as [| i rest IH]; intros acc tbl Hall; simpl.
  - now rewrite app_nil_r.
  - inversion Hall as [| ? ? Hi Hrest]; subst.
    destruct (lookup_lt_is_Some_2 texts i Hi) as [text Ht].
    assert (Hf : f i = Batch._process_single_text text mode i (draws i))
      by (unfold f, Batch.item_at; now rewrite Ht).
    rewrite Ht, Hf. rewrite IH by assumption.
    now rewrite <- app_assoc.
Qed.

Lemma insert_by_index_perm (x : Batch.item_result) l :
  Batch.insert_by_index x l ≡ₚ x :: l.
Proof.
  induction l as [| y r IH]; simpl; [reflexivity |].
  destruct (Batch.index_of x <=? Batch.index_of y); [reflexivity |].
  rewrite IH. apply perm_swap.
Qed.

Lemma sort_by_index_perm l : Batch.sort_by_index l ≡ₚ l.
Proof.
  induction l as [| x r IH]; simpl; [reflexivity |].
  rewrite insert_by_index_perm. now rewrite IH.
Qed.

Lemma insert_by_index_sorted (x : Batch.item_result) l :
  Sorted Batch.index_le l -> Sorted Batch.index_le (Batch.insert_by_index x l).
Proof.
  induction l as [| y r IH]; intros Hs; simpl.
  - repeat constructor.
  - destruct (Nat.leb_spec (Batch.index_of x) (Batch.index_of y)) as [Hle | Hgt].
    + constructor; [assumption |]. constructor. exact Hle.
    + inversion Hs as [| ? ? Hr Hhd]; subst.
      constructor; [now apply IH |].
      destruct r as [| z r']; simpl.
      * constructor. unfold Batch.index_le. lia.
      * destruct (Batch.index_of x <=? Batch.index_of z).
        -- constructor. unfold Batch.index_le. lia.
        -- inversion Hhd; subst. now constructor.
Qed.

Lemma sort_by_index_sorted l : Sorted Batch.index_le (Batch.sort_by_index l).
Proof.
  induction l as [| x r IH]; simpl; [constructor |].
  now apply insert_by_index_sorted.
Qed.

Lemma map_seq_sorted (a n : nat) : Sorted Batch.index_le (map f (seq a n)).
Proof.
  revert a. induction n as [| n IH]; intros a; simpl; [constructor |].
  constructor; [apply IH |].
  destruct n; simpl; constructor.
  unfold Batch.index_le. rewrite !index_of_item_at. lia.
Qed.

Instance index_le_trans : Transitive Batch.index_le.
Proof. unfold Batch.index_le. intros x y z. lia. Qed.

(** Sorting the results of any completion order gives the results in the
    order of the input. *)
Lemma sort_schedule (schedule : list nat) :
  schedule ≡ₚ seq 0 (length texts) ->
  Batch.sort_by_index (map f schedule) = map f (seq 0 (length texts)).
Proof.
  intros Hp.
  apply (Sorted_unique_strong Batch.index_le).
  - intros x1 x2 H1 H2 H12 H21.
    rewrite sort_by_index_perm in H1.
    apply list_elem_of_In, in_map_iff in H1 as (i1 & <- & _).
    apply list_elem_of_In, in_map_iff in H2 as (i2 & <- & _).
    unfold Batch.index_le in *. rewrite !index_of_item_at in *.
    f_equal. lia.
  - apply sort_by_index_sorted.
  - apply map_seq_sorted.
  - rewrite sort_by_index_perm. now apply Permutation_map.
Qed.

Lemma schedule_in_range (schedule : list nat) :
  schedule ≡ₚ seq 0 (length texts) ->
  Forall (fun i => i < length texts) schedule.
Proof.
  intros Hp. apply Forall_forall. intros i Hi.
  apply list_elem_of_In in Hi.
  apply (Permutation_in _ Hp), in_seq in Hi. lia.
Qed.

Lemma process_texts_parallel_spec (batch_id : str) (schedule : list nat)
      (tbl : gmap str Batch.job) :
  schedule ≡ₚ seq 0 (length texts) ->
  Batch._process_texts_parallel texts mode batch_id schedule draws tbl
  = (map f (seq 0 (length texts)),
     fold_left
       (fun t r => alter (Batch.count_item (Batch.success r)) batch_id t)
       (map f schedule) tbl).
Proof.
  intros Hp. unfold Batch._process_texts_parallel.
  rewrite collect_fold by now apply schedule_in_range.
  simpl. now rewrite sort_schedule.
Qed.

End BatchResults.

Section BatchCounters.
Local Open Scope nat_scope.

Lemma count_all_fields (rs : list Batch.item_result) :
  forall j : Batch.job,
    Batch.total (Batch.count_all rs j) = Batch.total j
    /\ Batch.completed (Batch.count_all rs j)
       = Batch.completed j + length (List.filter (fun r => Batch.success r) rs)
    /\ Batch.failed (Batch.count_all rs j)
       = Batch.failed j
         + length (List.filter (fun r => negb (Batch.success r)) rs)
    /\ Batch.start_time (Batch.count_all rs j) = Batch.start_time j
    /\ Batch.status (Batch.count_all rs j) = Batch.status j
    /\ Batch.end_time (Batch.count_all rs j) = Batch.end_time j.
Proof.
  induction rs as [| r rs IH]; intros j; simpl.
  - repeat split; lia.
  - unfold Batch.count_all in *. simpl.
    destruct (IH (Batch.count_item (Batch.success r) j))
      as (H1 & H2 & H3 & H4 & H5 & H6).
    rewrite H1, H2, H3, H4, H5, H6.
    destruct (Batch.success r); simpl; repeat split; lia.
Qed.

Lemma lookup_fold_alter (batch_id : str) (rs : list Batch.item_result) :
  forall tbl : gmap str Batch.job,
    fold_left
      (fun t r => alter (Batch.count_item (Batch.success r)) batch_id t)
      rs tbl !! batch_id
    = Batch.count_all rs <$> tbl !! batch_id.
Proof.
  induction rs as [| r rs IH]; intros tbl; simpl.
  - now destruct (tbl !! batch_id).
  - rewrite IH, lookup_alter_eq. now destruct (tbl !! batch_id).
Qed.

Lemma filter_length_split {A} (p : A -> bool) (l : list A) :
  length (List.filter (fun x => p x) l) + length (List.filter (fun x => negb (p x)) l)
  = length l.
Proof.
  induction l as [| x l IH]; [reflexivity |].
  simpl. destruct (p x); simpl; lia.
Qed.

End BatchCounters.

Section BatchJobs.
Local Open Scope nat_scope.

Lemma filter_perm_length {A} (p : A -> bool) (l l' : list A) :
  l ≡ₚ l' -> length (List.filter p l) = length (List.filter p l').
Proof.
  induction 1 as [| x l l' _ IH | x y l | l l' l'' _ IH1 _ IH2]; simpl.
  - reflexivity.
  - destruct (p x); simpl; lia.
  - destruct (p x), (p y); reflexivity.
  - lia.
Qed.

(** What [process_batch] returns and leaves in the table for a list that
    it accepts. *)
Lemma process_batch_accepted
      (texts : list str) (mode : str) (batch_id : option str)
      (clk : Batch.clock) (schedule : list nat)
      (draws : nat -> Humanizer.draw) (tbl : gmap str Batch.job) :
  1 <= length texts <= 50 ->
  schedule ≡ₚ seq 0 (length texts) ->
  exists (r : Batch.batch_result) (tbl' : gmap str Batch.job) (j : Batch.job),
    Batch.process_batch texts mode batch_id clk schedule draws tbl
    = (Batch.Accepted r, tbl')
    /\ Batch.results r
       = map (Batch.item_at texts mode draws) (seq 0 (length texts))
    /\ Batch.successful r
       = length (List.filter (fun r => Batch.success r) (Batch.results r))
    /\ Batch.failed_count r
       = length (List.filter (fun r => negb (Batch.success r))
                             (Batch.results r))
    /\ tbl' !! Batch.batch_id r = Some j
    /\ Batch.total j = length texts
    /\ Batch.completed j = Batch.successful r
    /\ Batch.failed j = Batch.failed_count r
    /\ Batch.status j = Batch.Completed.
Proof.
  intros [Hlo Hhi] Hp. unfold Batch.process_batch.
  destruct texts as [| t ts] eqn:Et; [simpl in Hlo; lia |]. rewrite <- Et in *.
  destruct (Nat.ltb_spec 50 (length texts)) as [Hgt | _]; [lia |].
  set (id := match batch_id with
             | Some b => if Str.is_empty b
                         then Batch.generated_id (Batch.at_naming clk) else b
             | None => Batch.generated_id (Batch.at_naming clk)
             end).
  rewrite (process_texts_parallel_spec texts mode draws id schedule _ Hp).
  set (rs := map (Batch.item_at texts mode draws) schedule).
  set (init := {| Batch.total := length texts; Batch.completed := 0;
                  Batch.failed := 0; Batch.start_time := Batch.at_start clk;
                  Batch.status := Batch.Processing; Batch.end_time := None;
                  Batch.error := None |}).
  eexists _, _, (Batch.finish (Batch.at_end clk) (Batch.count_all rs init)).
  split; [reflexivity |]. cbn [Batch.results Batch.successful
    Batch.failed_count Batch.batch_id].
  destruct (count_all_fields rs init) as (H1 & H2 & H3 & _).
  assert (Hperm : rs ≡ₚ map (Batch.item_at texts mode draws)
                            (seq 0 (length texts)))
    by (subst rs; now apply Permutation_map).
  repeat split.
  - rewrite lookup_alter_eq, lookup_fold_alter, lookup_insert_eq. reflexivity.
  - exact H1.
  - simpl. rewrite H2. simpl. now apply filter_perm_length.
  - simpl. rewrite H3. simpl. now apply filter_perm_length.
Qed.

(** C6.  [process_batch] turns down an empty list and a list of more than
    50 texts without touching the job table; a list of n texts, 1 to 50,
    yields n results whose indices are 0 .. n-1 in this order, the result
    at position i being that of the i-th text, whatever the order in which
    the workers completed. *)
Theorem C6_batch_size_and_order
        (texts : list str) (mode : str) (batch_id : option str)
        (clk : Batch.clock) (schedule : list nat)
        (draws : nat -> Humanizer.draw) (tbl : gmap str Batch.job) :
  (texts = [] ->
   Batch.process_batch texts mode batch_id clk schedule draws tbl
   = (Batch.Rejected "No texts provided for batch processing", tbl))
  /\ (50 < length texts ->
      Batch.process_batch texts mode batch_id clk schedule draws tbl
      = (Batch.Rejected "Batch size too large. Maximum 50 texts allowed.",
         tbl))
  /\ (1 <= length texts <= 50 ->
      schedule ≡ₚ seq 0 (length texts) ->
      exists (r : Batch.batch_result) (tbl' : gmap str Batch.job),
        Batch.process_batch texts mode batch_id clk schedule draws tbl
        = (Batch.Accepted r, tbl')
        /\ length (Batch.results r) = length texts
        /\ map Batch.index_of (Batch.results r) = seq 0 (length texts)
        /\ map Batch.original_text_of (Batch.results r) = texts
        /\ forall (i : nat) (text : str),
             texts !! i = Some text ->
             Batch.results r !! i
             = Some (Batch._process_single_text text mode i (draws i))).
Proof.
  split; [| split].
  - intros ->. reflexivity.
  - intros Hgt. unfold Batch.process_batch.
    destruct texts as [| t ts]; [simpl in Hgt; lia |].
    destruct (Nat.ltb_spec 50 (length (t :: ts))); [reflexivity | lia].
  - intros Hn Hp.
    destruct (process_batch_accepted texts mode batch_id clk schedule draws
                tbl Hn Hp) as (r & tbl' & j & E & Hr & _).
    exists r, tbl'. split; [exact E |]. rewrite Hr.
    split; [now rewrite length_map, length_seq |].
    split; [| split].
    + rewrite map_map. erewrite map_ext; [apply map_id |].
      intros i. apply index_of_single.
    + rewrite map_map. apply list_eq. intros i.
      rewrite list_lookup_fmap.
      destruct (decide (i < length texts)) as [Hi | Hi].
      * rewrite lookup_seq_lt by assumption. simpl.
        destruct (lookup_lt_is_Some_2 texts i Hi) as [text Ht].
        unfold Batch.item_at. rewrite Ht. simpl.
        now rewrite original_text_of_single.
      * rewrite lookup_seq_ge by lia. simpl. symmetry.
        apply lookup_ge_None. lia.
    + intros i text Ht.
      assert (Hi : i < length texts) by (apply lookup_lt_is_Some; eauto).
      rewrite list_lookup_fmap, lookup_seq_lt by assumption. simpl.
      unfold Batch.item_at. now rewrite Ht.
Qed.

End BatchJobs.

(** Three texts whose workers complete in the order 2, 0, 1, the second one
    failing. *)
Lemma C6_batch_size_and_order_witness :
  let texts := [lit "One."; lit "Two."; lit "Three."] in
  let clk := {| Batch.at_naming := 5; Batch.at_start := 5;
                Batch.at_end := 6 |} in
  let draws := fun i : nat =>
    {| Humanizer.rewriting :=
         if (i =? 1)%nat then Humanizer.Raised (lit "timeout")
         else Humanizer.Rewritten (lit "Done.");
       Humanizer.variation := 0; Humanizer.elapsed_ms := 1 |} in
  exists (r : Batch.batch_result) (tbl' : gmap str Batch.job),
    Batch.process_batch texts (lit "fast") None clk [2; 0; 1]%nat draws ∅
    = (Batch.Accepted r, tbl')
    /\ map Batch.index_of (Batch.results r) = [0; 1; 2]%nat
    /\ map Batch.success (Batch.results r) = [true; false; true].
Proof.
  intros texts clk draws.
  destruct (proj2 (proj2 (C6_batch_size_and_order texts (lit "fast") None clk
                            [2; 0; 1]%nat draws ∅)))
    as (r & tbl' & E & _ & Hidx & _ & Hat).
  - simpl. lia.
  - apply (Permutation_cons_append [0; 1]%nat 2%nat).
  - exists r, tbl'. split; [exact E |]. split; [exact Hidx |].
    apply list_eq. intros i.
    rewrite list_lookup_fmap.
    destruct i as [| [| [| i]]].
    + rewrite (Hat 0%nat (lit "One.") eq_refl). reflexivity.
    + rewrite (Hat 1%nat (lit "Two.") eq_refl). reflexivity.
    + rewrite (Hat 2%nat (lit "Three.") eq_refl). reflexivity.
    + assert (Hlen : length (Batch.results r) = 3%nat)
        by (rewrite <- (length_map Batch.index_of), Hidx; reflexivity).
      rewrite (proj2 (lookup_ge_None (Batch.results r) (S (S (S i)))))
        by (rewrite Hlen; lia).
      reflexivity.
Defined.

Section BatchProgress.
Local Open Scope Q_scope.

Lemma Qn_le (a b : nat) : (a <= b)%nat -> Qn a <= Qn b.
Proof. intros Hab. unfold Qn. rewrite <- Zle_Qle. lia. Qed.

Lemma Qn_pos (a : nat) : (0 < a)%nat -> 0 < Qn a.
Proof.
  intros Ha. unfold Qn. change 0 with (inject_Z 0). rewrite <- Zlt_Qlt. lia.
Qed.

(** With at least one of at most 50 items missing, the share of the
    completed items is at most 98 percent. *)
Lemma progress_below_100 (c n : nat) :
  (1 <= n <= 50)%nat -> (c < n)%nat ->
  Py.round (Qn c / Qn n * 100) 2 < 100.
Proof.
  intros Hn Hc.
  apply Qle_lt_trans with (y := inject_Z 98); [| reflexivity].
  apply round_le. change (inject_Z 98) with 98.
  pose proof (Qn_pos n ltac:(lia)) as Hpos.
  assert (H100 : Qn c * 100 <= 98 * Qn n).
  { unfold Qn. change 100 with (inject_Z 100). change 98 with (inject_Z 98).
    rewrite <- !inject_Z_mult, <- Zle_Qle. lia. }
  assert (Hdiv : Qn c / Qn n * 100 == Qn c * 100 / Qn n) by (field; lra).
  rewrite Hdiv. apply Qle_shift_div_r; assumption.
Qed.

(** C10.  When [process_batch] has returned, the record of the job is
    marked completed, its counter [completed] is the number of items that
    succeeded and [failed] the number of those that did not; the progress
    that [get_batch_status] reports is completed/total*100 rounded to two
    decimals, and it stays below 100 as soon as one item failed. *)
Theorem C10_progress_counts_successes
        (texts : list str) (mode : str) (batch_id : option str)
        (clk : Batch.clock) (schedule : list nat)
        (draws : nat -> Humanizer.draw) (tbl : gmap str Batch.job)
        (now : Q) :
  (1 <= length texts <= 50)%nat ->
  schedule ≡ₚ seq 0 (length texts) ->
  exists (r : Batch.batch_result) (tbl' : gmap str Batch.job)
         (st : Batch.batch_info),
    Batch.process_batch texts mode batch_id clk schedule draws tbl
    = (Batch.Accepted r, tbl')
    /\ Batch.get_batch_status (Batch.batch_id r) now tbl' = Some st
    /\ Batch.status (Batch.info st) = Batch.Completed
    /\ Batch.total (Batch.info st) = length texts
    /\ Batch.completed (Batch.info st)
       = length (List.filter (fun x => Batch.success x) (Batch.results r))
    /\ Batch.failed (Batch.info st)
       = length (List.filter (fun x => negb (Batch.success x))
                             (Batch.results r))
    /\ Batch.progress_percentage st
       == Py.round (Qn (Batch.completed (Batch.info st))
                    / Qn (Batch.total (Batch.info st)) * 100) 2
    /\ ((1 <= Batch.failed (Batch.info st))%nat ->
        Batch.progress_percentage st < 100).
Proof.
  intros Hn Hp.
  destruct (process_batch_accepted texts mode batch_id clk schedule draws
              tbl Hn Hp)
    as (r & tbl' & j & E & Hr & Hs & Hf & Hj & Ht & Hc & Hfl & Hst).
  exists r, tbl'. unfold Batch.get_batch_status. rewrite Hj.
  eexists. split; [exact E |]. split; [reflexivity |].
  cbn [Batch.info Batch.progress_percentage].
  assert (Hlen : length (Batch.results r) = length texts)
    by (rewrite Hr, length_map, length_seq; reflexivity).
  pose proof (filter_length_split Batch.success (Batch.results r)) as Hsplit.
  destruct (Nat.ltb_spec 0 (Batch.total j)) as [Hpos | Hz]; [| lia].
  split; [exact Hst |]. split; [exact Ht |].
  split; [now rewrite Hc, Hs |]. split; [now rewrite Hfl, Hf |].
  split; [reflexivity |].
  intros Hfail. apply progress_below_100; lia.
Qed.

End BatchProgress.

(** The batch of three texts above: two items succeed, one fails, the job is
    completed and its progress is 66.67. *)
Lemma C10_progress_counts_successes_witness :
  let texts := [lit "One."; lit "Two."; lit "Three."] in
  let clk := {| Batch.at_naming := 5; Batch.at_start := 5;
                Batch.at_end := 6 |} in
  let draws := fun i : nat =>
    {| Humanizer.rewriting :=
         if (i =? 1)%nat then Humanizer.Raised (lit "timeout")
         else Humanizer.Rewritten (lit "Done.");
       Humanizer.variation := 0; Humanizer.elapsed_ms := 1 |} in
  exists (r : Batch.batch_result) (tbl' : gmap str Batch.job)
         (st : Batch.batch_info),
    Batch.process_batch texts (lit "fast") (Some (lit "job-1")) clk
                        [2; 0; 1]%nat draws ∅
    = (Batch.Accepted r, tbl')
    /\ Batch.get_batch_status (lit "job-1") 7 tbl' = Some st
    /\ Batch.status (Batch.info st) = Batch.Completed
    /\ Batch.completed (Batch.info st) = 2%nat
    /\ Batch.failed (Batch.info st) = 1%nat
    /\ (Batch.progress_percentage st == 66.67)%Q
    /\ (Batch.progress_percentage st < 100)%Q.
Proof.
  intros texts clk draws.
  destruct (C10_progress_counts_successes texts (lit "fast")
              (Some (lit "job-1")) clk [2; 0; 1]%nat draws ∅ 7)
    as (r & tbl' & st & E & Hst & Hs & Ht & Hc & Hf & Hpr & Hlt).
  - simpl. lia.
  - apply (Permutation_cons_append [0; 1]%nat 2%nat).
  - exists r, tbl', st.
    assert (E' : (Batch.Accepted r, tbl')
                 = Batch.process_batch texts (lit "fast") (Some (lit "job-1"))
                     clk [2; 0; 1]%nat draws ∅) by (symmetry; exact E).
    vm_compute in E'. injection E' as -> ->.
    split; [vm_compute; reflexivity |].
    assert (Hst' : Some st = Batch.get_batch_status (lit "job-1") 7
                     (snd (Batch.process_batch texts (lit "fast")
                             (Some (lit "job-1")) clk [2; 0; 1]%nat draws ∅))).
    { rewrite E. symmetry. exact Hst. }
    vm_compute in Hst'. injection Hst' as ->.
    split; [reflexivity |]. split; [reflexivity |]. split; [reflexivity |].
    split; [reflexivity |]. split; reflexivity.
Defined.

Section BatchCleanup.
Local Open Scope Q_scope.

(** A record survives the sweep exactly when its age does not exceed the
    threshold. *)
Lemma cleanup_lookup (max_age_hours now : Q) (tbl : gmap str Batch.job)
      (id : str) (j : Batch.job) :
  Batch.cleanup_old_batches max_age_hours now tbl !! id = Some j
  <-> tbl !! id = Some j
      /\ now - Batch.start_time j <= max_age_hours * 3600.
Proof.
  unfold Batch.cleanup_old_batches.
  rewrite lookup_foldr_delete_Some, list_elem_of_In, in_flat_map.
  split.
  - intros [Hnot Hj]. split; [exact Hj |].
    destruct (Qlt_le_dec (max_age_hours * 3600) (now - Batch.start_time j))
      as [Hold | Hyoung]; [| exact Hyoung].
    exfalso. apply Hnot. exists (id, j). split.
    + apply list_elem_of_In, elem_of_map_to_list, Hj.
    + simpl.
      destruct (Qlt_le_dec (max_age_hours * 3600)
                           (now - Batch.start_time j)); [now left | lra].
  - intros [Hj Hyoung]. split; [| exact Hj].
    intros ([id' j'] & Hin & Hid).
    apply list_elem_of_In, elem_of_map_to_list in Hin. simpl in Hid.
    destruct (Qlt_le_dec (max_age_hours * 3600)
                         (now - Batch.start_time j')) as [Hold | _];
      [| destruct Hid].
    destruct Hid as [-> | []].
    rewrite Hj in Hin. injection Hin as <-. lra.
Qed.

(** Every finite table has a threshold that spares all its records. *)
Lemma ages_bounded (now : Q) (l : list (str * Batch.job)) :
  exists bound : Q,
    Forall (fun kv => now - Batch.start_time (snd kv) <= bound * 3600) l.
Proof.
  induction l as [| [id j] l [bound IH]].
  - exists 0. constructor.
  - set (age := (now - Batch.start_time j) / 3600).
    destruct (Qlt_le_dec bound age) as [Hlt | Hge].
    + exists age. constructor.
      * simpl. unfold age. field_simplify. lra.
      * eapply Forall_impl; [exact IH |]. simpl. intros kv Hkv. lra.
    + exists bound. constructor; [| exact IH].
      simpl. assert (Hage : now - Batch.start_time j == age * 3600)
        by (unfold age; field).
      lra.
Qed.

(** C7 as the code has it.  A sweep with threshold 0 keeps exactly the
    records whose start time is not earlier than the reading of the clock,
    so it empties a table all of whose records started earlier; and every
    table has a threshold from which on the sweep removes nothing.  The
    age of a record is the reading of the clock minus its start time. *)
Theorem C7_cleanup_thresholds (now : Q) (tbl : gmap str Batch.job) :
  (forall (id : str) (j : Batch.job),
      Batch.cleanup_old_batches 0 now tbl !! id = Some j
      <-> tbl !! id = Some j /\ now <= Batch.start_time j)
  /\ ((forall (id : str) (j : Batch.job),
          tbl !! id = Some j -> Batch.start_time j < now) ->
      Batch.cleanup_old_batches 0 now tbl = ∅)
  /\ (exists bound : Q,
         forall max_age_hours : Q,
           bound <= max_age_hours ->
           Batch.cleanup_old_batches max_age_hours now tbl = tbl).
Proof.
  split; [| split].
  - intros id j. rewrite cleanup_lookup.
    split; intros [Hj Hage]; (split; [exact Hj | lra]).
  - intros Hold. apply map_empty. intros id.
    destruct (Batch.cleanup_old_batches 0 now tbl !! id) as [j |] eqn:E;
      [| reflexivity].
    apply cleanup_lookup in E as [Hj Hage].
    specialize (Hold id j Hj). lra.
  - destruct (ages_bounded now (map_to_list tbl)) as [bound Hb].
    exists bound. intros h Hh. apply map_eq. intros id.
    destruct (tbl !! id) as [j |] eqn:Hj.
    + apply cleanup_lookup. split; [exact Hj |].
      rewrite Forall_forall in Hb.
      specialize (Hb (id, j)). simpl in Hb.
      assert (Hin : (id, j) ∈ map_to_list tbl)
        by now apply elem_of_map_to_list.
      specialize (Hb Hin). nra.
    + destruct (Batch.cleanup_old_batches h now tbl !! id) as [j |] eqn:E;
        [| reflexivity].
      apply cleanup_lookup in E as [Hj' _]. congruence.
Qed.

End BatchCleanup.

(** A job started at 99, swept at 100. *)
Lemma C7_cleanup_thresholds_witness :
  Batch.cleanup_old_batches 0 100 {[ lit "job-1" := Batch.job_started_at 99 ]} = ∅.
Proof.
  apply (proj1 (proj2 (C7_cleanup_thresholds 100
                         {[ lit "job-1" := Batch.job_started_at 99 ]}))).
  intros id j Hj. apply lookup_singleton_Some in Hj as [_ <-].
  reflexivity.
Defined.

(** C7 as the specification states it fails for a record whose start time
    is the reading of the clock at the sweep: its age is 0, which is not
    greater than the threshold 0, and the record stays. *)
Lemma C7_counterexample :
  let tbl : gmap str Batch.job :=
    {[ lit "job-1" := Batch.job_started_at 100 ]} in
  tbl !! lit "job-1" = Some (Batch.job_started_at 100)
  /\ Batch.cleanup_old_batches 0 100 tbl !! lit "job-1"
     = Some (Batch.job_started_at 100).
Proof. split; vm_compute; reflexivity. Qed.

(** ** Substitution: what [re.sub] keeps and what it establishes *)

Section Windows.

Lemma pairs_ok_cons R x s :
  Window.pairs_ok R (x :: s) = Window.hd_rel R x s && Window.pairs_ok R s.
Proof. destruct s; reflexivity. Qed.

Lemma pairs_ok_app R l1 l2 :
  Window.pairs_ok R (l1 ++ l2) = true ->
  Window.pairs_ok R l1 = true /\ Window.pairs_ok R l2 = true.
Proof.
  induction l1 as [| x l1 IH]; intros H; [split; [reflexivity | exact H] |].
  change ((x :: l1) ++ l2) with (x :: (l1 ++ l2)) in H.
  rewrite pairs_ok_cons in H. apply andb_true_iff in H as [Hh Ht].
  destruct (IH Ht) as [H1 H2]. split; [| exact H2].
  rewrite pairs_ok_cons, H1, andb_true_r.
  destruct l1; [reflexivity | exact Hh].
Qed.

Lemma triples_ok_app R l1 l2 :
  Window.triples_ok R (l1 ++ l2) = true ->
  Window.triples_ok R l1 = true /\ Window.triples_ok R l2 = true.
Proof.
  induction l1 as [| x l1 IH]; intros H; [split; [reflexivity | exact H] |].
  assert (Ht : Window.triples_ok R (l1 ++ l2) = true).
  { simpl in H. destruct (l1 ++ l2) as [| y [| z t]]; try reflexivity.
    now apply andb_true_iff in H as [_ H]. }
  destruct (IH Ht) as [H1 H2]. split; [| exact H2].
  destruct l1 as [| y [| z t]]; try reflexivity.
  simpl in H. apply andb_true_iff in H as [Hh _].
  change (Window.triples_ok R (x :: y :: z :: t))
    with (R x y z && Window.triples_ok R (y :: z :: t)).
  now rewrite Hh, H1.
Qed.

Lemma triples_ok_cons R a b c l :
  Window.triples_ok R (a :: b :: c :: l)
  = R a b c && Window.triples_ok R (b :: c :: l).
Proof. reflexivity. Qed.

Lemma pairs_ok_lookup R (s : str) (i : nat) (x y : N) :
  Window.pairs_ok R s = true ->
  s !! i = Some x -> s !! S i = Some y -> R x y = true.
Proof.
  revert i. induction s as [| a s IH]; intros i H Hx Hy; [discriminate |].
  rewrite pairs_ok_cons in H. apply andb_true_iff in H as [Hh Ht].
  destruct i as [| i].
  - simpl in Hx, Hy. injection Hx as ->.
    destruct s; [discriminate |]. simpl in Hy. injection Hy as ->. exact Hh.
  - simpl in Hx, Hy. now apply (IH i).
Qed.

Lemma triples_ok_lookup R (s : str) (i : nat) (x y z : N) :
  Window.triples_ok R s = true ->
  s !! i = Some x -> s !! S i = Some y -> s !! S (S i) = Some z ->
  R x y z = true.
Proof.
  revert i. induction s as [| a s IH]; intros i H Hx Hy Hz; [discriminate |].
  destruct i as [| i].
  - destruct s as [| b [| c t]]; try discriminate.
    simpl in Hx, Hy, Hz. injection Hx as ->. injection Hy as ->.
    injection Hz as ->. simpl in H. now apply andb_true_iff in H as [H _].
  - simpl in Hx, Hy, Hz. apply (IH i); trivial.
    destruct s as [| b [| c t]]; try reflexivity.
    simpl in H. now apply andb_true_iff in H as [_ H].
Qed.

Lemma forallb_lookup (Q : N -> bool) (s : str) (i : nat) (c : N) :
  forallb Q s = true -> s !! i = Some c -> Q c = true.
Proof.
  intros H Hc. rewrite forallb_forall in H. apply H.
  apply list_elem_of_In. eapply list_elem_of_lookup_2. exact Hc.
Qed.

End Windows.

Section Substitution.
Variables (m : Re.matcher) (repl : str).
Hypothesis Hm : Re.sound m.

Lemma sub_nil : Re.sub m repl [] = [].
Proof. reflexivity. Qed.

Lemma sub_cons c r :
  Re.sub m repl (c :: r)
  = match m (c :: r) with
    | Some (_, rest) => repl ++ Re.sub m repl rest
    | None => c :: Re.sub m repl r
    end.
Proof using Hm.
  unfold Re.sub. rewrite (scan_cons m Hm).
  destruct (m (c :: r)) as [[w rest] |]; reflexivity.
Qed.

(** Induction along the search. *)
Lemma sub_ind (P : str -> Prop) :
  P [] ->
  (forall c r w rest, m (c :: r) = Some (w, rest) -> P rest -> P (c :: r)) ->
  (forall c r, m (c :: r) = None -> P r -> P (c :: r)) ->
  forall s, P s.
Proof using Hm.
  intros Hnil Hmatch Hlit s.
  assert (H : forall n s, (length s <= n)%nat -> P s).
  { clear s. induction n as [| n IH]; intros s Hn.
    - destruct s; [exact Hnil | simpl in Hn; lia].
    - destruct s as [| c r]; [exact Hnil |].
      destruct (m (c :: r)) as [[w rest] |] eqn:E.
      + apply (Hmatch c r w rest E). apply IH.
        pose proof (sound_shorter _ _ _ _ Hm E). simpl in *. lia.
      + apply (Hlit c r E). apply IH. simpl in Hn. lia. }
  apply (H (length s)). lia.
Qed.

(** The rest after a match is a suffix of the text. *)
Lemma match_suffix c r w rest :
  m (c :: r) = Some (w, rest) -> c :: r = w ++ rest.
Proof using Hm. intros E. now destruct (Hm _ _ _ E). Qed.

(** Pairs of neighbours: when every pair with a character of the
    replacement is fine, the substitution keeps a text fine. *)
Lemma sub_preserves_pairs (R : N -> N -> bool) :
  repl <> [] ->
  (forall x y, In x repl \/ In y repl -> R x y = true) ->
  forall s,
    Window.pairs_ok R s = true ->
    Window.pairs_ok R (Re.sub m repl s) = true
    /\ forall x, Window.hd_rel R x s = true ->
                 Window.hd_rel R x (Re.sub m repl s) = true.
Proof using Hm.
  intros Hne Hrepl.
  assert (Happ : forall l1 l2,
             (forall x, In x l1 -> In x repl) ->
             Window.pairs_ok R l2 = true ->
             Window.pairs_ok R (l1 ++ l2) = true).
  { induction l1 as [| a l1 IH]; intros l2 Hin H2; [exact H2 |].
    change ((a :: l1) ++ l2) with (a :: (l1 ++ l2)).
    rewrite pairs_ok_cons, IH; [| intros; apply Hin; now right | exact H2].
    rewrite andb_true_r.
    destruct (l1 ++ l2); [reflexivity |]. simpl.
    apply Hrepl. left. apply Hin. now left. }
  apply (sub_ind (fun s =>
    Window.pairs_ok R s = true ->
    Window.pairs_ok R (Re.sub m repl s) = true
    /\ forall x, Window.hd_rel R x s = true ->
                 Window.hd_rel R x (Re.sub m repl s) = true)).
  - intros _. split; [reflexivity | trivial].
  - intros c r w rest E IH Hs. rewrite sub_cons, E.
    rewrite (match_suffix _ _ _ _ E) in Hs.
    apply pairs_ok_app in Hs as [_ Hrest].
    destruct (IH Hrest) as [IH1 _]. split.
    + apply Happ; trivial.
    + intros x _. destruct repl as [| h t]; [congruence |]. simpl.
      apply Hrepl. right. now left.
  - intros c r E IH Hs. rewrite sub_cons, E.
    rewrite pairs_ok_cons in Hs. apply andb_true_iff in Hs as [Hh Ht].
    destruct (IH Ht) as [IH1 IH2]. split.
    + rewrite pairs_ok_cons, IH1, (IH2 c Hh). reflexivity.
    + trivial.
Qed.

(** Characters: those of the result are characters that the pattern
    passed over, or characters of the replacement. *)
Lemma sub_forall (Q L : N -> bool) :
  (forall c r, m (c :: r) = None -> L c = true) ->
  forallb Q repl = true ->
  forall s,
    forallb (fun c => implb (L c) (Q c)) s = true ->
    forallb Q (Re.sub m repl s) = true.
Proof using Hm.
  intros HL Hrepl.
  apply (sub_ind (fun s =>
    forallb (fun c => implb (L c) (Q c)) s = true ->
    forallb Q (Re.sub m repl s) = true)).
  - reflexivity.
  - intros c r w rest E IH Hs. rewrite sub_cons, E.
    rewrite (match_suffix _ _ _ _ E), forallb_app in Hs.
    apply andb_true_iff in Hs as [_ Hrest].
    now rewrite forallb_app, Hrepl, IH.
  - intros c r E IH Hs. rewrite sub_cons, E. simpl in *.
    apply andb_true_iff in Hs as [Hc Hr].
    rewrite (HL c r E) in Hc. simpl in Hc. now rewrite Hc, IH.
Qed.

End Substitution.

(** ** The clean-up of formatting that ends the pipeline *)

Section CleanUp.

Lemma drop_while_head p s : Window.head_in p (Str.drop_while p s) = false.
Proof.
  induction s as [| c r IH]; simpl; [reflexivity |].
  destruct (p c) eqn:E; [exact IH | exact E].
Qed.

Lemma drop_while_id p s :
  Window.head_in p s = false -> Str.drop_while p s = s.
Proof. destruct s as [| c r]; simpl; [reflexivity |]. now intros ->. Qed.

Lemma run_none p c r : Re.run p (c :: r) = None -> p c = false.
Proof. unfold Re.run. simpl. destruct (p c); [discriminate | reflexivity]. Qed.

Lemma run_some p c r w rest :
  Re.run p (c :: r) = Some (w, rest) ->
  p c = true /\ Window.head_in p rest = false.
Proof.
  unfold Re.run. simpl. destruct (p c); [| discriminate].
  intros [= <- <-]. split; [reflexivity | apply drop_while_head].
Qed.

(** Replacing every run of a class by one character of the class leaves
    no two neighbours in the class. *)
Lemma run_collapse p x0 :
  p x0 = true ->
  forall s,
    Window.pairs_ok (Window.not_both p) (Re.sub (Re.run p) [x0] s) = true
    /\ (Window.head_in p (Re.sub (Re.run p) [x0] s) = true ->
        Window.head_in p s = true).
Proof.
  intros Hx0.
  apply (sub_ind (Re.run p) (sound_run p)).
  - split; [reflexivity | trivial].
  - intros c r w rest E [IH1 IH2].
    rewrite (sub_cons _ _ (sound_run p)), E.
    destruct (run_some _ _ _ _ _ E) as [Hc Hrest].
    split; [| intros _; exact Hc].
    change ([x0] ++ ?l) with (x0 :: l).
    rewrite pairs_ok_cons, IH1, andb_true_r.
    destruct (Re.sub (Re.run p) [x0] rest) as [| y t] eqn:Eo; [reflexivity |].
    simpl. unfold Window.not_both.
    destruct (p y) eqn:Ey; [| now rewrite andb_false_r].
    simpl in IH2. rewrite (IH2 Ey) in Hrest. discriminate.
  - intros c r E [IH1 IH2].
    rewrite (sub_cons _ _ (sound_run p)), E.
    pose proof (run_none _ _ _ E) as Hc.
    split; [| simpl; congruence].
    rewrite pairs_ok_cons, IH1, andb_true_r.
    destruct (Re.sub (Re.run p) [x0] r); [reflexivity |].
    simpl. unfold Window.not_both. now rewrite Hc.
Qed.

Let dash_repl : str := [Char.space; Char.em_dash; Char.space].

Lemma dash_repl_app (t : str) :
  dash_repl ++ t = Char.space :: Char.em_dash :: Char.space :: t.
Proof. reflexivity. Qed.

Lemma dash_none c r :
  Re.dash (c :: r) = None ->
  Char.is_em_dash c = false
  /\ (Char.is_space c = true -> Window.head_in Char.is_space r = false ->
      Window.head_in Char.is_em_dash r = false).
Proof.
  unfold Re.dash. simpl. intros E. split.
  - destruct (Char.is_space c) eqn:Ec.
    + destruct (Char.is_em_dash c) eqn:Ed; [| reflexivity].
      apply N.eqb_eq in Ed. subst c. discriminate.
    + unfold Char.is_em_dash. destruct (N.eqb c Char.em_dash); [discriminate | reflexivity].
  - intros Hc Hr. rewrite Hc in E. rewrite (drop_while_id _ _ Hr) in E.
    destruct r as [| d r']; [reflexivity |]. simpl.
    unfold Char.is_em_dash. destruct (N.eqb d Char.em_dash); [discriminate | reflexivity].
Qed.

Lemma dash_some c r w rest :
  Re.dash (c :: r) = Some (w, rest) ->
  Window.head_in Char.is_space rest = false
  /\ (Char.is_space c = true \/ Char.is_em_dash c = true).
Proof.
  unfold Re.dash. intros E.
  destruct (Str.drop_while Char.is_space (c :: r)) as [| d r'] eqn:Ed;
    [discriminate |].
  destruct (N.eqb d Char.em_dash) eqn:Edash; [| discriminate].
  injection E as <- <-. split; [apply drop_while_head |].
  simpl in Ed. destruct (Char.is_space c); [now left |].
  injection Ed as -> _. now right.
Qed.

Lemma dash_at_dash s :
  Window.head_in Char.is_em_dash s = true ->
  exists t, Re.sub Re.dash dash_repl s = dash_repl ++ t.
Proof.
  destruct s as [| c r]; [discriminate |]. simpl. intros Hc.
  rewrite (sub_cons _ _ sound_dash).
  apply N.eqb_eq in Hc. subst c.
  unfold Re.dash. simpl. eauto.
Qed.

(** Every em-dash of the result has a space on either side. *)
Lemma dash_sub_spaced s :
  Window.pairs_ok Window.dash_spaced (Re.sub Re.dash dash_repl s) = true
  /\ Window.head_in Char.is_em_dash (Re.sub Re.dash dash_repl s) = false.
Proof.
  revert s. apply (sub_ind Re.dash sound_dash).
  - split; reflexivity.
  - intros c r w rest E [IH1 IH2].
    rewrite (sub_cons _ _ sound_dash), E. split; [| reflexivity].
    rewrite dash_repl_app.
    rewrite !pairs_ok_cons, IH1. simpl.
    destruct (Re.sub Re.dash dash_repl rest) as [| y t]; [reflexivity |].
    simpl in *. unfold Window.dash_spaced.
    unfold Char.is_em_dash in IH2. now rewrite IH2.
  - intros c r E [IH1 IH2].
    rewrite (sub_cons _ _ sound_dash), E.
    destruct (dash_none _ _ E) as [Hc _]. split; [| exact Hc].
    rewrite pairs_ok_cons, IH1, andb_true_r.
    destruct (Re.sub Re.dash dash_repl r) as [| y t]; [reflexivity |].
    simpl in *. unfold Window.dash_spaced.
    unfold Char.is_em_dash in *. now rewrite IH2, Hc.
Qed.

(** On a text without two neighbouring white-space characters, the
    em-dash substitution leaves two of them only between two em-dashes. *)
Lemma dash_sub_windows s :
  Window.pairs_ok (Window.not_both Char.is_space) s = true ->
  Window.triples_ok Window.double_space_between_dashes
                    (Re.sub Re.dash dash_repl s) = true
  /\ Window.pairs_ok (Window.not_both Char.is_space)
                     (firstn 2 (Re.sub Re.dash dash_repl s)) = true
  /\ (Window.head_in Char.is_space (Re.sub Re.dash dash_repl s) = true ->
      Window.head_in Char.is_space s = true
      \/ Window.head_in Char.is_em_dash s = true).
Proof.
  revert s.
  apply (sub_ind Re.dash sound_dash (fun s =>
    Window.pairs_ok (Window.not_both Char.is_space) s = true ->
    Window.triples_ok Window.double_space_between_dashes
                      (Re.sub Re.dash dash_repl s) = true
    /\ Window.pairs_ok (Window.not_both Char.is_space)
                       (firstn 2 (Re.sub Re.dash dash_repl s)) = true
    /\ (Window.head_in Char.is_space (Re.sub Re.dash dash_repl s) = true ->
        Window.head_in Char.is_space s = true
        \/ Window.head_in Char.is_em_dash s = true))).
  - intros _. split; [reflexivity |]. split; [reflexivity | discriminate].
  - intros c r w rest E IH Hs.
    rewrite (sub_cons _ _ sound_dash), E.
    destruct (dash_some _ _ _ _ E) as [Hrest Hc].
    rewrite (match_suffix _ sound_dash _ _ _ _ E) in Hs.
    apply pairs_ok_app in Hs as [_ Hs].
    destruct (IH Hs) as (IH1 & IH2 & IH3).
    split; [| split; [reflexivity | intros _; exact Hc]].
    destruct (Re.sub Re.dash dash_repl rest) as [| y [| z t]] eqn:Eo;
      try reflexivity.
    + rewrite dash_repl_app. simpl.
      unfold Window.double_space_between_dashes. simpl.
      destruct (Char.is_space y) eqn:Ey; [| reflexivity].
      destruct (IH3 Ey) as [Hsp | Hd]; [congruence |].
      destruct (dash_at_dash _ Hd) as [t' Ht'].
      rewrite Eo in Ht'. discriminate.
    + rewrite dash_repl_app.
      do 3 rewrite triples_ok_cons. rewrite IH1, andb_true_r.
      unfold Window.double_space_between_dashes. simpl.
      simpl in IH2. unfold Window.not_both in IH2.
      rewrite andb_true_r in IH2. apply negb_true_iff in IH2.
      rewrite IH2. simpl.
      destruct (Char.is_space y) eqn:Ey; [| reflexivity]. simpl.
      destruct (IH3 Ey) as [Hsp | Hd]; [congruence |].
      destruct (dash_at_dash _ Hd) as [t' Ht'].
      rewrite Eo in Ht'. injection Ht' as _ -> _. reflexivity.
  - intros c r E IH Hs.
    rewrite (sub_cons _ _ sound_dash), E.
    destruct (dash_none _ _ E) as [Hc Hnext].
    rewrite pairs_ok_cons in Hs. apply andb_true_iff in Hs as [Hh Hs].
    destruct (IH Hs) as (IH1 & IH2 & IH3).
    assert (Hjoin : forall y t,
               Re.sub Re.dash dash_repl r = y :: t ->
               Char.is_space c = true -> Char.is_space y = false).
    { intros y t Eo Hsp.
      assert (Hr : Window.head_in Char.is_space r = false).
      { destruct r as [| d r']; [reflexivity |]. simpl in *.
        unfold Window.not_both in Hh. rewrite Hsp in Hh. simpl in Hh.
        now apply negb_true_iff in Hh. }
      destruct (Char.is_space y) eqn:Ey; [| reflexivity].
      rewrite Eo in IH3. destruct (IH3 Ey) as [Hsp' | Hd]; [congruence |].
      rewrite (Hnext Hsp Hr) in Hd. discriminate. }
    split; [| split].
    + destruct (Re.sub Re.dash dash_repl r) as [| y [| z t]] eqn:Eo;
        try reflexivity.
      rewrite triples_ok_cons, IH1, andb_true_r.
      unfold Window.double_space_between_dashes.
      simpl in IH2. unfold Window.not_both in IH2.
      rewrite andb_true_r in IH2. apply negb_true_iff in IH2.
      rewrite IH2. simpl.
      destruct (Char.is_space c) eqn:Ec; [| reflexivity].
      now rewrite (Hjoin y _ eq_refl eq_refl).
    + destruct (Re.sub Re.dash dash_repl r) as [| y t] eqn:Eo;
        [reflexivity |].
      simpl. unfold Window.not_both. rewrite andb_true_r.
      destruct (Char.is_space c) eqn:Ec; [| reflexivity].
      now rewrite (Hjoin y _ eq_refl eq_refl).
    + simpl. intros Hsp. now left.
Qed.

End CleanUp.

Section Strip.

Lemma strip_segment (s : str) :
  exists pre suf, s = pre ++ Str.strip s ++ suf.
Proof.
  unfold Str.strip, Str.rstrip, Str.lstrip.
  exists (Str.take_while Char.is_space s).
  set (t := Str.drop_while Char.is_space s).
  exists (rev (Str.take_while Char.is_space (rev t))).
  rewrite <- rev_app_distr, take_drop_while, rev_involutive.
  subst t. symmetry. apply take_drop_while.
Qed.

Lemma strip_last (s : str) :
  Window.head_in Char.is_space (rev (Str.strip s)) = false.
Proof.
  unfold Str.strip, Str.rstrip. rewrite rev_involutive.
  apply drop_while_head.
Qed.

Lemma strip_head (s : str) : Window.head_in Char.is_space (Str.strip s) = false.
Proof.
  unfold Str.strip, Str.lstrip.
  pose proof (drop_while_head Char.is_space s) as Hh.
  set (t := Str.drop_while Char.is_space s) in *.
  unfold Str.rstrip.
  pose proof (take_drop_while Char.is_space (rev t)) as Hsplit.
  apply (f_equal (@rev N)) in Hsplit.
  rewrite rev_app_distr, rev_involutive in Hsplit.
  destruct (rev (Str.drop_while Char.is_space (rev t))) as [| c u];
    [reflexivity |].
  rewrite <- Hsplit in Hh. exact Hh.
Qed.

Lemma head_in_false (p : N -> bool) (s : str) (c : N) :
  Window.head_in p s = false -> head s = Some c -> p c = false.
Proof. destruct s; simpl; [discriminate |]. now intros Hp [= <-]. Qed.

Lemma last_head_rev (s : str) : last s = head (rev s).
Proof.
  induction s as [| a s IH] using rev_ind; [reflexivity |].
  now rewrite last_snoc, rev_app_distr.
Qed.

End Strip.

Section CleanUpTheorem.

Let step1 (s : str) := Re.sub Re.spaces [Char.space] s.
Let step2 (s : str) := Re.sub Re.periods [Char.period] (step1 s).
Let step3 (s : str) := Re.sub Re.comma_pair [Char.comma] (step2 s).
Let step4 (s : str) :=
  Re.sub Re.dash [Char.space; Char.em_dash; Char.space] (step3 s).

Let plain_space (c : N) : bool := implb (Char.is_space c) (N.eqb c Char.space).
Let is_period (c : N) : bool := N.eqb Char.period c.

Lemma in_singleton_or (a : N) (R : N -> N -> bool) :
  (forall z, R a z = true) -> (forall z, R z a = true) ->
  forall x y, In x [a] \/ In y [a] -> R x y = true.
Proof. intros H1 H2 x y [[<- | []] | [<- | []]]; auto. Qed.

Lemma step3_spaces (s : str) :
  Window.pairs_ok (Window.not_both Char.is_space) (step3 s) = true.
Proof.
  unfold step3, step2, step1.
  apply (sub_preserves_pairs _ _ sound_comma_pair); [discriminate | |].
  { apply in_singleton_or; intros z; unfold Window.not_both; simpl;
      [reflexivity | now rewrite andb_false_r]. }
  apply (sub_preserves_pairs _ _ (sound_run _)); [discriminate | |].
  { apply in_singleton_or; intros z; unfold Window.not_both; simpl;
      [reflexivity | now rewrite andb_false_r]. }
  apply (run_collapse Char.is_space Char.space eq_refl).
Qed.

Lemma step4_periods (s : str) :
  Window.pairs_ok (Window.not_both is_period) (step4 s) = true.
Proof.
  unfold step4, step3, step2.
  apply (sub_preserves_pairs _ _ sound_dash); [discriminate | |].
  { intros x y Hin. unfold Window.not_both.
    destruct Hin as [[<- | [<- | [<- | []]]] | [<- | [<- | [<- | []]]]];
      simpl; trivial; now rewrite andb_false_r. }
  apply (sub_preserves_pairs _ _ sound_comma_pair); [discriminate | |].
  { apply in_singleton_or; intros z; unfold Window.not_both; simpl;
      [reflexivity | now rewrite andb_false_r]. }
  apply (run_collapse is_period Char.period eq_refl).
Qed.

Lemma step4_plain_spaces (s : str) : forallb plain_space (step4 s) = true.
Proof.
  unfold step4, step3, step2, step1.
  assert (Hall : forall (Q : N -> bool) (l : str),
             forallb Q l = true ->
             forallb (fun c => implb ((fun _ => true) c) (Q c)) l = true).
  { intros Q l H. exact H. }
  apply (sub_forall _ _ sound_dash plain_space (fun _ => true));
    [reflexivity | reflexivity |]. apply Hall.
  apply (sub_forall _ _ sound_comma_pair plain_space (fun _ => true));
    [reflexivity | reflexivity |]. apply Hall.
  apply (sub_forall _ _ (sound_run _) plain_space (fun _ => true));
    [reflexivity | reflexivity |]. apply Hall.
  apply (sub_forall _ _ (sound_run _) plain_space
           (fun c => negb (Char.is_space c))).
  - intros c r E. apply run_none in E. now rewrite E.
  - reflexivity.
  - apply forallb_forall. intros c _. unfold plain_space.
    destruct (Char.is_space c); reflexivity.
Qed.

Lemma clean_up_is_strip_step4 (s : str) :
  Humanizer.clean_up_formatting s = Str.strip (step4 s).
Proof. reflexivity. Qed.


End CleanUpTheorem.


(** Three commas in a row are left as two, and two em-dashes in a row are
    separated by two spaces: the patterns are applied once, from left to
    right. *)
Example clean_up_triple_comma :
  Humanizer.clean_up_formatting (lit "a,,,b") = lit "a,,b".
Proof. reflexivity. Qed.

Example clean_up_double_dash :
  Humanizer.clean_up_formatting
    (lit "a" ++ [Char.em_dash; Char.em_dash] ++ lit "b")
  = lit "a " ++ [Char.em_dash] ++ lit "  " ++ [Char.em_dash] ++ lit " b".
Proof. reflexivity. Qed.

Example clean_up_example :
  Humanizer.clean_up_formatting
    (lit "  It   works..  well , , yes" ++ [Char.em_dash] ++ lit "truly.  ")
  = lit "It works. well , yes " ++ [Char.em_dash] ++ lit " truly.".
Proof. reflexivity. Qed.

(** ** The overall humanness score (text_analytics_service.py) *)

Section SubScores.
Context `{UnicodeData} `{FloatSqrt}.
Local Open Scope Q_scope.

Lemma Qn_nonneg (n : nat) : 0 <= Qn n.
Proof.
  unfold Qn. change 0 with (inject_Z 0). rewrite <- Zle_Qle. lia.
Qed.

Lemma Qdiv_nonneg (a b : Q) : 0 <= a -> 0 < b -> 0 <= a / b.
Proof. intros Ha Hb. apply Qle_shift_div_l; [exact Hb | lra]. Qed.

Lemma Qdiv_le_1 (a b : Q) : a <= b -> 0 < b -> a / b <= 1.
Proof. intros Ha Hb. apply Qle_shift_div_r; [exact Hb | lra]. Qed.

Lemma ratio_nonneg (count total : nat) : 0 <= TextAnalytics.ratio count total.
Proof.
  unfold TextAnalytics.ratio.
  destruct (Nat.eqb_spec total 0); [lra |].
  apply Qdiv_nonneg; [apply Qn_nonneg | apply Qn_pos; lia].
Qed.

Lemma ratio_le_1 (count total : nat) :
  (count <= total)%nat -> TextAnalytics.ratio count total <= 1.
Proof.
  intros Hle. unfold TextAnalytics.ratio.
  destruct (Nat.eqb_spec total 0); [lra |].
  apply Qdiv_le_1; [now apply Qn_le | apply Qn_pos; lia].
Qed.

Lemma square_nonneg (y : Q) : 0 <= y * y.
Proof.
  destruct (Qlt_le_dec y 0) as [Hneg | Hpos].
  - assert (E : y * y == (- y) * (- y)) by ring.
    rewrite E. apply Qmult_le_0_compat; lra.
  - now apply Qmult_le_0_compat.
Qed.

Lemma sum_squares_nonneg (mu : Q) (data : list Q) :
  0 <= Statistics.sum (map (fun x => (x - mu) * (x - mu)) data).
Proof.
  induction data as [| x data IH]; simpl; [lra |].
  pose proof (square_nonneg (x - mu)). lra.
Qed.

Lemma variance_or_zero_nonneg (xs : list Q) :
  0 <= TextAnalytics.variance_or_zero xs.
Proof.
  unfold TextAnalytics.variance_or_zero.
  destruct (Nat.ltb_spec 1 (length xs)) as [Hlen | _]; [| lra].
  unfold Statistics.variance. apply Qdiv_nonneg.
  - apply sum_squares_nonneg.
  - unfold Py.len. pose proof (Qn_le 2 (length xs) Hlen) as Hq.
    unfold Qn in Hq. change (inject_Z (Z.of_nat 2)) with 2 in Hq. lra.
Qed.

Lemma variance_nonneg (xs : list Q) :
  (2 <= length xs)%nat -> 0 <= Statistics.variance xs.
Proof.
  intros Hlen. pose proof (variance_or_zero_nonneg xs) as Hv.
  unfold TextAnalytics.variance_or_zero in Hv.
  destruct (Nat.ltb_spec 1 (length xs)); [exact Hv | lia].
Qed.

Lemma ai_score_bounds (f r u t : Q) :
  0 <= f <= 1 -> 0 <= r <= 1 -> 0 <= u <= 1 -> 0 <= t ->
  0 <= TextAnalytics.ai_score_of f r u t <= 100.
Proof.
  intros Hf Hr Hu Ht. unfold TextAnalytics.ai_score_of, Py.min.
  destruct (Qlt_le_dec 1 t); lra.
Qed.

(** The four sub-scores as the scoring reads them, with their ranges. *)

Lemma readability_number (text : str) :
  exists r : Q,
    TextAnalytics.get_number (TextAnalytics._calculate_readability text)
                             "flesch_reading_ease" 50 = Some r
    /\ 0 <= r <= 100
    /\ (is_Some (TextAnalytics._calculate_readability text !! "error"%string)
        -> r = 50).
Proof.
  unfold TextAnalytics._calculate_readability, TextAnalytics.get_number.
  destruct (_ || _).
  - exists 50. split; [reflexivity |]. split; [lra | trivial].
  - eexists. split; [reflexivity |]. split.
    + apply clamped_round_bounds.
    + intros [v Hv]. discriminate.
Qed.

Lemma complexity_number (text : str) :
  exists c : Q,
    TextAnalytics.get_number (TextAnalytics._analyze_complexity text)
                             "complexity_score" 50 = Some c
    /\ 0 <= c.
Proof.
  unfold TextAnalytics._analyze_complexity, TextAnalytics.get_number.
  eexists. split; [reflexivity |].
  apply (round_ge _ 2 0). change (inject_Z 0) with 0.
  pose proof ratio_nonneg as Hr.
  assert (Hsum : forall a b c : Q,
             0 <= a -> 0 <= b -> 0 <= c -> 0 <= (a + b + c) * 100)
    by (intros; lra).
  apply Hsum; apply Hr.
Qed.

Lemma filter_length_le {A} (p : A -> bool) (l : list A) :
  (length (List.filter p l) <= length l)%nat.
Proof.
  induction l as [| x l IH]; simpl; [lia |].
  destruct (p x); simpl; lia.
Qed.

Lemma ai_number (text : str) :
  exists a : Q,
    TextAnalytics.get_number (TextAnalytics._analyze_ai_indicators text)
                             "ai_likelihood_score" 50 = Some a
    /\ 0 <= a <= 100.
Proof.
  unfold TextAnalytics._analyze_ai_indicators, TextAnalytics.get_number.
  eexists. split; [reflexivity |].
  match goal with
  | |- 0 <= Py.round ?x 2 <= 100 =>
      assert (Hx : 0 <= x <= 100); [| split;
        [apply (round_ge _ 2 0), Hx | apply (round_le _ 2 100), Hx]]
  end.
  apply ai_score_bounds.
  - split; [apply ratio_nonneg | apply ratio_le_1, filter_length_le].
  - split; [apply ratio_nonneg |]. apply ratio_le_1.
    rewrite <- length_map_to_list. apply filter_length_le.
  - pose proof (variance_or_zero_nonneg
                  (TextAnalytics.sentence_lengths_of
                     (TextAnalytics._split_sentences text))) as Hv.
    destruct (Qlt_le_dec 0 _) as [Hpos | _]; [| lra].
    split.
    + apply Qdiv_nonneg; lra.
    + apply Qdiv_le_1; lra.
  - apply ratio_nonneg.
Qed.

Lemma burstiness_number (text : str) :
  exists b : Q,
    TextAnalytics.get_number (TextAnalytics._analyze_burstiness text)
                             "burstiness_score" 50 = Some b
    /\ 0 <= b <= 100
    /\ (is_Some (TextAnalytics._analyze_burstiness text !! "error"%string)
        -> b = 50).
Proof.
  unfold TextAnalytics._analyze_burstiness, TextAnalytics.get_number.
  destruct (Nat.ltb_spec
              (length (TextAnalytics.sentence_lengths_of
                         (TextAnalytics._split_sentences text))) 2)
    as [Hfew | Hmany].
  - exists 50. split; [reflexivity |]. split; [lra | trivial].
  - eexists. split; [reflexivity |]. split; [| intros [v Hv]; discriminate].
    match goal with
    | |- 0 <= Py.round ?x 2 <= 100 =>
        assert (Hx : 0 <= x <= 100); [| split;
          [apply (round_ge _ 2 0), Hx | apply (round_le _ 2 100), Hx]]
    end.
    split; [| apply py_min_le_l].
    pose proof (variance_or_zero_nonneg
                  (map TextAnalytics.sentence_complexity
                       (TextAnalytics._split_sentences text))) as Hcv.
    assert (Hcov : 0 <= (if Qlt_le_dec 0
                              (Statistics.mean
                                 (TextAnalytics.sentence_lengths_of
                                    (TextAnalytics._split_sentences text)))
                         then Statistics.stdev
                                (TextAnalytics.sentence_lengths_of
                                   (TextAnalytics._split_sentences text))
                              / Statistics.mean
                                  (TextAnalytics.sentence_lengths_of
                                     (TextAnalytics._split_sentences text))
                         else 0)).
    { destruct (Qlt_le_dec 0 _) as [Hpos | _]; [| lra].
      apply Qdiv_nonneg; [apply fsqrt_nonneg | exact Hpos]. }
    unfold Py.min. destruct (Qlt_le_dec _ 100); lra.
Qed.

End SubScores.

Section OverallScore.
Context `{UnicodeData} `{FloatSqrt}.
Local Open Scope Q_scope.

Lemma clamp_in_range (x : Q) :
  0 <= x <= 100 -> ReadabilitySpec.clamp 0 100 x == x.
Proof.
  intros [Hlo Hhi]. unfold ReadabilitySpec.clamp.
  rewrite (Q.min_r 100 x Hhi). now apply Q.max_r.
Qed.

Lemma clamp_nonneg (x : Q) :
  0 <= x -> ReadabilitySpec.clamp 0 100 x == Py.min 100 x.
Proof.
  intros Hlo. unfold ReadabilitySpec.clamp.
  rewrite <- py_min_Qmin. apply Q.max_r.
  unfold Py.min. destruct (Qlt_le_dec x 100); lra.
Qed.

Lemma py_clamp_in_range (x : Q) :
  0 <= x <= 100 -> Py.min 100 (Py.max 0 x) == x.
Proof.
  intros [Hlo Hhi]. unfold Py.min, Py.max.
  destruct (Qlt_le_dec 0 x); destruct (Qlt_le_dec _ 100); lra.
Qed.


End OverallScore.


(** The example of the specification: two sentences, six words. *)
Example analyze_cat_happy :
  let rep := TextAnalytics.analyze_text (H := ascii_data)
               (H0 := TextAnalytics.approx_sqrt)
               (lit "The cat sat. It was happy.") in
  TextAnalytics.readability rep !! "error"%string = None
  /\ TextAnalytics.burstiness rep !! "error"%string = None
  /\ (TextAnalytics.component_burstiness (TextAnalytics.overall_score rep)
      == 0)%Q.
Proof.
  split; [vm_compute; reflexivity |].
  split; vm_compute; reflexivity.
Qed.

(** ** A sequence matched with itself (difflib) *)

Section SelfMatch.
Context {A : Type} `{EqDecision A}.
Local Open Scope nat_scope.

Lemma elem_of_indices_from (x : A) (b : list A) :
  forall i0 j : nat,
    j ∈ Difflib.indices_from i0 x b
    <-> exists k : nat, j = i0 + k /\ b !! k = Some x.
Proof.
  induction b as [| y r IH]; intros i0 j; simpl.
  - split; [intros Hj; inversion Hj | intros (k & _ & Hk); discriminate].
  - destruct (decide (y = x)) as [-> | Hne].
    + rewrite elem_of_cons, IH. split.
      * intros [-> | (k & -> & Hk)].
        -- exists 0. split; [lia | reflexivity].
        -- exists (S k). split; [lia | exact Hk].
      * intros ([| k] & -> & Hk).
        -- left. lia.
        -- right. exists k. split; [lia | exact Hk].
    + rewrite IH. split.
      * intros (k & -> & Hk). exists (S k). split; [lia | exact Hk].
      * intros ([| k] & -> & Hk).
        -- simpl in Hk. congruence.
        -- exists k. split; [lia | exact Hk].
Qed.

Lemma indices_from_sorted (x : A) (b : list A) :
  forall i0 : nat, StronglySorted lt (Difflib.indices_from i0 x b).
Proof.
  induction b as [| y r IH]; intros i0; simpl; [constructor |].
  destruct (decide (y = x)); [| apply IH].
  constructor; [apply IH |].
  apply Forall_forall. intros j Hj.
  apply elem_of_indices_from in Hj as (k & -> & _). lia.
Qed.

Variable a : list A.

Let prev_run (i : nat) : nat :=
  match i with O => O | S i' => Difflib.run_ending_at a i' end.

Lemma run_unfold (i : nat) :
  Difflib.run_ending_at a i
  = match a !! i with
    | Some x => if Difflib.popular a x then O else S (prev_run i)
    | None => O
    end.
Proof. destruct i; reflexivity. Qed.

Lemma run_le (i : nat) : Difflib.run_ending_at a i <= S i.
Proof.
  induction i as [| i IH]; rewrite run_unfold.
  - destruct (a !! 0); [destruct (Difflib.popular a a0) |]; simpl; lia.
  - destruct (a !! S i); [destruct (Difflib.popular a a0) |]; simpl; lia.
Qed.

(** What the loops keep true of the best match so far, before row [i]. *)
Let best_ok (i : nat) (bst : Difflib.best) : Prop :=
  Difflib.besti bst = Difflib.bestj bst
  /\ (forall i', i' < i -> Difflib.run_ending_at a i' <= Difflib.bestsize bst)
  /\ Difflib.besti bst + Difflib.bestsize bst <= length a.

Lemma inner_diagonal (i : nat) (x : A) (j2len : gmap nat nat) :
  a !! i = Some x -> Difflib.popular a x = false ->
  (forall j, Difflib.prev_len j2len j <= prev_run i) ->
  (forall j, Difflib.prev_len j2len j <= prev_run j) ->
  Difflib.prev_len j2len i = prev_run i ->
  forall (js : list nat) (newj2len : gmap nat nat) (bst : Difflib.best),
    Forall (fun j => a !! j = Some x) js ->
    StronglySorted lt js ->
    (forall j, default 0 (newj2len !! j) <= Difflib.run_ending_at a i
               /\ default 0 (newj2len !! j) <= Difflib.run_ending_at a j) ->
    best_ok i bst ->
    (i ∈ js \/ (default 0 (newj2len !! i) = Difflib.run_ending_at a i
                /\ Difflib.run_ending_at a i <= Difflib.bestsize bst)) ->
    let '(nj, bst') :=
      Difflib.inner js 0 (length a) i j2len newj2len bst in
    (forall j, default 0 (nj !! j) <= Difflib.run_ending_at a i
               /\ default 0 (nj !! j) <= Difflib.run_ending_at a j)
    /\ best_ok i bst'
    /\ default 0 (nj !! i) = Difflib.run_ending_at a i
    /\ Difflib.run_ending_at a i <= Difflib.bestsize bst'.
Proof.
  intros Hx Hpop HL1 HL2 HL3.
  assert (Hrun_i : Difflib.run_ending_at a i = S (prev_run i))
    by (rewrite run_unfold, Hx, Hpop; reflexivity).
  induction js as [| j js IH]; intros newj2len bst Hall Hsorted HN Hbest Hd.
  - simpl. destruct Hd as [Hin | [Hd1 Hd2]]; [inversion Hin |].
    split; [exact HN |]. split; [exact Hbest |]. split; assumption.
  - inversion Hall as [| ? ? Hj Hall']; subst.
    inversion Hsorted as [| ? ? Hsorted' Hhead]; subst.
    assert (Hjn : j < length a) by (apply lookup_lt_is_Some; eauto).
    assert (Hrun_j : Difflib.run_ending_at a j = S (prev_run j))
      by (rewrite run_unfold, Hj, Hpop; reflexivity).
    simpl.
    destruct (Nat.leb_spec (length a) j) as [Hge | _]; [lia |].
    set (k := S (Difflib.prev_len j2len j)).
    assert (Hk_i : k <= Difflib.run_ending_at a i)
      by (rewrite Hrun_i; subst k; specialize (HL1 j); lia).
    assert (Hk_j : k <= Difflib.run_ending_at a j)
      by (rewrite Hrun_j; subst k; specialize (HL2 j); lia).
    assert (HN' : forall j', default 0 (<[j := k]> newj2len !! j')
                             <= Difflib.run_ending_at a i
                             /\ default 0 (<[j := k]> newj2len !! j')
                                <= Difflib.run_ending_at a j').
    { intros j'. destruct (decide (j = j')) as [<- | Hne].
      - rewrite lookup_insert_eq. simpl. split; assumption.
      - rewrite lookup_insert_ne by assumption. apply HN. }
    destruct Hbest as (Hb1 & Hb2 & Hb5).
    destruct (Nat.ltb_spec (Difflib.bestsize bst) k) as [Hbetter | Hworse].
    + assert (Hji : j = i).
      { destruct Hd as [Hin | [_ Hd2]]; [| lia].
        apply elem_of_cons in Hin as [-> | Hin]; [reflexivity |].
        rewrite Forall_forall in Hhead. specialize (Hhead i Hin).
        specialize (Hb2 j Hhead). lia. }
      subst j.
      assert (Hk : k = Difflib.run_ending_at a i)
        by (rewrite Hrun_i; subst k; now rewrite HL3).
      apply IH; trivial.
      * pose proof (run_le i) as Hle.
        split; [reflexivity |]. split; simpl.
        -- intros i' Hi'. specialize (Hb2 i' Hi'). lia.
        -- lia.
      * right. rewrite lookup_insert_eq. simpl. lia.
    + apply IH; trivial.
      * split; [exact Hb1 |]. split; assumption.
      * destruct (decide (j = i)) as [-> | Hne].
        -- right. rewrite lookup_insert_eq. simpl.
           assert (Hk : k = Difflib.run_ending_at a i)
             by (rewrite Hrun_i; subst k; now rewrite HL3).
           lia.
        -- destruct Hd as [Hin | Hd].
           ++ left. apply elem_of_cons in Hin as [-> | Hin];
                [congruence | exact Hin].
           ++ right. now rewrite lookup_insert_ne.
Qed.

(** The state of the outer loop before row [i]. *)
Let rows_ok (i : nat) (st : gmap nat nat * Difflib.best) : Prop :=
  best_ok i (snd st)
  /\ (forall j, Difflib.prev_len (fst st) j <= prev_run i)
  /\ (forall j, Difflib.prev_len (fst st) j <= prev_run j)
  /\ Difflib.prev_len (fst st) i = prev_run i.

Lemma prev_len_empty (j : nat) : Difflib.prev_len ∅ j = 0.
Proof. destruct j; reflexivity. Qed.

Lemma row_diagonal (i : nat) (st : gmap nat nat * Difflib.best) :
  i < length a -> rows_ok i st ->
  rows_ok (S i) (Difflib.row a a 0 (length a) st i).
Proof.
  intros Hi (Hbest & HL1 & HL2 & HL3).
  destruct st as [j2len bst]. simpl in *.
  destruct (lookup_lt_is_Some_2 a i Hi) as [x Hx].
  unfold Difflib.row. rewrite Hx. unfold Difflib.b2j.
  destruct (Difflib.popular a x) eqn:Hpop.
  - assert (Hrun : Difflib.run_ending_at a i = 0)
      by (rewrite run_unfold, Hx, Hpop; reflexivity).
    simpl. destruct Hbest as (Hb1 & Hb2 & Hb5).
    unfold rows_ok, best_ok. cbn [fst snd].
    split; [| split; [| split]].
    + split; [exact Hb1 |]. split; [| exact Hb5].
      intros i' Hi'. destruct (decide (i' = i)) as [-> | Hne]; [lia |].
      apply Hb2. lia.
    + intros j. rewrite prev_len_empty. lia.
    + intros j. rewrite prev_len_empty. lia.
    + simpl. rewrite lookup_empty. simpl. now rewrite Hrun.
  - pose proof (inner_diagonal i x j2len Hx Hpop HL1 HL2 HL3
                  (Difflib.indices_from 0 x a) ∅ bst) as Hinner.
    destruct (Difflib.inner _ 0 (length a) i j2len ∅ bst) as [nj bst'].
    destruct Hinner as (HN & (Hb1 & Hb2 & Hb5) & Hni & Hsize).
    + apply Forall_forall. intros j Hj.
      apply elem_of_indices_from in Hj as (k & -> & Hk). exact Hk.
    + apply indices_from_sorted.
    + intros j. rewrite lookup_empty. simpl. lia.
    + exact Hbest.
    + left. apply elem_of_indices_from. exists i. split; [lia | exact Hx].
    + unfold rows_ok, best_ok. cbn [fst snd].
      split; [| split; [| split]].
      * split; [exact Hb1 |]. split; [| exact Hb5].
        intros i' Hi'.
        destruct (decide (i' = i)) as [-> | Hne]; [exact Hsize |].
        apply Hb2. lia.
      * intros [| j]; simpl; [lia | apply HN].
      * intros [| j]; simpl; [lia | apply HN].
      * exact Hni.
Qed.

Lemma rows_diagonal (m : nat) :
  m <= length a ->
  rows_ok m
    (fold_left (Difflib.row a a 0 (length a)) (seq 0 m)
               (∅, {| Difflib.besti := 0; Difflib.bestj := 0;
                      Difflib.bestsize := 0 |})).
Proof.
  induction m as [| m IH]; intros Hm.
  - simpl. split; [| split; [| split]].
    + split; [reflexivity |]. split; [intros; lia | simpl; lia].
    + intros j. simpl. rewrite prev_len_empty. lia.
    + intros j. simpl. rewrite prev_len_empty. lia.
    + reflexivity.
  - rewrite seq_S, fold_left_app. simpl.
    apply row_diagonal; [lia |]. apply IH. lia.
Qed.

Lemma same_at_diagonal (i : nat) :
  i < length a -> Difflib.same_at a a i i = true.
Proof.
  intros Hi. unfold Difflib.same_at.
  destruct (lookup_lt_is_Some_2 a i Hi) as [x ->].
  now apply bool_decide_eq_true.
Qed.

Lemma extend_left_diagonal (p : nat) :
  forall s : nat,
    p <= length a ->
    Difflib.extend_left p a a 0 0
      {| Difflib.besti := p; Difflib.bestj := p; Difflib.bestsize := s |}
    = {| Difflib.besti := 0; Difflib.bestj := 0; Difflib.bestsize := s + p |}.
Proof.
  induction p as [| p IH]; intros s Hp; simpl.
  - f_equal. lia.
  - rewrite Nat.sub_0_r, same_at_diagonal by lia. simpl.
    rewrite IH by lia. f_equal. lia.
Qed.

Lemma extend_right_diagonal (fuel : nat) :
  forall s : nat,
    s <= length a -> length a <= s + fuel ->
    Difflib.extend_right fuel a a (length a) (length a)
      {| Difflib.besti := 0; Difflib.bestj := 0; Difflib.bestsize := s |}
    = {| Difflib.besti := 0; Difflib.bestj := 0;
         Difflib.bestsize := length a |}.
Proof.
  induction fuel as [| fuel IH]; intros s Hs Hfuel; simpl.
  - f_equal. lia.
  - destruct (Nat.ltb_spec s (length a)) as [Hlt | Hge].
    + rewrite same_at_diagonal by assumption. simpl.
      apply IH; lia.
    + simpl. f_equal. lia.
Qed.

(** The longest match of a sequence with itself is the whole sequence. *)
Lemma find_longest_match_self :
  Difflib.find_longest_match a a 0 (length a) 0 (length a)
  = {| Difflib.besti := 0; Difflib.bestj := 0;
       Difflib.bestsize := length a |}.
Proof.
  unfold Difflib.find_longest_match. rewrite Nat.sub_0_r.
  pose proof (rows_diagonal (length a) (le_n _)) as Hrows.
  destruct (fold_left _ _ _) as [j2len [p q s]].
  destruct Hrows as ((Hb1 & _ & Hb5) & _). simpl in Hb1, Hb5. subst q.
  cbn [Difflib.besti]. rewrite extend_left_diagonal by lia.
  apply extend_right_diagonal; lia.
Qed.

Lemma matching_blocks_self :
  a <> [] ->
  Difflib.get_matching_blocks a a
  = [ {| Difflib.besti := 0; Difflib.bestj := 0;
         Difflib.bestsize := length a |};
      {| Difflib.besti := length a; Difflib.bestj := length a;
         Difflib.bestsize := 0 |} ].
Proof.
  intros Hne.
  assert (Hn : 0 < length a) by (destruct a; [congruence | simpl; lia]).
  unfold Difflib.get_matching_blocks.
  replace (2 * length a + 1) with (S (2 * length a)) by lia.
  cbn [Difflib.blocks_loop]. rewrite find_longest_match_self.
  cbn [Difflib.besti Difflib.bestj Difflib.bestsize].
  destruct (Nat.eqb_spec (length a) 0) as [Hz | _]; [lia |].
  rewrite Nat.ltb_irrefl. cbn [andb Nat.add].
  rewrite Nat.ltb_irrefl. cbn [andb].
  assert (Hloop : forall fuel (acc : list Difflib.best),
             Difflib.blocks_loop fuel a a [] acc = acc)
    by (intros [| fuel] acc; reflexivity).
  rewrite Hloop. simpl.
  destruct (Nat.eqb_spec (length a) 0) as [Hz | _]; [lia |]. reflexivity.
Qed.

(** [SequenceMatcher(None, a, a).ratio()] is 1.0. *)
Lemma ratio_self : (Difflib.ratio a a == 1)%Q.
Proof.
  destruct (decide (a = [])) as [Hnil | Hne].
  - unfold Difflib.ratio. rewrite Hnil. simpl. reflexivity.
  - unfold Difflib.ratio. rewrite (matching_blocks_self Hne).
    assert (Hn : 0 < length a) by (destruct a; [congruence | simpl; lia]).
    cbn [map fold_right Difflib.bestsize].
    destruct (Nat.eqb_spec (length a + length a) 0) as [Hz | _]; [lia |].
    rewrite Nat.add_0_r.
    assert (Hq : (Qn (length a + length a) == 2 * Qn (length a))%Q).
    { unfold Qn. rewrite Nat2Z.inj_add, inject_Z_plus. ring. }
    rewrite Hq. field.
    pose proof (Qn_pos (length a) Hn). lra.
Qed.

End SelfMatch.

(** ** A text compared with itself (text_comparison_service.py) *)

Section CompareSelf.
Context `{UnicodeData}.
Local Open Scope Q_scope.

Lemma filter_none {B} (p : B -> bool) (l : list B) :
  (forall x, p x = false) -> List.filter p l = [].
Proof.
  intros Hp. induction l as [| x l IH]; simpl; [reflexivity |].
  now rewrite Hp.
Qed.

Lemma round_one : Py.round 1 3 == 1.
Proof. apply (round_Z 1 3). Qed.

Lemma round_hundred : Py.round 100 2 == 100.
Proof. apply (round_Z 100 2). Qed.

(** C3.  Comparing a text with itself gives the character, word and
    sentence similarities 1.0 and the preservation score 100. *)
Theorem C3_compare_self (X : str) :
  let report := TextComparison.compare_texts X X in
  let similarity := TextComparison.similarity_metrics_of report in
  let summary := TextComparison.change_summary_of report in
  TextComparison.character_similarity similarity == 1
  /\ TextComparison.word_similarity similarity == 1
  /\ TextComparison.sentence_similarity similarity == 1
  /\ TextComparison.preservation_score summary == 100
  /\ TextComparison.total_word_changes summary = 0%nat
  /\ TextComparison.sentence_modifications summary = 0%Z
  /\ TextComparison.structural_modifications summary = 0%nat.
Proof.
  intros report similarity summary. subst summary similarity report.
  cbn [TextComparison.compare_texts TextComparison.similarity_metrics_of
       TextComparison.change_summary_of
       TextComparison._calculate_similarity_metrics
       TextComparison.character_similarity TextComparison.word_similarity
       TextComparison.sentence_similarity].
  split; [rewrite (round_comp _ 1 3 (ratio_self X)); apply round_one |].
  split; [rewrite (round_comp _ 1 3 (ratio_self _)); apply round_one |].
  split; [rewrite (round_comp _ 1 3 (ratio_self _)); apply round_one |].
  unfold TextComparison._generate_change_summary,
    TextComparison._analyze_word_changes,
    TextComparison._analyze_sentence_changes,
    TextComparison._analyze_structural_changes.
  cbn [TextComparison.preservation_score TextComparison.total_word_changes
       TextComparison.sentence_modifications
       TextComparison.structural_modifications
       TextComparison.added_count TextComparison.removed_count
       TextComparison.sentence_count_change
       TextComparison.punctuation_changes].
  rewrite difference_diag_L, size_empty, Z.sub_diag.
  rewrite filter_none by (intros p; now rewrite Nat.eqb_refl).
  split; [| repeat split].
  rewrite <- round_hundred at 2. apply round_comp. reflexivity.
Qed.

End CompareSelf.

Section CompareExamples.
Local Existing Instance ascii_data.

Example compare_example :
  let report :=
    TextComparison.compare_texts (lit "The cat sat. It was happy.")
                                 (lit "The cat sat! It was very happy.") in
  let similarity := TextComparison.similarity_metrics_of report in
  let summary := TextComparison.change_summary_of report in
  (TextComparison.word_similarity similarity == 0.923)%Q
  /\ (TextComparison.jaccard_similarity similarity == 0.857)%Q
  /\ (TextComparison.preservation_score summary == 97)%Q
  /\ TextComparison.change_level summary = "minimal"%string.
Proof.
  split; [vm_compute; reflexivity |].
  split; [vm_compute; reflexivity |].
  split; vm_compute; reflexivity.
Qed.

End CompareExamples.

(** ** Further properties of the tokenizer and of the mode tables *)

Section Tokenizer.
Context `{UnicodeData}.

Lemma findall_cons (m : Re.matcher) (Hm : Re.sound m) (c : N) (r : str) :
  Re.findall m (c :: r)
  = match m (c :: r) with
    | Some (w, rest) => w :: Re.findall m rest
    | None => Re.findall m r
    end.
Proof.
  unfold Re.findall. rewrite (scan_cons m Hm).
  destruct (m (c :: r)) as [[w rest] |]; reflexivity.
Qed.

Lemma findall_length (m : Re.matcher) (Hm : Re.sound m) (s : str) :
  (length (Re.findall m s) <= length s)%nat.
Proof.
  revert s. apply (sub_ind m Hm).
  - simpl. lia.
  - intros c r w rest E IH. rewrite (findall_cons m Hm), E.
    pose proof (sound_shorter _ _ _ _ Hm E). simpl in *. lia.
  - intros c r E IH. rewrite (findall_cons m Hm), E. simpl. lia.
Qed.

(** The words of a text are at most as many as the characters of the
    lowered text from which they are taken. *)
Theorem words_at_most_characters (text : str) :
  (length (TextAnalytics._split_words text) <= length (Str.lower text))%nat.
Proof. apply findall_length, sound_run. Qed.

(** No sentence of the segmenter is empty, and none begins or ends with
    white space. *)
Theorem sentences_never_empty (text : str) :
  Forall (fun s : str =>
            s <> []
            /\ Window.head_in Char.is_space s = false
            /\ Window.head_in Char.is_space (rev s) = false)
         (TextAnalytics._split_sentences text).
Proof.
  unfold TextAnalytics._split_sentences.
  apply Forall_forall. intros s Hs.
  apply list_elem_of_In, in_map_iff in Hs as (s0 & <- & Hs0).
  apply filter_In in Hs0 as [_ Hne].
  split; [| split; [apply strip_head | apply strip_last]].
  intros E. rewrite E in Hne. discriminate.
Qed.

End Tokenizer.

(** The two target percentages of every mode, known or not, sum to 100. *)
Theorem target_profile_sums_to_100 (mode : str) :
  (Humanizer.ai_generated (Humanizer.get_target_percentages mode)
   + Humanizer.human_written (Humanizer.get_target_percentages mode) = 100)%Z.
Proof. apply (target_percentages_sum mode). Qed.

(** The intensity of every mode, known or not, lies in [0,1]. *)
Theorem intensity_in_unit_interval (mode : str) :
  (0 <= Humanizer.calculate_humanization_intensity mode
   /\ Humanizer.calculate_humanization_intensity mode <= 1)%Q.
Proof.
  unfold Humanizer.calculate_humanization_intensity, Humanizer.intensities.
  simpl.
  repeat match goal with
         | |- context [Str.eqb ?a ?b] => destruct (Str.eqb a b)
         end; split; reflexivity || discriminate.
Qed.

(** ** Rounding keeps the order and commutes with the sign *)

Section RoundingOrder.
Local Open Scope Q_scope.

Lemma round_half_even_mono (x y : Q) :
  x <= y -> (Py.round_half_even x <= Py.round_half_even y)%Z.
Proof.
  intros Hxy.
  pose proof (Qfloor_resp_le _ _ Hxy) as Hf.
  destruct (Z.eq_dec (Qfloor x) (Qfloor y)) as [E | N].
  - unfold Py.round_half_even. cbv zeta. rewrite E.
    destruct (Qcompare_spec (x - inject_Z (Qfloor y)) (1 # 2));
      destruct (Qcompare_spec (y - inject_Z (Qfloor y)) (1 # 2));
      try lra; try lia; destruct (Z.even (Qfloor y)); lia.
  - destruct (round_half_even_cases x) as [[-> _] | [-> _]];
      destruct (round_half_even_cases y) as [[-> _] | [-> _]]; lia.
Qed.

Lemma round_mono (x y : Q) (n : nat) :
  x <= y -> Py.round x n <= Py.round y n.
Proof.
  intros Hxy. unfold Py.round. pose proof (pow10_pos n) as Hp.
  apply Qmult_le_compat_r; [| apply Qlt_le_weak, Qinv_lt_0_compat, Hp].
  rewrite <- Zle_Qle. apply round_half_even_mono.
  apply Qmult_le_compat_r; lra.
Qed.

Lemma round_half_even_opp (x : Q) :
  Py.round_half_even (- x) = (- Py.round_half_even x)%Z.
Proof.
  pose proof (round_half_even_complement x 0 eq_refl) as Hc.
  rewrite (round_half_even_comp (- x) (inject_Z 0 - x)).
  - lia.
  - change (inject_Z 0) with 0. lra.
Qed.

Lemma round_opp (x : Q) (n : nat) : Py.round (- x) n == - Py.round x n.
Proof.
  unfold Py.round.
  rewrite (round_half_even_comp (- x * Py.pow10 n) (- (x * Py.pow10 n)))
    by ring.
  rewrite round_half_even_opp, inject_Z_opp.
  pose proof (pow10_pos n) as Hp. field. lra.
Qed.

Lemma round_nonneg (x : Q) (n : nat) : 0 <= x -> 0 <= Py.round x n.
Proof. intros Hx. apply (round_ge x n 0). exact Hx. Qed.

Lemma round_zero (n : nat) : Py.round 0 n == 0.
Proof. apply (round_Z 0 n). Qed.

Lemma round_unit (x : Q) (n : nat) :
  0 <= x <= 1 -> 0 <= Py.round x n <= 1.
Proof.
  intros [H0 H1]. split; [now apply round_nonneg |].
  apply (round_le x n 1). exact H1.
Qed.

End RoundingOrder.

(** ** The basic statistics, the sentiment and the perplexity of a text *)

Section SetSizes.
Context {K : Type} `{Countable K}.

Lemma size_list_to_set_le (l : list K) :
  size (list_to_set l : gset K) <= length l.
Proof.
  induction l as [| x l IH].
  - rewrite list_to_set_nil, size_empty. reflexivity.
  - rewrite list_to_set_cons, size_union_alt, size_singleton. simpl.
    assert (Hsub : list_to_set l ∖ {[x]} ⊆ (list_to_set l : gset K))
      by (apply subseteq_difference_l; reflexivity).
    apply subseteq_size in Hsub. lia.
Qed.

Lemma size_list_to_set_pos (l : list K) :
  l <> [] -> 0 < size (list_to_set l : gset K).
Proof.
  destruct l as [| x l]; [congruence | intros _].
  rewrite list_to_set_cons, size_union_alt, size_singleton. lia.
Qed.

End SetSizes.

Section Guards.
Local Open Scope Q_scope.

(** [a / b if b > 0 else 0] on counts. *)
Lemma guarded_ratio (a b : nat) :
  (if (0 <? b)%nat then Qn a / Qn b else 0) = TextAnalytics.ratio a b.
Proof.
  unfold TextAnalytics.ratio.
  destruct b; reflexivity.
Qed.

End Guards.

Section BasicStats.
Context `{UnicodeData}.
Local Open Scope Q_scope.

Lemma remove_spaces_length (text : str) :
  (length (TextComparison.remove_spaces text) <= length text)%nat.
Proof. apply filter_length_le. Qed.

(** X5.  The basic statistics of a text are consistent: the distinct words
    are at most the words, the characters that are not spaces at most the
    characters, there is at least one paragraph, no average is negative and
    the vocabulary diversity lies between 0 and 1; a text without words has
    diversity and characters per word 0, and a text without sentences has
    0 words per sentence. *)
Theorem basic_stats_consistent (text : str) :
  let s := TextReport._calculate_basic_stats text in
  (TextReport.unique_word_count s <= TextReport.word_count s)%nat
  /\ (TextReport.character_count_no_spaces s
      <= TextReport.character_count s)%nat
  /\ (1 <= TextReport.paragraph_count s)%nat
  /\ 0 <= TextReport.avg_words_per_sentence s
  /\ 0 <= TextReport.avg_characters_per_word s
  /\ 0 <= TextReport.vocabulary_diversity s <= 1
  /\ (TextReport.word_count s = 0%nat ->
      TextReport.unique_word_count s = 0%nat
      /\ TextReport.vocabulary_diversity s == 0
      /\ TextReport.avg_characters_per_word s == 0)
  /\ (TextReport.sentence_count s = 0%nat ->
      TextReport.avg_words_per_sentence s == 0).
Proof.
  intros s. subst s. unfold TextReport._calculate_basic_stats.
  cbn [TextReport.unique_word_count TextReport.word_count
       TextReport.character_count_no_spaces TextReport.character_count
       TextReport.paragraph_count TextReport.avg_words_per_sentence
       TextReport.avg_characters_per_word TextReport.vocabulary_diversity
       TextReport.sentence_count].
  rewrite !guarded_ratio.
  set (words := TextAnalytics._split_words text).
  assert (Hu : (size (list_to_set (map Str.lower words) : gset str)
                <= length words)%nat).
  { etransitivity; [apply size_list_to_set_le | now rewrite length_map]. }
  split; [exact Hu |].
  split; [apply remove_spaces_length |].
  split; [lia |].
  split; [apply round_nonneg, ratio_nonneg |].
  split; [apply round_nonneg, ratio_nonneg |].
  split; [apply round_unit; split;
          [apply ratio_nonneg | now apply ratio_le_1] |].
  split.
  - intros Hw. split; [lia |]. unfold TextAnalytics.ratio.
    rewrite Hw. simpl. split; apply round_zero.
  - intros Hs. unfold TextAnalytics.ratio. rewrite Hs. simpl.
    apply round_zero.
Qed.

End BasicStats.

Section Sentiment.
Context `{UnicodeData}.
Local Open Scope Q_scope.

Lemma word_in_spec (set : list str) (word : str) :
  TextAnalytics.word_in set word = true <-> In word set.
Proof.
  unfold TextAnalytics.word_in. rewrite existsb_exists. split.
  - intros (x & Hx & E). unfold Str.eqb in E.
    apply bool_decide_eq_true in E. now subst.
  - intros Hin. exists word. split; [exact Hin |].
    unfold Str.eqb. now apply bool_decide_eq_true.
Qed.

(** No word is both in the positive and in the negative list. *)
Lemma sentiment_lists_disjoint (word : str) :
  TextAnalytics.word_in TextReport.positive_words word = true ->
  TextAnalytics.word_in TextReport.negative_words word = false.
Proof.
  intros Hp. apply word_in_spec in Hp.
  assert (Hall : forallb
                   (fun w => negb (TextAnalytics.word_in
                                     TextReport.negative_words w))
                   TextReport.positive_words = true)
    by (vm_compute; reflexivity).
  rewrite forallb_forall in Hall. specialize (Hall word Hp).
  now apply negb_true_iff in Hall.
Qed.

Lemma filter_disjoint_length {A} (p q : A -> bool) (l : list A) :
  (forall x, p x = true -> q x = false) ->
  (length (List.filter p l) + length (List.filter q l) <= length l)%nat.
Proof.
  intros Hd. induction l as [| x l IH]; simpl; [lia |].
  destruct (p x) eqn:Ep.
  - rewrite (Hd x Ep). simpl. lia.
  - destruct (q x); simpl; lia.
Qed.

Lemma signed_share_bounds (p n : nat) :
  (0 < p + n)%nat ->
  -1 <= inject_Z (Z.of_nat p - Z.of_nat n) / Qn (p + n) <= 1.
Proof.
  intros Hpos.
  assert (Hd : 0 < Qn (p + n)) by (apply Qn_pos; lia).
  assert (Hsum : Qn (p + n) == Qn p + Qn n).
  { unfold Qn. rewrite Nat2Z.inj_add, inject_Z_plus. reflexivity. }
  assert (Hdiff : inject_Z (Z.of_nat p - Z.of_nat n) == Qn p - Qn n).
  { unfold Qn, Z.sub. rewrite inject_Z_plus, inject_Z_opp. reflexivity. }
  pose proof (Qn_nonneg p). pose proof (Qn_nonneg n).
  split.
  - apply Qle_shift_div_l; [exact Hd | lra].
  - apply Qle_shift_div_r; [exact Hd | lra].
Qed.

Lemma signed_share_sign (p n : nat) :
  (0 < p + n)%nat ->
  (0 < inject_Z (Z.of_nat p - Z.of_nat n) / Qn (p + n) -> (n < p)%nat)
  /\ (inject_Z (Z.of_nat p - Z.of_nat n) / Qn (p + n) < 0 -> (p < n)%nat).
Proof.
  intros Hpos.
  assert (Hd : 0 < Qn (p + n)) by (apply Qn_pos; lia).
  split; intros Hs.
  - destruct (Nat.lt_ge_cases n p) as [Hlt | Hge]; [exact Hlt | exfalso].
    assert (Hle : inject_Z (Z.of_nat p - Z.of_nat n) <= 0).
    { change 0 with (inject_Z 0). rewrite <- Zle_Qle. lia. }
    assert (Hq : inject_Z (Z.of_nat p - Z.of_nat n) / Qn (p + n) <= 0).
    { apply Qle_shift_div_r; [exact Hd | lra]. }
    lra.
  - destruct (Nat.lt_ge_cases p n) as [Hlt | Hge]; [exact Hlt | exfalso].
    assert (Hle : 0 <= inject_Z (Z.of_nat p - Z.of_nat n)).
    { change 0 with (inject_Z 0). rewrite <- Zle_Qle. lia. }
    assert (Hq : 0 <= inject_Z (Z.of_nat p - Z.of_nat n) / Qn (p + n)).
    { apply Qle_shift_div_l; [exact Hd | lra]. }
    lra.
Qed.

(** X6.  The sentiment of a text: the score lies between -1 and 1
    and the share of sentiment words between 0 and 1 (no word counts as
    positive and as negative); the label is positive only when the positive
    words outnumber the negative ones, negative only in the opposite case;
    without any sentiment word the score is 0 and the label neutral. *)
Theorem sentiment_consistent (text : str) :
  let s := TextReport._analyze_sentiment text in
  let p := TextReport.positive_word_count s in
  let n := TextReport.negative_word_count s in
  (p + n <= length (TextAnalytics._split_words text))%nat
  /\ -1 <= TextReport.sentiment_score s <= 1
  /\ 0 <= TextReport.sentiment_ratio s <= 1
  /\ (TextReport.sentiment_label s = "positive"%string -> (n < p)%nat)
  /\ (TextReport.sentiment_label s = "negative"%string -> (p < n)%nat)
  /\ ((p + n = 0)%nat ->
      TextReport.sentiment_score s == 0
      /\ TextReport.sentiment_label s = "neutral"%string)
  /\ ((0 < p)%nat -> n = 0%nat ->
      TextReport.sentiment_score s == 1
      /\ TextReport.sentiment_label s = "positive"%string).
Proof.
  intros s p n. subst p n s. unfold TextReport._analyze_sentiment.
  set (words := map Str.lower (TextAnalytics._split_words text)).
  set (p := length (List.filter
                      (TextAnalytics.word_in TextReport.positive_words)
                      words)).
  set (n := length (List.filter
                      (TextAnalytics.word_in TextReport.negative_words)
                      words)).
  assert (Hpn : (p + n <= length words)%nat)
    by (apply filter_disjoint_length, sentiment_lists_disjoint).
  assert (Hlen : length words = length (TextAnalytics._split_words text))
    by (unfold words; apply length_map).
  assert (Hratio : 0 <= match words with
                         | [] => 0
                         | _ :: _ => Py.round (Qn (p + n) / Py.len words) 3
                         end <= 1).
  { destruct words as [| w ws] eqn:Ew; [lra |].
    assert (Hl : 0 < Py.len (w :: ws))
      by (apply (Qn_pos (length (w :: ws))); simpl; lia).
    apply round_unit. split.
    - apply Qdiv_nonneg; [apply Qn_nonneg | exact Hl].
    - apply Qdiv_le_1; [apply (Qn_le _ _ Hpn) | exact Hl]. }
  destruct (Nat.eqb_spec (p + n) 0) as [Hz | Hnz];
    cbn [TextReport.positive_word_count TextReport.negative_word_count
         TextReport.sentiment_score TextReport.sentiment_label
         TextReport.sentiment_ratio].
  - split; [lia |].
    split; [pose proof (round_zero 3); lra |].
    split; [exact Hratio |].
    split; [discriminate |]. split; [discriminate |].
    split; [intros _; split; [apply round_zero | reflexivity] | lia].
  - assert (Hpos : (0 < p + n)%nat) by lia.
    pose proof (signed_share_bounds p n Hpos) as [Hlo Hhi].
    pose proof (signed_share_sign p n Hpos) as [Hsp Hsn].
    set (score := inject_Z (Z.of_nat p - Z.of_nat n) / Qn (p + n)) in *.
    split; [lia |].
    split.
    { split; [apply (round_ge score 3 (-1)), Hlo
             | apply (round_le score 3 1), Hhi]. }
    split; [exact Hratio |].
    unfold TextReport.label_of.
    split.
    { destruct (Qlt_le_dec 0.1 score) as [Hgt | Hle].
      - intros _. apply Hsp. lra.
      - destruct (Qlt_le_dec score (-0.1)); discriminate. }
    split.
    { destruct (Qlt_le_dec 0.1 score) as [Hgt | Hle]; [discriminate |].
      destruct (Qlt_le_dec score (-0.1)) as [Hlt | Hge]; [| discriminate].
      intros _. apply Hsn. lra. }
    split; [lia |].
    intros Hp Hn.
    assert (Hone : score == 1).
    { unfold score. rewrite Hn, Nat.add_0_r, Z.sub_0_r.
      fold (Qn p). field.
      pose proof (Qn_pos p Hp). lra. }
    split.
    + rewrite (round_comp score 1 3 Hone). apply (round_Z 1 3).
    + destruct (Qlt_le_dec 0.1 score) as [Hgt | Hle]; [reflexivity | lra].
Qed.

End Sentiment.
Section Syllables.
Context `{UnicodeData}.

Let bit (b : bool) : nat := if b then 1 else 0.

(** A syllable is counted where a vowel follows a letter that is not one:
    two counted vowels are never neighbours. *)
Lemma syllable_fold_bound (word : str) :
  forall (c : nat) (b : bool),
    let st := fold_left TextAnalytics.syllable_step word (c, b) in
    2 * fst st + bit b <= 2 * c + length word + bit (snd st)
    /\ c <= fst st.
Proof.
  induction word as [| x word IH]; intros c b; simpl.
  - lia.
  - destruct (IH (if Char.is_vowel x && negb b then S c else c)
                 (Char.is_vowel x)) as [IH1 IH2].
    cbv zeta in IH1, IH2.
    destruct (Char.is_vowel x), b; simpl in *; lia.
Qed.

Lemma count_syllables_range (word : str) :
  1 <= TextAnalytics._count_syllables word
  /\ TextAnalytics._count_syllables word
     <= Nat.max 1 ((length (Str.lower word) + 1) / 2).
Proof.
  unfold TextAnalytics._count_syllables. cbv zeta.
  pose proof (syllable_fold_bound (Str.lower word) 0 false) as [Hb _].
  cbv zeta in Hb.
  set (n := fst (fold_left TextAnalytics.syllable_step (Str.lower word)
                           (0, false))) in *.
  assert (Hn : n <= (length (Str.lower word) + 1) / 2).
  { apply Nat.div_le_lower_bound; [lia |].
    destruct (snd _); simpl in Hb; lia. }
  split; [lia |].
  destruct (Str.ends_with 101 (Str.lower word) && (1 <? n)); lia.
Qed.

(** X7.  A word has at least one syllable, and at most half as
    many syllables as its lowered form has characters, rounded up (one for
    the empty word); so the syllables of a text are at least as many as
    its words. *)
Theorem syllables_bounds :
  (forall word : str,
      1 <= TextAnalytics._count_syllables word
      /\ TextAnalytics._count_syllables word
         <= Nat.max 1 ((length (Str.lower word) + 1) / 2))
  /\ (forall words : list str,
         length words
         <= TextAnalytics.sum_nat
              (map TextAnalytics._count_syllables words)).
Proof.
  split; [apply count_syllables_range |].
  induction words as [| w words IH]; simpl; [lia |].
  pose proof (count_syllables_range w) as [H1 _]. lia.
Qed.

End Syllables.

Section MetricGroups.
Context {uni : UnicodeData} {fsq : FloatSqrt} {flg : FloatLog}.
Local Open Scope Q_scope.

Lemma error_dict_lookup (msg key : string) :
  is_Some (error_dict msg !! key) <-> key = "error"%string.
Proof.
  unfold error_dict. split.
  - intros [v Hv]. apply lookup_singleton_Some in Hv as [E _]. now symmetry.
  - intros ->. rewrite lookup_singleton_eq. eauto.
Qed.


(** The variance of equal numbers is 0. *)
Lemma sum_map_zero {A} (f : A -> Q) (l : list A) :
  (forall x, In x l -> f x == 0) -> Statistics.sum (map f l) == 0.
Proof.
  induction l as [| x l IH]; intros Hf; simpl; [reflexivity |].
  rewrite (Hf x) by now left. rewrite IH; [reflexivity |].
  intros y Hy. apply Hf. now right.
Qed.

Lemma sum_repeat (q : Q) (n : nat) :
  Statistics.sum (repeat q n) == Qn n * q.
Proof.
  induction n as [| n IH].
  - simpl. unfold Qn. simpl. ring.
  - cbn [repeat Statistics.sum fold_right]. fold (Statistics.sum (repeat q n)).
    rewrite IH. unfold Qn. rewrite Nat2Z.inj_succ. unfold Z.succ.
    rewrite inject_Z_plus. ring.
Qed.

Lemma variance_repeat (q : Q) (n : nat) :
  TextAnalytics.variance_or_zero (repeat q n) == 0.
Proof.
  unfold TextAnalytics.variance_or_zero. rewrite repeat_length.
  destruct (Nat.ltb_spec 1 n) as [Hn | _]; [| reflexivity].
  unfold Statistics.variance. cbv zeta.
  assert (Hmu : Statistics.mean (repeat q n) == q).
  { unfold Statistics.mean, Py.len. rewrite sum_repeat, repeat_length.
    fold (Qn n). field. pose proof (Qn_pos n ltac:(lia)). lra. }
  rewrite sum_map_zero.
  - unfold Qdiv. ring.
  - intros x Hx. apply repeat_spec in Hx. subst x. rewrite Hmu. ring.
Qed.

Lemma map_constant {A B} (f : A -> B) (b : B) (l : list A) :
  Forall (fun x => f x = b) l -> map f l = repeat b (length l).
Proof.
  induction 1 as [| x l Hx _ IH]; simpl; [reflexivity |].
  now rewrite Hx, IH.
Qed.

(** X9.  A text whose sentences all have the same number of words,
    in particular a text of one sentence or of none, has sentence
    uniformity 1, hence an AI likelihood of at least 30, never the level
    very_low. *)
Theorem uniform_sentences_ai_floor (text : str) (k : nat) :
  Forall (fun s : str => length (TextAnalytics._split_words s) = k)
         (TextAnalytics._split_sentences text) ->
  let d := TextAnalytics._analyze_ai_indicators text in
  exists u a : Q,
    d !! "sentence_uniformity"%string = Some (PNum u)
    /\ d !! "ai_likelihood_score"%string = Some (PNum a)
    /\ u == 1 /\ 30 <= a <= 100
    /\ d !! "ai_likelihood_level"%string <> Some (PStr (lit "very_low")).
Proof.
  intros Hk d. subst d. unfold TextAnalytics._analyze_ai_indicators.
  cbv zeta. unfold TextAnalytics.sentence_lengths_of.
  rewrite (map_constant
             (fun sentence => Qn (length (TextAnalytics._split_words sentence)))
             (Qn k)).
  2:{ eapply Forall_impl; [exact Hk |]. intros s Hs. simpl in Hs.
      now rewrite Hs. }
  pose proof (variance_repeat (Qn k)
                (length (TextAnalytics._split_sentences text))) as Hv.
  destruct (Qlt_le_dec 0 _) as [Hpos | _]; [lra |].
  eexists _, _. split; [reflexivity |]. split; [reflexivity |].
  split; [apply (round_Z 1 3) |].
  match goal with
  | |- 30 <= Py.round ?x 2 <= 100 /\ _ =>
      assert (Hx : 30 <= x <= 100)
  end.
  { unfold TextAnalytics.ai_score_of.
    match goal with
    | |- _ <= (?f * 0.3 + ?r * 0.2 + 1 * 0.3 + Py.min ?t 1 * 0.2) * 100 <= _ =>
        assert (Hf : 0 <= f <= 1)
          by (split; [apply ratio_nonneg
                     | apply ratio_le_1, filter_length_le]);
        assert (Hr : 0 <= r <= 1)
          by (split; [apply ratio_nonneg |]; apply ratio_le_1;
              rewrite <- length_map_to_list; apply filter_length_le);
        assert (Ht : 0 <= t) by apply ratio_nonneg
    end.
    unfold Py.min. destruct (Qlt_le_dec 1 _); lra. }
  split; [split; [apply (round_ge _ 2 30), Hx
                 | apply (round_le _ 2 100), Hx] |].
  rewrite lookup_insert_ne by discriminate.
  rewrite lookup_insert_ne by discriminate.
  rewrite lookup_insert_ne by discriminate.
  rewrite lookup_insert_ne by discriminate.
  rewrite lookup_insert_ne by discriminate.
  rewrite lookup_insert_eq. intros E.
  unfold TextAnalytics._get_ai_likelihood_level in E.
  match type of E with
  | context [Qle_bool 80 ?x] =>
      assert (H20 : Qle_bool 20 x = true) by (apply Qle_bool_iff; lra);
      destruct (Qle_bool 80 x); [discriminate |];
      destruct (Qle_bool 60 x); [discriminate |];
      destruct (Qle_bool 40 x); [discriminate |];
      rewrite H20 in E; discriminate
  end.
Qed.

Lemma statistics_sum_nonneg (l : list Q) :
  Forall (fun x => 0 <= x) l -> 0 <= Statistics.sum l.
Proof.
  unfold Statistics.sum.
  induction 1 as [| x l Hx _ IH]; simpl; lra.
Qed.

Lemma sentence_lengths_nonneg (sentences : list str) :
  Forall (fun x => 0 <= x) (TextAnalytics.sentence_lengths_of sentences).
Proof.
  unfold TextAnalytics.sentence_lengths_of. apply Forall_forall.
  intros x Hx. apply list_elem_of_In, in_map_iff in Hx as (s & <- & _).
  apply Qn_nonneg.
Qed.

(** X10.  The complexity group of a text: the shares of long
    words and of formal words lie between 0 and 1, no value is negative,
    and for a text without words the three ratios and the score are 0. *)
Theorem complexity_ranges (text : str) :
  let d := TextAnalytics._analyze_complexity text in
  exists cw avg var fw pd sc : Q,
    d !! "complex_word_ratio"%string = Some (PNum cw)
    /\ d !! "average_sentence_length"%string = Some (PNum avg)
    /\ d !! "sentence_length_variance"%string = Some (PNum var)
    /\ d !! "formal_word_ratio"%string = Some (PNum fw)
    /\ d !! "punctuation_density"%string = Some (PNum pd)
    /\ d !! "complexity_score"%string = Some (PNum sc)
    /\ 0 <= cw <= 1 /\ 0 <= fw <= 1
    /\ 0 <= avg /\ 0 <= var /\ 0 <= pd /\ 0 <= sc
    /\ (TextAnalytics._split_words text = [] ->
        cw == 0 /\ fw == 0 /\ pd == 0 /\ sc == 0).
Proof.
  intros d. subst d. unfold TextAnalytics._analyze_complexity. cbv zeta.
  do 6 eexists.
  do 6 (split; [reflexivity |]).
  split; [apply round_unit; split;
          [apply ratio_nonneg | apply ratio_le_1, filter_length_le] |].
  split; [apply round_unit; split;
          [apply ratio_nonneg | apply ratio_le_1, filter_length_le] |].
  split.
  { apply round_nonneg.
    pose proof (sentence_lengths_nonneg
                  (TextAnalytics._split_sentences text)) as Hall.
    destruct (TextAnalytics.sentence_lengths_of _) as [| x l]; [lra |].
    unfold Statistics.mean. apply Qdiv_nonneg.
    - apply statistics_sum_nonneg, Hall.
    - apply (Qn_pos (length (x :: l))). simpl. lia. }
  split; [apply round_nonneg, variance_or_zero_nonneg |].
  split; [apply round_nonneg, ratio_nonneg |].
  split.
  { apply round_nonneg.
    assert (Hsum : forall a b c : Q,
               0 <= a -> 0 <= b -> 0 <= c -> 0 <= (a + b + c) * 100)
      by (intros; lra).
    apply Hsum; apply ratio_nonneg. }
  intros Hw. rewrite Hw. simpl. unfold TextAnalytics.ratio. simpl.
  split; [apply round_zero |]. split; [apply round_zero |].
  split; [apply round_zero |].
  rewrite (round_comp _ 0 2) by ring. apply round_zero.
Qed.

Lemma count_occurrence_fold (words : list str) (word : str) :
  forall m : gmap str nat,
    (default O (fold_left TextReport.count_occurrence words m !! word)
     <= default O (m !! word) + length words)%nat.
Proof.
  induction words as [| w words IH]; intros m; simpl; [lia |].
  etransitivity; [apply IH |]. unfold TextReport.count_occurrence.
  destruct (decide (w = word)) as [-> | Hne].
  - rewrite lookup_insert_eq. simpl. lia.
  - rewrite lookup_insert_ne by exact Hne. lia.
Qed.

Lemma builtin_sum_nonpos (xs : list Q) :
  Forall (fun x => x <= 0) xs -> Builtins.sum xs <= 0.
Proof.
  unfold Builtins.sum. intros Hxs.
  assert (Hgen : forall acc : Q, acc <= 0 -> fold_left Qplus xs acc <= 0).
  { induction Hxs as [| x xs Hx _ IH]; intros acc Hacc; simpl;
      [exact Hacc |].
    apply IH. lra. }
  apply Hgen. lra.
Qed.

Lemma entropy_nonneg (words : list str) :
  0 <= TextReport.entropy_of words.
Proof.
  unfold TextReport.entropy_of. cbv zeta.
  assert (Hs : Builtins.sum
                 (map (fun p => p * flog2 p)
                      (List.filter TextReport.is_positive
                         (map (fun word =>
                                 Qn (default O
                                       (fold_left TextReport.count_occurrence
                                                  words ∅ !! word))
                                 / Qn (length words)) words))) <= 0).
  { apply builtin_sum_nonpos. apply Forall_forall. intros x Hx.
    apply list_elem_of_In, in_map_iff in Hx as (p & <- & Hp).
    apply filter_In in Hp as [Hp Hpos].
    unfold TextReport.is_positive in Hpos.
    destruct (Qlt_le_dec 0 p) as [Hgt | _]; [| discriminate].
    apply in_map_iff in Hp as (w & <- & Hw).
    assert (Hle : Qn (default O
                        (fold_left TextReport.count_occurrence words ∅ !! w))
                  / Qn (length words) <= 1).
    { apply Qdiv_le_1.
      - apply Qn_le. pose proof (count_occurrence_fold words w ∅) as Hc.
        rewrite lookup_empty in Hc. simpl in Hc. exact Hc.
      - apply Qn_pos. destruct words; [destruct Hw | simpl; lia]. }
    pose proof (flog2_nonpos _ Hgt Hle) as Hlog.
    set (q := Qn _ / Qn _) in *. set (lg := flog2 q) in *.
    assert (Hm : 0 <= q * (- lg)) by (apply Qmult_le_0_compat; lra).
    lra. }
  lra.
Qed.


End MetricGroups.

(** A text of one sentence. *)
Lemma uniform_sentences_ai_floor_witness :
  let d := TextAnalytics._analyze_ai_indicators (H := ascii_data)
             (lit "The cat sat.") in
  exists a : Q,
    d !! "ai_likelihood_score"%string = Some (PNum a) /\ (30 <= a <= 100)%Q.
Proof.
  destruct (uniform_sentences_ai_floor (uni := ascii_data)
              (lit "The cat sat.") 3)
    as (u & a & _ & Ha & _ & Hb & _).
  - vm_compute. repeat constructor.
  - exists a. split; [exact Ha | exact Hb].
Defined.


(** ** The statistics of a batch *)

Section ListNumbers.
Local Open Scope Q_scope.

Lemma builtin_sum_acc (xs : list Q) :
  forall acc : Q, fold_left Qplus xs acc == acc + Statistics.sum xs.
Proof.
  unfold Statistics.sum.
  induction xs as [| x xs IH]; intros acc; simpl; [ring |].
  rewrite IH. ring.
Qed.

Lemma builtin_sum_statistics (xs : list Q) :
  Builtins.sum xs == Statistics.sum xs.
Proof. unfold Builtins.sum. rewrite builtin_sum_acc. ring. Qed.

Lemma min_from_le (xs : list Q) :
  forall x : Q,
    Builtins.min_from x xs <= x
    /\ Forall (fun y => Builtins.min_from x xs <= y) xs.
Proof.
  unfold Builtins.min_from.
  induction xs as [| y ys IH]; intros x; simpl.
  - split; [lra | constructor].
  - destruct (IH (if Qlt_le_dec y x then y else x)) as [H1 H2].
    destruct (Qlt_le_dec y x) as [Hlt | Hge].
    + split; [lra |]. constructor; [exact H1 | exact H2].
    + split; [exact H1 |]. constructor; [lra | exact H2].
Qed.

Lemma max_from_ge (xs : list Q) :
  forall x : Q,
    x <= Builtins.max_from x xs
    /\ Forall (fun y => y <= Builtins.max_from x xs) xs.
Proof.
  unfold Builtins.max_from.
  induction xs as [| y ys IH]; intros x; simpl.
  - split; [lra | constructor].
  - destruct (IH (if Qlt_le_dec x y then y else x)) as [H1 H2].
    destruct (Qlt_le_dec x y) as [Hlt | Hge].
    + split; [lra |]. constructor; [exact H1 | exact H2].
    + split; [exact H1 |]. constructor; [lra | exact H2].
Qed.

Lemma min_from_in (xs : list Q) :
  forall x : Q, In (Builtins.min_from x xs) (x :: xs).
Proof.
  unfold Builtins.min_from.
  induction xs as [| y ys IH]; intros x; simpl; [now left |].
  destruct (IH (if Qlt_le_dec y x then y else x)) as [E | Hin].
  - rewrite <- E. destruct (Qlt_le_dec y x); [right; now left | now left].
  - right. now right.
Qed.

Lemma max_from_in (xs : list Q) :
  forall x : Q, In (Builtins.max_from x xs) (x :: xs).
Proof.
  unfold Builtins.max_from.
  induction xs as [| y ys IH]; intros x; simpl; [now left |].
  destruct (IH (if Qlt_le_dec x y then y else x)) as [E | Hin].
  - rewrite <- E. destruct (Qlt_le_dec x y); [right; now left | now left].
  - right. now right.
Qed.

Lemma Qn_succ (n : nat) : Qn (S n) == Qn n + 1.
Proof.
  unfold Qn. rewrite Nat2Z.inj_succ. unfold Z.succ.
  rewrite inject_Z_plus. reflexivity.
Qed.

Lemma statistics_sum_bounds (lo hi : Q) (xs : list Q) :
  Forall (fun y => lo <= y <= hi) xs ->
  Qn (length xs) * lo <= Statistics.sum xs <= Qn (length xs) * hi.
Proof.
  unfold Statistics.sum.
  induction 1 as [| x xs Hx _ IH].
  - cbn [length fold_right]. change (Qn 0) with 0. lra.
  - cbn [length fold_right]. rewrite Qn_succ. lra.
Qed.

Lemma statistics_sum_upper (hi : Q) (xs : list Q) :
  Forall (fun y => y <= hi) xs -> Statistics.sum xs <= Qn (length xs) * hi.
Proof.
  unfold Statistics.sum.
  induction 1 as [| x xs Hx _ IH].
  - cbn [length fold_right]. change (Qn 0) with 0. lra.
  - cbn [length fold_right]. rewrite Qn_succ. lra.
Qed.

Lemma statistics_sum_le (xs ys : list Q) :
  Forall2 Qle xs ys -> Statistics.sum xs <= Statistics.sum ys.
Proof.
  unfold Statistics.sum.
  induction 1 as [| x y xs ys Hxy _ IH]; simpl; lra.
Qed.

Lemma len_pos {A} (xs : list A) : xs <> [] -> 0 < Py.len xs.
Proof.
  intros Hne. unfold Py.len. apply (Qn_pos (length xs)).
  destruct xs; [congruence | simpl; lia].
Qed.

(** The mean of a list that is not empty lies between any two bounds of
    its elements. *)
Lemma mean_bounds (lo hi : Q) (xs : list Q) :
  xs <> [] ->
  Forall (fun y => lo <= y <= hi) xs ->
  lo <= Builtins.sum xs / Py.len xs <= hi.
Proof.
  intros Hne Hall. pose proof (len_pos xs Hne) as Hlen.
  pose proof (statistics_sum_bounds lo hi xs Hall) as [Hlo Hhi].
  rewrite builtin_sum_statistics.
  unfold Py.len in *. fold (Qn (length xs)) in *.
  split.
  - apply Qle_shift_div_l; [exact Hlen | lra].
  - apply Qle_shift_div_r; [exact Hlen | lra].
Qed.

Lemma mean_upper (hi : Q) (xs : list Q) :
  xs <> [] ->
  Forall (fun y => y <= hi) xs ->
  Builtins.sum xs / Py.len xs <= hi.
Proof.
  intros Hne Hall. pose proof (len_pos xs Hne) as Hlen.
  pose proof (statistics_sum_upper hi xs Hall) as Hhi.
  rewrite builtin_sum_statistics.
  unfold Py.len in *. fold (Qn (length xs)) in *.
  apply Qle_shift_div_r; [exact Hlen | lra].
Qed.

Lemma mean_comp (xs ys : list Q) :
  Forall2 Qeq xs ys ->
  Builtins.sum xs / Py.len xs == Builtins.sum ys / Py.len ys.
Proof.
  intros Hxy.
  assert (Hs : Statistics.sum xs == Statistics.sum ys).
  { unfold Statistics.sum.
    induction Hxy as [| x y xs ys Exy _ IH]; simpl; [reflexivity |].
    now rewrite Exy, IH. }
  rewrite !builtin_sum_statistics, Hs. unfold Py.len.
  now rewrite (Forall2_length _ _ _ Hxy).
Qed.

End ListNumbers.

Section BatchStatistics.
Local Open Scope Q_scope.

Lemma Forall_map_in {A} (f : A -> Q) (P : Q -> Prop) (l : list A) :
  (forall x, In x l -> P (f x)) -> Forall P (map f l).
Proof.
  intros Hp. apply Forall_forall. intros y Hy.
  apply list_elem_of_In, in_map_iff in Hy as (x & <- & Hx). now apply Hp.
Qed.

Lemma Forall2_map_in {A} (f g : A -> Q) (R : Q -> Q -> Prop) (l : list A) :
  (forall x, In x l -> R (f x) (g x)) -> Forall2 R (map f l) (map g l).
Proof.
  induction l as [| x l IH]; intros Hr; simpl; constructor.
  - apply Hr. now left.
  - apply IH. intros y Hy. apply Hr. now right.
Qed.

Lemma ai_accuracy_le (r : Batch.item_success) :
  BatchReport.ai_accuracy_of r <= 100.
Proof.
  unfold BatchReport.ai_accuracy_of.
  pose proof (Qabs_nonneg (inject_Z (Batch.target_ai_score r)
                           - Batch.achieved_ai_score r)). lra.
Qed.

Lemma human_accuracy_le (r : Batch.item_success) :
  BatchReport.human_accuracy_of r <= 100.
Proof.
  unfold BatchReport.human_accuracy_of.
  pose proof (Qabs_nonneg (inject_Z (Batch.target_human_score r)
                           - Batch.achieved_human_score r)). lra.
Qed.

(** X12.  The statistics of a batch: none for no result;
    otherwise the minimum, the average and the maximum of the processing
    times are in this order and the extremes are times of results, no
    accuracy exceeds 100, the average change of length is not negative
    when no text got shorter, and the change in percent is 0 when every
    original text is empty. *)
Theorem batch_statistics_order (rs : list Batch.item_success) :
  (rs = [] -> BatchReport._calculate_batch_statistics rs = None)
  /\ (rs <> [] ->
      exists s : BatchReport.batch_statistics,
        BatchReport._calculate_batch_statistics rs = Some s
        /\ (let t := BatchReport.processing_time s in
            BatchReport.minimum_ms t <= BatchReport.average_ms t
            /\ BatchReport.average_ms t <= BatchReport.maximum_ms t
            /\ (exists r, In r rs
                  /\ BatchReport.minimum_ms t
                     = Py.round (Batch.processing_time_ms r) 2)
            /\ (exists r, In r rs
                  /\ BatchReport.maximum_ms t
                     = Py.round (Batch.processing_time_ms r) 2))
        /\ (let a := BatchReport.accuracy s in
            BatchReport.average_ai_accuracy a <= 100
            /\ BatchReport.average_human_accuracy a <= 100
            /\ BatchReport.overall_accuracy a <= 100)
        /\ (let l := BatchReport.text_length s in
            ((forall r, In r rs ->
                (Batch.original_length r <= Batch.humanized_length r)%nat) ->
             0 <= BatchReport.average_length_change l)
            /\ ((forall r, In r rs -> Batch.original_length r = 0%nat) ->
                BatchReport.length_change_percentage l = 0))).
Proof.
  split; [intros ->; reflexivity |].
  intros Hne. destruct rs as [| first rest]; [congruence |].
  unfold BatchReport._calculate_batch_statistics.
  set (rs := first :: rest) in *.
  eexists. split; [reflexivity |].
  cbn [BatchReport.processing_time BatchReport.accuracy
       BatchReport.text_length BatchReport.minimum_ms BatchReport.average_ms
       BatchReport.maximum_ms BatchReport.average_ai_accuracy
       BatchReport.average_human_accuracy BatchReport.overall_accuracy
       BatchReport.average_length_change
       BatchReport.length_change_percentage].
  split; [| split].
  - set (times := map Batch.processing_time_ms rs).
    set (lo := Builtins.min_from (Batch.processing_time_ms first)
                 (map Batch.processing_time_ms rest)).
    set (hi := Builtins.max_from (Batch.processing_time_ms first)
                 (map Batch.processing_time_ms rest)).
    assert (Hall : Forall (fun y => lo <= y <= hi) times).
    { pose proof (min_from_le (map Batch.processing_time_ms rest)
                    (Batch.processing_time_ms first)) as [Hl1 Hl2].
      pose proof (max_from_ge (map Batch.processing_time_ms rest)
                    (Batch.processing_time_ms first)) as [Hh1 Hh2].
      unfold times, rs. simpl. constructor; [split; assumption |].
      rewrite Forall_forall in Hl2, Hh2. apply Forall_forall.
      intros y Hy. split; [now apply Hl2 | now apply Hh2]. }
    assert (Htimes : times <> []) by discriminate.
    pose proof (mean_bounds lo hi times Htimes Hall) as [Hlo Hhi].
    split; [now apply round_mono |]. split; [now apply round_mono |].
    split.
    + pose proof (min_from_in (map Batch.processing_time_ms rest)
                    (Batch.processing_time_ms first)) as Hin.
      change (Batch.processing_time_ms first
              :: map Batch.processing_time_ms rest)
        with (map Batch.processing_time_ms rs) in Hin.
      apply in_map_iff in Hin as (r & Er & Hr).
      exists r. split; [exact Hr |]. unfold lo. now rewrite <- Er.
    + pose proof (max_from_in (map Batch.processing_time_ms rest)
                    (Batch.processing_time_ms first)) as Hin.
      change (Batch.processing_time_ms first
              :: map Batch.processing_time_ms rest)
        with (map Batch.processing_time_ms rs) in Hin.
      apply in_map_iff in Hin as (r & Er & Hr).
      exists r. split; [exact Hr |]. unfold hi. now rewrite <- Er.
  - assert (Ha : Builtins.sum (map BatchReport.ai_accuracy_of rs)
                 / Py.len (map BatchReport.ai_accuracy_of rs) <= 100).
    { apply mean_upper; [discriminate |].
      apply Forall_map_in. intros r _. apply ai_accuracy_le. }
    assert (Hh : Builtins.sum (map BatchReport.human_accuracy_of rs)
                 / Py.len (map BatchReport.human_accuracy_of rs) <= 100).
    { apply mean_upper; [discriminate |].
      apply Forall_map_in. intros r _. apply human_accuracy_le. }
    split; [apply (round_le _ 2 100), Ha |].
    split; [apply (round_le _ 2 100), Hh |].
    apply (round_le _ 2 100). change (inject_Z 100) with 100.
    apply Qle_shift_div_r; [reflexivity | lra].
  - set (os := map (fun r => Qn (Batch.original_length r)) rs).
    set (hs := map (fun r => Qn (Batch.humanized_length r)) rs).
    assert (Hos : os <> []) by discriminate.
    pose proof (len_pos os Hos) as Hpos.
    assert (Hlen : Py.len hs = Py.len os)
      by (unfold Py.len, hs, os; now rewrite !length_map).
    split.
    + intros Hgrow. apply round_nonneg.
      assert (Hs : Statistics.sum os <= Statistics.sum hs).
      { apply statistics_sum_le. unfold os, hs. apply Forall2_map_in.
        intros r Hr. apply Qn_le, Hgrow, Hr. }
      rewrite !builtin_sum_statistics, Hlen.
      assert (Hd : Statistics.sum hs / Py.len os
                   - Statistics.sum os / Py.len os
                   == (Statistics.sum hs - Statistics.sum os) / Py.len os)
        by (field; lra).
      rewrite Hd. apply Qdiv_nonneg; [lra | exact Hpos].
    + intros Hzero.
      assert (Hs : Statistics.sum os == 0).
      { unfold os. apply sum_map_zero. intros r Hr.
        rewrite (Hzero r Hr). reflexivity. }
      destruct (Qlt_le_dec 0 (Builtins.sum os / Py.len os)) as [Hgt | _];
        [| reflexivity].
      rewrite builtin_sum_statistics, Hs in Hgt.
      unfold Qdiv in Hgt. rewrite Qmult_0_l in Hgt. lra.
Qed.

End BatchStatistics.

(** ** The results and the job table of a batch, for any schedule *)

Section BatchShape.
Local Open Scope Q_scope.

Lemma collect_fold_any
      (texts : list str) (mode : str) (draws : nat -> Humanizer.draw)
      (batch_id : str) (schedule : list nat) :
  forall (acc : list Batch.item_result) (tbl : gmap str Batch.job),
    fold_left (Batch.collect texts mode batch_id draws) schedule (acc, tbl)
    = (acc ++ BatchReport.collected texts mode draws schedule,
       fold_left
         (fun t r => alter (Batch.count_item (Batch.success r)) batch_id t)
         (BatchReport.collected texts mode draws schedule) tbl).
Proof.
  induction schedule as [| i schedule IH]; intros acc tbl; simpl.
  - now rewrite app_nil_r.
  - unfold BatchReport.collected. simpl.
    fold (BatchReport.collected texts mode draws schedule).
    destruct (texts !! i) as [text |]; simpl.
    + rewrite IH, <- app_assoc. reflexivity.
    + apply IH.
Qed.

Lemma collected_from
      (texts : list str) (mode : str) (draws : nat -> Humanizer.draw)
      (schedule : list nat) (x : Batch.item_result) :
  In x (BatchReport.collected texts mode draws schedule) ->
  exists (text : str) (i : nat),
    texts !! i = Some text
    /\ x = Batch._process_single_text text mode i (draws i).
Proof.
  unfold BatchReport.collected. intros Hx.
  apply in_flat_map in Hx as (i & _ & Hi).
  destruct (texts !! i) as [text |] eqn:E; [| destruct Hi].
  destruct Hi as [<- | []]. now exists text, i.
Qed.

Lemma lookup_fold_alter_ne (batch_id id : str) (rs : list Batch.item_result) :
  id <> batch_id ->
  forall tbl : gmap str Batch.job,
    fold_left
      (fun t r => alter (Batch.count_item (Batch.success r)) batch_id t)
      rs tbl !! id
    = tbl !! id.
Proof.
  intros Hne. induction rs as [| r rs IH]; intros tbl; simpl; [reflexivity |].
  rewrite IH. apply lookup_alter_ne. congruence.
Qed.

Lemma process_batch_any
      (texts : list str) (mode : str) (batch_id : option str)
      (clk : Batch.clock) (schedule : list nat)
      (draws : nat -> Humanizer.draw) (tbl : gmap str Batch.job) :
  texts <> [] -> (length texts <= 50)%nat ->
  exists r : Batch.batch_result,
    Batch.process_batch texts mode batch_id clk schedule draws tbl
    = (Batch.Accepted r,
       alter (Batch.finish (Batch.at_end clk))
         (BatchReport.chosen_id batch_id clk)
         (fold_left
            (fun t r =>
               alter (Batch.count_item (Batch.success r))
                     (BatchReport.chosen_id batch_id clk) t)
            (BatchReport.collected texts mode draws schedule)
            (<[BatchReport.chosen_id batch_id clk
               := BatchReport.started texts clk]> tbl)))
    /\ Batch.batch_id r = BatchReport.chosen_id batch_id clk
    /\ Batch.results r
       = Batch.sort_by_index
           (BatchReport.collected texts mode draws schedule)
    /\ Batch.total_texts r = length texts
    /\ Batch.processing_time r = Batch.at_end clk - Batch.at_start clk.
Proof.
  intros Hne Hlen. unfold Batch.process_batch.
  destruct texts as [| t ts] eqn:Et; [congruence |]. rewrite <- Et in *.
  destruct (Nat.ltb_spec 50 (length texts)) as [Hgt | _]; [lia |].
  fold (BatchReport.chosen_id batch_id clk).
  fold (BatchReport.started texts clk).
  unfold Batch._process_texts_parallel. rewrite collect_fold_any. simpl.
  eexists. split; [reflexivity |]. repeat split.
Qed.

Lemma process_batch_rejects
      (texts : list str) (mode : str) (batch_id : option str)
      (clk : Batch.clock) (schedule : list nat)
      (draws : nat -> Humanizer.draw) (tbl : gmap str Batch.job) :
  texts = [] \/ (50 < length texts)%nat ->
  exists msg : string,
    Batch.process_batch texts mode batch_id clk schedule draws tbl
    = (Batch.Rejected msg, tbl).
Proof.
  intros Hbad. unfold Batch.process_batch.
  destruct texts as [| t ts] eqn:Et; [eexists; reflexivity |].
  rewrite <- Et in *.
  destruct Hbad as [-> | Hgt]; [discriminate |].
  destruct (Nat.ltb_spec 50 (length texts)) as [_ | Hle]; [| lia].
  eexists; reflexivity.
Qed.

(** The record of an accepted batch after the run. *)
Lemma process_batch_record
      (texts : list str) (mode : str) (batch_id : option str)
      (clk : Batch.clock) (schedule : list nat)
      (draws : nat -> Humanizer.draw) (tbl : gmap str Batch.job) :
  texts <> [] -> (length texts <= 50)%nat ->
  exists (r : Batch.batch_result) (tbl' : gmap str Batch.job)
         (j : Batch.job),
    Batch.process_batch texts mode batch_id clk schedule draws tbl
    = (Batch.Accepted r, tbl')
    /\ Batch.batch_id r = BatchReport.chosen_id batch_id clk
    /\ Batch.results r
       = Batch.sort_by_index
           (BatchReport.collected texts mode draws schedule)
    /\ (forall id : str, id <> Batch.batch_id r -> tbl' !! id = tbl !! id)
    /\ tbl' !! Batch.batch_id r = Some j
    /\ Batch.status j = Batch.Completed
    /\ Batch.total j = length texts
    /\ Batch.start_time j = Batch.at_start clk
    /\ Batch.end_time j = Some (Batch.at_end clk)
    /\ Batch.completed j
       = length (List.filter (fun x => Batch.success x) (Batch.results r))
    /\ Batch.failed j
       = length (List.filter (fun x => negb (Batch.success x))
                             (Batch.results r)).
Proof.
  intros Hne Hlen.
  destruct (process_batch_any texts mode batch_id clk schedule draws tbl
              Hne Hlen) as (r & E & Hid & Hres & _).
  eexists r, _, _. split; [exact E |]. split; [exact Hid |].
  split; [exact Hres |]. rewrite Hid. split.
  { intros id Hid'.
    rewrite lookup_alter_ne by congruence.
    rewrite lookup_fold_alter_ne by exact Hid'.
    apply lookup_insert_ne. congruence. }
  rewrite lookup_alter_eq, lookup_fold_alter, lookup_insert_eq.
  split; [reflexivity |].
  destruct (count_all_fields
              (BatchReport.collected texts mode draws schedule)
              (BatchReport.started texts clk))
    as (H1 & H2 & H3 & H4 & _).
  cbn [Batch.finish Batch.status Batch.total Batch.start_time
       Batch.end_time Batch.completed Batch.failed].
  split; [reflexivity |]. split; [exact H1 |]. split; [exact H4 |].
  split; [reflexivity |].
  rewrite H2, H3, Hres. simpl.
  split; apply filter_perm_length; symmetry; apply sort_by_index_perm.
Qed.

(** X13.  [process_batch] touches one record of the job table at
    most: a batch that is turned down leaves the table as it was; an
    accepted batch leaves every record but its own as it was and files its
    own record, in place of one that was there under the same identifier,
    as completed, with the number of texts, the start and the end time of
    this run, and counters that together count the collected results.  An
    identifier that is given and not empty is the one used. *)
Theorem process_batch_frame
        (texts : list str) (mode : str) (batch_id : option str)
        (clk : Batch.clock) (schedule : list nat)
        (draws : nat -> Humanizer.draw) (tbl : gmap str Batch.job) :
  let '(reply, tbl') :=
    Batch.process_batch texts mode batch_id clk schedule draws tbl in
  match reply with
  | Batch.Rejected _ => tbl' = tbl
  | Batch.Accepted r =>
      (forall id : str, id <> Batch.batch_id r -> tbl' !! id = tbl !! id)
      /\ (forall b : str,
             batch_id = Some b -> b <> [] -> Batch.batch_id r = b)
      /\ exists j : Batch.job,
          tbl' !! Batch.batch_id r = Some j
          /\ Batch.status j = Batch.Completed
          /\ Batch.total j = length texts
          /\ Batch.start_time j = Batch.at_start clk
          /\ Batch.end_time j = Some (Batch.at_end clk)
          /\ (Batch.completed j + Batch.failed j
              = length (Batch.results r))%nat
  end.
Proof.
  destruct (decide (texts = [] \/ (50 < length texts)%nat)) as [Hbad | Hok].
  - destruct (process_batch_rejects texts mode batch_id clk schedule draws
                tbl Hbad) as (msg & ->).
    reflexivity.
  - assert (Hne : texts <> []) by (intros E; apply Hok; now left).
    assert (Hlen : (length texts <= 50)%nat)
      by (destruct (Nat.le_gt_cases (length texts) 50);
          [assumption | exfalso; apply Hok; now right]).
    destruct (process_batch_record texts mode batch_id clk schedule draws
                tbl Hne Hlen)
      as (r & tbl' & j & -> & Hid & Hres & Hfr & Hj & Hst & Ht & Hs & He
          & Hc & Hf).
    split; [exact Hfr |]. split.
    + intros b -> Hb. rewrite Hid. unfold BatchReport.chosen_id.
      destruct b; [congruence | reflexivity].
    + exists j. split; [exact Hj |]. split; [exact Hst |].
      split; [exact Ht |]. split; [exact Hs |]. split; [exact He |].
      rewrite Hc, Hf. apply (filter_length_split Batch.success).
Qed.

End BatchShape.

(** ** The accuracy that a batch reports *)

Section BatchAccuracy.
Local Open Scope Q_scope.

(** The achieved share stays within the perturbation of its target. *)
Lemma simulate_achieved_near (t : Humanizer.percentages) (v c : Q) :
  (Humanizer.ai_generated t + Humanizer.human_written t = 100)%Z ->
  (0 <= Humanizer.ai_generated t)%Z ->
  (0 <= Humanizer.human_written t)%Z ->
  - c <= v <= c ->
  let '(a, h) := Humanizer.simulate_achieved t v in
  inject_Z (Humanizer.ai_generated t) - c <= a
  /\ a <= inject_Z (Humanizer.ai_generated t) + c.
Proof.
  intros Hsum Ha Hh Hv. unfold Humanizer.simulate_achieved.
  assert (Es : inject_Z (Humanizer.ai_generated t)
               + inject_Z (Humanizer.human_written t) == 100).
  { rewrite <- inject_Z_plus, Hsum. reflexivity. }
  assert (Ea : 0 <= inject_Z (Humanizer.ai_generated t)).
  { change 0 with (inject_Z 0). now rewrite <- Zle_Qle. }
  assert (Eh : 0 <= inject_Z (Humanizer.human_written t)).
  { change 0 with (inject_Z 0). now rewrite <- Zle_Qle. }
  set (A := inject_Z (Humanizer.ai_generated t)) in *.
  set (B := inject_Z (Humanizer.human_written t)) in *.
  assert (Ht : Py.max 0 (Py.min 100 (A + v)) + Py.max 0 (Py.min 100 (B - v))
               == 100
               /\ A - c <= Py.max 0 (Py.min 100 (A + v)) <= A + c).
  { unfold Py.max, Py.min.
    destruct (Qlt_le_dec (A + v) 100), (Qlt_le_dec (B - v) 100);
      repeat match goal with
             | |- context [Qlt_le_dec ?a ?b] => destruct (Qlt_le_dec a b)
             end; lra. }
  destruct Ht as [Ht Hx].
  set (x := Py.max 0 (Py.min 100 (A + v))) in *.
  set (y := Py.max 0 (Py.min 100 (B - v))) in *.
  destruct (Qlt_le_dec 0 (x + y)) as [Hpos | Hneg]; [| lra].
  assert (Hx' : x / (x + y) * 100 == x) by (rewrite Ht; field).
  rewrite Hx'. exact Hx.
Qed.

(** The two accuracies of a result of [_process_single_text] are one
    number, at least 100 less the bound of the perturbation. *)
Lemma item_accuracy (text mode : str) (i : nat) (d : Humanizer.draw)
      (r : Batch.item_success) :
  Batch._process_single_text text mode i d = Batch.ItemOk r ->
  BatchReport.human_accuracy_of r == BatchReport.ai_accuracy_of r
  /\ (-3 <= Humanizer.variation d <= 3 ->
      97 <= BatchReport.ai_accuracy_of r).
Proof.
  unfold Batch._process_single_text, Humanizer.humanize_text.
  destruct (Humanizer.rewriting d) as [humanized | msg]; [| discriminate].
  destruct (target_percentages_sum mode) as (Hs & Ha & Hh).
  pose proof (simulate_achieved_rounded mode (Humanizer.variation d)) as Hr.
  pose proof (simulate_achieved_near _ (Humanizer.variation d) 3 Hs Ha Hh)
    as Hn.
  destruct (Humanizer.simulate_achieved _ _) as [a h].
  intros [= <-].
  unfold BatchReport.human_accuracy_of, BatchReport.ai_accuracy_of.
  cbn [Batch.target_ai_score Batch.achieved_ai_score
       Batch.target_human_score Batch.achieved_human_score].
  set (t := Humanizer.get_target_percentages mode) in *.
  assert (Es : inject_Z (Humanizer.human_written t)
               == 100 - inject_Z (Humanizer.ai_generated t)).
  { assert (E : inject_Z (Humanizer.ai_generated t)
                + inject_Z (Humanizer.human_written t) == 100)
      by (rewrite <- inject_Z_plus, Hs; reflexivity).
    lra. }
  destruct Hr as [_ Hr].
  split.
  - assert (E : inject_Z (Humanizer.human_written t) - Py.round h 1
                == - (inject_Z (Humanizer.ai_generated t) - Py.round a 1))
      by lra.
    rewrite E, Qabs_opp. reflexivity.
  - intros Hv. destruct (Hn Hv) as [Hlo Hhi].
    assert (Hlo' : inject_Z (Humanizer.ai_generated t - 3) <= Py.round a 1).
    { apply round_ge. unfold Z.sub. rewrite inject_Z_plus, inject_Z_opp.
      change (inject_Z 3) with 3. lra. }
    assert (Hhi' : Py.round a 1 <= inject_Z (Humanizer.ai_generated t + 3)).
    { apply round_le. rewrite inject_Z_plus. change (inject_Z 3) with 3.
      lra. }
    unfold Z.sub in Hlo'. rewrite inject_Z_plus, inject_Z_opp in Hlo'.
    rewrite inject_Z_plus in Hhi'.
    change (inject_Z 3) with 3 in Hlo', Hhi'.
    assert (Habs : Qabs (inject_Z (Humanizer.ai_generated t) - Py.round a 1)
                   <= 3)
      by (apply Qabs_Qle_condition; split; lra).
    lra.
Qed.

Lemma successful_results_in (rs : list Batch.item_result)
      (s : Batch.item_success) :
  In s (BatchReport.successful_results rs) <-> In (Batch.ItemOk s) rs.
Proof.
  unfold BatchReport.successful_results. rewrite in_flat_map. split.
  - intros ([s' | f] & Hin & Hs); [| destruct Hs].
    destruct Hs as [-> | []]. exact Hin.
  - intros Hin. exists (Batch.ItemOk s). split; [exact Hin | now left].
Qed.


End BatchAccuracy.


(** ** The list of the jobs and the sweep *)

Section BatchListing.
Local Open Scope Q_scope.

(** X15.  The list of [get_active_batches] and the reply of
    [get_batch_status] agree on every identifier: both know the job or
    neither does, and the counters, the status and the progress are the
    same; the count of active batches is the number of records of the job
    table, whatever their status. *)
Theorem active_listing_agrees (tbl : gmap str Batch.job) (id : str) (now : Q) :
  let listing := BatchReport.get_active_batches tbl in
  BatchReport.active_batch_count listing = size tbl
  /\ size (BatchReport.batches listing) = size tbl
  /\ match Batch.get_batch_status id now tbl with
     | None => BatchReport.batches listing !! id = None
     | Some st =>
         exists e : BatchReport.active_entry,
           BatchReport.batches listing !! id = Some e
           /\ BatchReport.entry_total e = Batch.total (Batch.info st)
           /\ BatchReport.entry_completed e = Batch.completed (Batch.info st)
           /\ BatchReport.entry_failed e = Batch.failed (Batch.info st)
           /\ BatchReport.entry_status e = Batch.status (Batch.info st)
           /\ BatchReport.entry_progress_percentage e
              == Batch.progress_percentage st
     end.
Proof.
  intros listing. subst listing.
  unfold BatchReport.get_active_batches, Batch.get_batch_status.
  cbn [BatchReport.active_batch_count BatchReport.batches].
  split; [reflexivity |]. split; [apply map_size_fmap |].
  rewrite lookup_fmap.
  destruct (tbl !! id) as [j |]; [| reflexivity].
  simpl. eexists. split; [reflexivity |].
  unfold BatchReport.entry_of.
  cbn [BatchReport.entry_total BatchReport.entry_completed
       BatchReport.entry_failed BatchReport.entry_status
       BatchReport.entry_progress_percentage].
  repeat (split; [reflexivity |]).
  destruct (0 <? Batch.total j)%nat; [reflexivity |].
  symmetry. apply round_zero.
Qed.

(** X16.  A batch that [process_batch] accepted is still
    listed by [get_active_batches] after it has completed, with the status
    completed and the counters of its results, and is counted among the
    active batches; the statistics endpoint reports the same number as
    active and as tracked. *)
Theorem completed_batch_stays_listed
        (texts : list str) (mode : str) (batch_id : option str)
        (clk : Batch.clock) (schedule : list nat)
        (draws : nat -> Humanizer.draw) (tbl : gmap str Batch.job) :
  texts <> [] -> (length texts <= 50)%nat ->
  exists (r : Batch.batch_result) (tbl' : gmap str Batch.job)
         (e : BatchReport.active_entry),
    Batch.process_batch texts mode batch_id clk schedule draws tbl
    = (Batch.Accepted r, tbl')
    /\ BatchReport.batches (BatchReport.get_active_batches tbl')
         !! Batch.batch_id r = Some e
    /\ BatchReport.entry_status e = Batch.Completed
    /\ BatchReport.entry_total e = length texts
    /\ BatchReport.entry_completed e = Batch.successful r
    /\ BatchReport.entry_failed e = Batch.failed_count r
    /\ (1 <= BatchReport.active_batch_count
               (BatchReport.get_active_batches tbl'))%nat
    /\ (size tbl
        <= BatchReport.active_batch_count
             (BatchReport.get_active_batches tbl'))%nat
    /\ exists stats : BatchRoutes.analytics_stats,
        BatchRoutes.get_analytics_stats tbl' = Routes.Ok200 stats
        /\ BatchRoutes.active_batch_count stats
           = BatchRoutes.total_batches_tracked stats.
Proof.
  intros Hne Hlen.
  destruct (process_batch_record texts mode batch_id clk schedule draws tbl
              Hne Hlen)
    as (r & tbl' & j & E & Hid & Hres & Hfr & Hj & Hst & Ht & Hs & He
        & Hc & Hf).
  exists r, tbl', (BatchReport.entry_of j).
  split; [exact E |].
  unfold BatchReport.get_active_batches.
  cbn [BatchReport.batches BatchReport.active_batch_count].
  split; [now rewrite lookup_fmap, Hj |].
  unfold BatchReport.entry_of.
  cbn [BatchReport.entry_status BatchReport.entry_total
       BatchReport.entry_completed BatchReport.entry_failed].
  split; [exact Hst |]. split; [exact Ht |].
  assert (Hsucc : Batch.successful r
                  = length (List.filter (fun x => Batch.success x)
                                        (Batch.results r))
                  /\ Batch.failed_count r
                     = length (List.filter (fun x => negb (Batch.success x))
                                           (Batch.results r))).
  { destruct (process_batch_any texts mode batch_id clk schedule draws tbl
                Hne Hlen) as (r0 & E0 & _).
    rewrite E0 in E. injection E as <- _.
    unfold Batch.process_batch in E0.
    destruct texts as [| t ts] eqn:Et; [congruence |]. rewrite <- Et in *.
    destruct (Nat.ltb_spec 50 (length texts)) as [Hgt | _]; [lia |].
    destruct (Batch._process_texts_parallel _ _ _ _ _ _) as [rs tb].
    injection E0 as <- _. split; reflexivity. }
  destruct Hsucc as [Hs1 Hs2].
  split; [now rewrite Hc, Hs1 |]. split; [now rewrite Hf, Hs2 |].
  assert (Hsub : dom tbl ⊆ dom tbl').
  { intros id Hid'. apply elem_of_dom. apply elem_of_dom in Hid'.
    destruct (decide (id = Batch.batch_id r)) as [-> | Hn].
    - rewrite Hj. eauto.
    - now rewrite Hfr. }
  split.
  { assert (Hpos : size tbl' <> 0%nat)
      by (apply (map_size_ne_0_lookup_2 tbl' (Batch.batch_id r));
          rewrite Hj; eauto).
    lia. }
  split.
  { rewrite <- !size_dom. now apply subseteq_size. }
  eexists. split; [reflexivity |]. reflexivity.
Qed.

End BatchListing.

(** A batch of one text. *)
Lemma completed_batch_stays_listed_witness :
  let clk := {| Batch.at_naming := 5; Batch.at_start := 5;
                Batch.at_end := 6 |} in
  let draws := fun _ : nat =>
    {| Humanizer.rewriting := Humanizer.Rewritten (lit "Done.");
       Humanizer.variation := 0; Humanizer.elapsed_ms := 1 |} in
  exists (r : Batch.batch_result) (tbl' : gmap str Batch.job),
    Batch.process_batch [lit "One."] (lit "fast") (Some (lit "job-1")) clk
                        [0%nat] draws ∅
    = (Batch.Accepted r, tbl')
    /\ (1 <= BatchReport.active_batch_count
               (BatchReport.get_active_batches tbl'))%nat.
Proof.
  intros clk draws.
  destruct (completed_batch_stays_listed [lit "One."] (lit "fast")
              (Some (lit "job-1")) clk [0%nat] draws ∅)
    as (r & tbl' & e & E & _ & _ & _ & _ & _ & Hcount & _).
  - discriminate.
  - simpl. lia.
  - exists r, tbl'. split; [exact E | exact Hcount].
Defined.

Section BatchSweep.
Local Open Scope Q_scope.

Lemma cleanup_subseteq (hours now : Q) (tbl : gmap str Batch.job) :
  Batch.cleanup_old_batches hours now tbl ⊆ tbl.
Proof.
  apply map_subseteq_spec. intros id j Hj.
  now apply cleanup_lookup in Hj as [Hj _].
Qed.

Lemma cleanup_ext (hours now : Q) (tbl tbl' : gmap str Batch.job) :
  (forall (id : str) (j : Batch.job),
      tbl' !! id = Some j
      <-> tbl !! id = Some j
          /\ now - Batch.start_time j <= hours * 3600) ->
  tbl' = Batch.cleanup_old_batches hours now tbl.
Proof.
  intros Hspec. apply map_eq. intros id. apply option_eq. intros j.
  rewrite Hspec. symmetry. apply cleanup_lookup.
Qed.

(** X17.  The sweep of the job table only removes records: what it
    keeps it keeps unchanged; sweeping twice is sweeping once; a larger
    threshold keeps more, a later clock keeps less; two sweeps commute. *)
Theorem cleanup_algebra (hours hours' now now' : Q) (tbl : gmap str Batch.job) :
  Batch.cleanup_old_batches hours now tbl ⊆ tbl
  /\ Batch.cleanup_old_batches hours now
       (Batch.cleanup_old_batches hours now tbl)
     = Batch.cleanup_old_batches hours now tbl
  /\ (hours <= hours' ->
      Batch.cleanup_old_batches hours now tbl
      ⊆ Batch.cleanup_old_batches hours' now tbl)
  /\ (now <= now' ->
      Batch.cleanup_old_batches hours now' tbl
      ⊆ Batch.cleanup_old_batches hours now tbl)
  /\ Batch.cleanup_old_batches hours now
       (Batch.cleanup_old_batches hours' now' tbl)
     = Batch.cleanup_old_batches hours' now'
         (Batch.cleanup_old_batches hours now tbl).
Proof.
  split; [apply cleanup_subseteq |].
  split.
  { symmetry. apply cleanup_ext. intros id j.
    rewrite !cleanup_lookup. tauto. }
  split.
  { intros Hle. apply map_subseteq_spec. intros id j.
    rewrite !cleanup_lookup. intros [Hj Hage]. split; [exact Hj | lra]. }
  split.
  { intros Hle. apply map_subseteq_spec. intros id j.
    rewrite !cleanup_lookup. intros [Hj Hage]. split; [exact Hj | lra]. }
  apply cleanup_ext. intros id j. rewrite !cleanup_lookup. tauto.
Qed.


End BatchSweep.

(** ** The ratio of [difflib.SequenceMatcher] lies between 0 and 1 *)

Section RatioRange.
Context {A : Type} `{EqDecision A}.
Implicit Types (a b : list A) (x bst : Difflib.best).

Local Abbreviation sizes l := (fold_right Nat.add O (map Difflib.bestsize l)).

(** A block that lies in the window that was searched. *)
Local Abbreviation within alo ahi blo bhi x :=
  (alo <= Difflib.besti x /\ Difflib.besti x + Difflib.bestsize x <= ahi
   /\ blo <= Difflib.bestj x /\ Difflib.bestj x + Difflib.bestsize x <= bhi).

(** What the table [j2len] holds once the rows before [i] are read. *)
Local Abbreviation table_below alo blo bhi i t :=
  (forall j k : nat, t !! j = Some k ->
     blo <= j /\ j < bhi /\ k <= j + 1 - blo /\ k + alo <= i).

Lemma inner_within (alo blo bhi i : nat) (j2len : gmap nat nat) :
  alo <= i ->
  table_below alo blo bhi i j2len ->
  forall (js : list nat) (newj2len : gmap nat nat) bst,
    table_below alo blo bhi (S i) newj2len ->
    within alo (S i) blo bhi bst ->
    let '(t, bst') := Difflib.inner js blo bhi i j2len newj2len bst in
    table_below alo blo bhi (S i) t /\ within alo (S i) blo bhi bst'.
Proof.
  intros Hi Hold js. induction js as [| j js IH]; intros new bst Hnew Hb.
  - simpl. split; assumption.
  - simpl. destruct (j <? blo) eqn:Elo; [now apply IH |].
    destruct (bhi <=? j) eqn:Ehi; [split; assumption |].
    apply Nat.ltb_ge in Elo. apply Nat.leb_gt in Ehi.
    assert (Hk : Difflib.prev_len j2len j <= j - blo
                 /\ Difflib.prev_len j2len j + alo <= i).
    { destruct j as [| j']; simpl; [lia |].
      destruct (j2len !! j') as [k0 |] eqn:E0; simpl; [| lia].
      destruct (Hold _ _ E0) as (? & ? & ? & ?). lia. }
    destruct Hk as [Hk1 Hk2].
    apply IH.
    + intros j0 k0. destruct (decide (j0 = j)) as [-> | Hne].
      * rewrite lookup_insert_eq. intros [= <-]. lia.
      * rewrite lookup_insert_ne by congruence. apply Hnew.
    + destruct (Difflib.bestsize bst <? S (Difflib.prev_len j2len j));
        [simpl; lia | assumption].
Qed.

Lemma rows_within a b (alo blo bhi : nat) :
  forall (n s : nat) (t : gmap nat nat) bst,
    alo <= s ->
    table_below alo blo bhi s t ->
    within alo s blo bhi bst ->
    let '(t', bst') :=
      fold_left (Difflib.row a b blo bhi) (seq s n) (t, bst) in
    within alo (s + n) blo bhi bst'.
Proof.
  induction n as [| n IH]; intros s t bst Hs Ht Hb.
  - simpl. rewrite Nat.add_0_r. assumption.
  - cbn [seq fold_left].
    change (Difflib.row a b blo bhi (t, bst) s)
      with (Difflib.inner (match a !! s with
                           | Some x => Difflib.b2j b x
                           | None => []
                           end) blo bhi s t ∅ bst).
    pose proof (inner_within alo blo bhi s t Hs Ht
                  (match a !! s with
                   | Some x => Difflib.b2j b x
                   | None => []
                   end) ∅ bst) as Hin.
    destruct (Difflib.inner _ blo bhi s t ∅ bst) as [t1 bst1].
    destruct Hin as [Ht1 Hb1].
    + intros j k. rewrite lookup_empty. discriminate.
    + lia.
    + specialize (IH (S s) t1 bst1 ltac:(lia) Ht1 Hb1).
      destruct (fold_left _ (seq (S s) n) (t1, bst1)) as [t2 bst2].
      replace (s + S n) with (S s + n) by lia. assumption.
Qed.

Lemma extend_left_within a b (alo ahi blo bhi : nat) :
  forall (fuel : nat) bst,
    within alo ahi blo bhi bst ->
    within alo ahi blo bhi (Difflib.extend_left fuel a b alo blo bst).
Proof.
  induction fuel as [| fuel IH]; intros bst Hb; simpl; [assumption |].
  destruct (alo <? Difflib.besti bst) eqn:E1; simpl; [| assumption].
  destruct (blo <? Difflib.bestj bst) eqn:E2; simpl; [| assumption].
  destruct (Difflib.same_at a b _ _); [| assumption].
  apply Nat.ltb_lt in E1, E2. apply IH. simpl. lia.
Qed.

Lemma extend_right_within a b (alo ahi blo bhi : nat) :
  forall (fuel : nat) bst,
    within alo ahi blo bhi bst ->
    within alo ahi blo bhi (Difflib.extend_right fuel a b ahi bhi bst).
Proof.
  induction fuel as [| fuel IH]; intros bst Hb; simpl; [assumption |].
  destruct (_ <? ahi) eqn:E1; simpl; [| assumption].
  destruct (_ <? bhi) eqn:E2; simpl; [| assumption].
  destruct (Difflib.same_at a b _ _); [| assumption].
  apply Nat.ltb_lt in E1, E2. apply IH. simpl. lia.
Qed.

(** The longest match lies in the window in which it was searched. *)
Lemma find_longest_match_within a b (alo ahi blo bhi : nat) :
  alo <= ahi -> blo <= bhi ->
  within alo ahi blo bhi (Difflib.find_longest_match a b alo ahi blo bhi).
Proof.
  intros Ha Hb. unfold Difflib.find_longest_match.
  pose proof (rows_within a b alo blo bhi (ahi - alo) alo ∅
                {| Difflib.besti := alo; Difflib.bestj := blo;
                   Difflib.bestsize := 0 |}) as Hrows.
  destruct (fold_left _ (seq alo (ahi - alo)) _) as [t bst].
  apply extend_right_within, extend_left_within.
  replace (alo + (ahi - alo)) with ahi in Hrows by lia.
  apply Hrows.
  - lia.
  - intros j k. rewrite lookup_empty. discriminate.
  - simpl. lia.
Qed.

(** The elements of the first and of the second sequence that the windows
    of the queue hold. *)
Local Abbreviation left_of queue :=
  (fold_right Nat.add O
     (map (fun w : nat * nat * nat * nat =>
             let '(alo, ahi, _, _) := w in ahi - alo) queue)).
Local Abbreviation right_of queue :=
  (fold_right Nat.add O
     (map (fun w : nat * nat * nat * nat =>
             let '(_, _, blo, bhi) := w in bhi - blo) queue)).
Local Abbreviation ordered queue :=
  (Forall (fun w : nat * nat * nat * nat =>
             let '(alo, ahi, blo, bhi) := w in alo <= ahi /\ blo <= bhi)
          queue).

Lemma sizes_app (l1 l2 : list Difflib.best) :
  sizes (l1 ++ l2) = sizes l1 + sizes l2.
Proof.
  induction l1 as [| x l1 IH]; simpl; [reflexivity |]. rewrite IH. lia.
Qed.

(** The blocks found and the windows still to search never hold more
    elements than the windows did at the start. *)
Lemma blocks_loop_sizes a b :
  forall (fuel : nat) (queue : list (nat * nat * nat * nat))
         (found : list Difflib.best),
    ordered queue ->
    sizes (Difflib.blocks_loop fuel a b queue found)
    <= sizes found + left_of queue
    /\ sizes (Difflib.blocks_loop fuel a b queue found)
       <= sizes found + right_of queue.
Proof.
  induction fuel as [| fuel IH]; intros queue found Hq; simpl; [lia |].
  destruct queue as [| [[[alo ahi] blo] bhi] queue]; [simpl; lia |].
  inversion Hq as [| w q Hw Hq']; subst. cbn beta iota in Hw.
  destruct Hw as [Ha Hb].
  pose proof (find_longest_match_within a b alo ahi blo bhi Ha Hb)
    as (H1 & H2 & H3 & H4).
  set (x := Difflib.find_longest_match a b alo ahi blo bhi) in *.
  destruct (Difflib.bestsize x =? 0) eqn:Ek.
  - specialize (IH queue found Hq'). simpl. lia.
  - apply Nat.eqb_neq in Ek.
    match goal with
    | |- context [Difflib.blocks_loop fuel a b ?q ?f] =>
        specialize (IH q f)
    end.
    rewrite sizes_app in IH. simpl in IH.
    destruct ((alo <? Difflib.besti x) && (blo <? Difflib.bestj x)) eqn:E1;
      destruct ((Difflib.besti x + Difflib.bestsize x <? ahi)
                && (Difflib.bestj x + Difflib.bestsize x <? bhi)) eqn:E2;
      simpl in IH |- *;
      (destruct IH as [IHa IHb];
       [ repeat (constructor; [lia |]); assumption | lia ]).
Qed.

Lemma sizes_insert_block x (l : list Difflib.best) :
  sizes (Difflib.insert_block x l) = Difflib.bestsize x + sizes l.
Proof.
  induction l as [| y l IH]; simpl; [reflexivity |].
  destruct (Difflib.block_leb x y); simpl; [reflexivity |].
  rewrite IH. lia.
Qed.

Lemma sizes_sort_blocks (l : list Difflib.best) :
  sizes (Difflib.sort_blocks l) = sizes l.
Proof.
  induction l as [| x l IH]; simpl; [reflexivity |].
  rewrite sizes_insert_block, IH. reflexivity.
Qed.

Lemma sizes_collapse (l : list Difflib.best) :
  forall cur, sizes (Difflib.collapse cur l) = Difflib.bestsize cur + sizes l.
Proof.
  induction l as [| x l IH]; intros cur; simpl.
  - destruct (Difflib.bestsize cur =? 0) eqn:E; simpl; [| lia].
    apply Nat.eqb_eq in E. lia.
  - destruct (_ && _).
    + rewrite IH. simpl. lia.
    + rewrite sizes_app, IH.
      destruct (Difflib.bestsize cur =? 0) eqn:E; simpl; [| lia].
      apply Nat.eqb_eq in E. lia.
Qed.

(** The matching blocks hold no more elements than either sequence. *)
Lemma matching_blocks_sizes a b :
  sizes (Difflib.get_matching_blocks a b) <= length a
  /\ sizes (Difflib.get_matching_blocks a b) <= length b.
Proof.
  unfold Difflib.get_matching_blocks.
  rewrite sizes_app, sizes_collapse, sizes_sort_blocks. simpl.
  pose proof (blocks_loop_sizes a b (2 * length a + 1)
                [(0, length a, 0, length b)] []) as Hl.
  simpl in Hl. destruct Hl as [Hl1 Hl2].
  - constructor; [lia | constructor].
  - lia.
Qed.

Lemma ratio_range a b : (0 <= Difflib.ratio a b <= 1)%Q.
Proof.
  unfold Difflib.ratio.
  destruct (length a + length b =? 0) eqn:E; [split; discriminate |].
  apply Nat.eqb_neq in E.
  pose proof (matching_blocks_sizes a b) as [Hl Hr].
  set (m := fold_right Nat.add O _) in *.
  assert (Hpos : (0 < Qn (length a + length b))%Q) by (apply Qn_pos; lia).
  split.
  - apply Qle_shift_div_l; [assumption |].
    rewrite Qmult_0_l.
    pose proof (Qn_nonneg m). lra.
  - apply Qle_shift_div_r; [assumption |].
    rewrite Qmult_1_l.
    assert (Hm : (Qn (m + m) <= Qn (length a + length b))%Q)
      by (apply Qn_le; lia).
    unfold Qn in *. rewrite Nat2Z.inj_add, inject_Z_plus in Hm. lra.
Qed.

End RatioRange.

(** ** The comparison of two texts (text_comparison_service.py) *)

Section RoundedValues.
Local Open Scope Q_scope.

(** A value with [n] decimals is its own rounding to [n] decimals. *)
Lemma round_fixed (z : Z) (n : nat) :
  Py.round (inject_Z z / Py.pow10 n) n == inject_Z z / Py.pow10 n.
Proof.
  pose proof (pow10_pos n) as Hp. unfold Py.round.
  assert (E : inject_Z z / Py.pow10 n * Py.pow10 n == inject_Z z)
    by (field; lra).
  rewrite (round_half_even_comp _ _ E), round_half_even_Z. reflexivity.
Qed.

(** The difference of two rounded values needs no further rounding. *)
Lemma round_difference (x y : Q) (n : nat) :
  Py.round (Py.round x n - Py.round y n) n == Py.round x n - Py.round y n.
Proof.
  pose proof (pow10_pos n) as Hp.
  assert (E : Py.round x n - Py.round y n
              == inject_Z (Py.round_half_even (x * Py.pow10 n)
                           - Py.round_half_even (y * Py.pow10 n))
                 / Py.pow10 n).
  { unfold Py.round. unfold Z.sub. rewrite inject_Z_plus, inject_Z_opp. field. lra. }
  rewrite (round_comp _ _ n E), round_fixed. symmetry. exact E.
Qed.

End RoundedValues.

Section Comparison.
Context `{UnicodeData}.
Local Open Scope Q_scope.

Lemma jaccard_range (X Y : gset str) :
  0 <= (if (0 <? size (X ∪ Y))%nat
        then Qn (size (X ∩ Y)) / Qn (size (X ∪ Y)) else 0) <= 1.
Proof.
  destruct (0 <? size (X ∪ Y))%nat eqn:E; [| split; discriminate].
  apply Nat.ltb_lt in E.
  assert (Hle : (size (X ∩ Y) <= size (X ∪ Y))%nat).
  { apply subseteq_size. intros x Hx.
    apply elem_of_intersection in Hx as [Hx _].
    apply elem_of_union. now left. }
  split.
  - apply Qdiv_nonneg; [apply Qn_nonneg | now apply Qn_pos].
  - apply Qdiv_le_1; [now apply Qn_le | now apply Qn_pos].
Qed.

(** X19.  The five similarity metrics of a comparison lie between
    0 and 1, whatever the two texts are. *)
Theorem similarity_metrics_in_unit_interval (original humanized : str) :
  let m := TextComparison._calculate_similarity_metrics original humanized in
  0 <= TextComparison.character_similarity m <= 1
  /\ 0 <= TextComparison.word_similarity m <= 1
  /\ 0 <= TextComparison.sentence_similarity m <= 1
  /\ 0 <= TextComparison.jaccard_similarity m <= 1
  /\ 0 <= TextComparison.overall_similarity m <= 1.
Proof.
  cbv zeta. unfold TextComparison._calculate_similarity_metrics.
  cbn [TextComparison.character_similarity TextComparison.word_similarity
       TextComparison.sentence_similarity TextComparison.jaccard_similarity
       TextComparison.overall_similarity].
  pose proof (ratio_range original humanized) as Hc.
  pose proof (ratio_range (TextComparison.words_of original)
                          (TextComparison.words_of humanized)) as Hw.
  pose proof (ratio_range (TextComparison.sentences_of original)
                          (TextComparison.sentences_of humanized)) as Hs.
  pose proof (jaccard_range
                (list_to_set (TextComparison.words_of original))
                (list_to_set (TextComparison.words_of humanized))) as Hj.
  repeat (split; [apply round_unit; assumption |]).
  apply round_unit.
  split.
  - apply Qle_shift_div_l; [reflexivity | lra].
  - apply Qle_shift_div_r; [reflexivity | lra].
Qed.

(** X20.  A text compared with itself has the Jaccard and the
    overall similarity 1 when it holds a word; when it holds none, the
    Jaccard similarity is 0 and the overall similarity 0.75. *)
Theorem compare_self_overall (X : str) :
  let m := TextComparison._calculate_similarity_metrics X X in
  (TextComparison.words_of X <> [] ->
   TextComparison.jaccard_similarity m == 1
   /\ TextComparison.overall_similarity m == 1)
  /\ (TextComparison.words_of X = [] ->
      TextComparison.jaccard_similarity m == 0
      /\ TextComparison.overall_similarity m == 0.75).
Proof.
  cbv zeta. unfold TextComparison._calculate_similarity_metrics.
  cbn [TextComparison.jaccard_similarity TextComparison.overall_similarity].
  pose proof (ratio_self X) as Ec.
  pose proof (ratio_self (TextComparison.words_of X)) as Ew.
  pose proof (ratio_self (TextComparison.sentences_of X)) as Es.
  set (W := list_to_set (TextComparison.words_of X) : gset str).
  assert (Ei : W ∩ W = W) by (apply set_eq; intros x; set_unfold; tauto).
  assert (Eu : W ∪ W = W) by (apply set_eq; intros x; set_unfold; tauto).
  rewrite Ei, Eu. subst W. clear Ei Eu.
  split; intros Hwords.
  - pose proof (size_list_to_set_pos _ Hwords) as Hpos.
    set (n := size (list_to_set (TextComparison.words_of X) : gset str))
      in *.
    assert (E : (0 <? n)%nat = true) by now apply Nat.ltb_lt.
    rewrite E.
    assert (Ej : Qn n / Qn n == 1).
    { apply Qn_pos in Hpos. field. lra. }
    split.
    + rewrite (round_comp _ 1 3 Ej). apply round_one.
    + rewrite (round_comp _ 1 3); [apply round_one |].
      rewrite Ec, Ew, Es, Ej. reflexivity.
  - rewrite Hwords. rewrite list_to_set_nil, size_empty. simpl (0 <? 0)%nat.
    cbv iota. split.
    + apply round_zero.
    + assert (E : (Difflib.ratio X X
                   + Difflib.ratio (@nil str) []
                   + Difflib.ratio (TextComparison.sentences_of X)
                                   (TextComparison.sentences_of X) + 0) / 4
                  == 0.75).
      { rewrite Hwords in Ew. rewrite Ec, Ew, Es. reflexivity. }
      rewrite (round_comp _ _ 3 E). vm_compute. reflexivity.
Qed.

(** X21.  The added and the common words are the distinct words
    of the humanized text, the removed and the common words those of the
    original; exchanging the two texts exchanges the added and the removed
    words and reverses the change of complexity. *)
Theorem word_changes_partition (original humanized : str) :
  let c := TextComparison._analyze_word_changes original humanized in
  let c' := TextComparison._analyze_word_changes humanized original in
  let distinct (text : str) :=
    size (list_to_set (TextComparison.words_of text) : gset str) in
  (TextComparison.added_count c + TextComparison.common_words_count c
   = distinct humanized)%nat
  /\ (TextComparison.removed_count c + TextComparison.common_words_count c
      = distinct original)%nat
  /\ TextComparison.added_count c' = TextComparison.removed_count c
  /\ TextComparison.removed_count c' = TextComparison.added_count c
  /\ TextComparison.common_words_count c'
     = TextComparison.common_words_count c
  /\ TextComparison.complexity_change c'
     = (- TextComparison.complexity_change c)%Z.
Proof.
  cbv zeta. unfold TextComparison._analyze_word_changes.
  cbn [TextComparison.added_count TextComparison.removed_count
       TextComparison.common_words_count TextComparison.complexity_change].
  set (o := list_to_set (TextComparison.words_of original) : gset str).
  set (h := list_to_set (TextComparison.words_of humanized) : gset str).
  assert (Hsplit : forall X Y : gset str,
             (size (X ∖ Y) + size (Y ∩ X) = size X)%nat).
  { intros X Y. rewrite <- size_union.
    - f_equal. apply set_eq. intros x. set_unfold.
      destruct (decide (x ∈ Y)); tauto.
    - apply elem_of_disjoint. intros x. set_unfold. tauto. }
  assert (Ecomm : h ∩ o = o ∩ h)
    by (apply set_eq; intros x; set_unfold; tauto).
  split; [apply Hsplit |].
  split; [rewrite <- Ecomm; apply Hsplit |].
  split; [reflexivity |]. split; [reflexivity |].
  split; [now rewrite Ecomm | lia].
Qed.

Lemma split_items_length (its : list Re.item) :
  length (Re.split_items its)
  = S (length (flat_map (fun it => match it with
                                   | Re.Lit _ => []
                                   | Re.Match w => [w]
                                   end) its)).
Proof.
  induction its as [| [c | w] its IH]; simpl; [reflexivity | |].
  - destruct (Re.split_items its); simpl in *; [discriminate | exact IH].
  - now rewrite IH.
Qed.

(** [re.split] yields one piece more than [re.findall] finds matches. *)
Lemma split_length (m : Re.matcher) (s : str) :
  length (Re.split m s) = S (length (Re.findall m s)).
Proof. apply split_items_length. Qed.

Lemma count_blank_lines_bound (n : nat) :
  forall text : str,
    (length text <= n)%nat ->
    (2 * TextComparison.count_blank_lines text <= length text)%nat.
Proof.
  induction n as [| n IH]; intros text Hn.
  - destruct text; simpl in *; lia.
  - destruct text as [| c r]; [simpl; lia |].
    simpl in Hn. cbn [TextComparison.count_blank_lines].
    destruct (N.eqb c 10).
    + destruct r as [| d r2]; [simpl; lia |].
      simpl in Hn. destruct (N.eqb d 10).
      * specialize (IH r2 ltac:(lia)). simpl. lia.
      * specialize (IH (d :: r2) ltac:(simpl; lia)).
        simpl length in *. lia.
    + specialize (IH r ltac:(lia)). simpl length. lia.
Qed.

(** X22.  The statistics of a text in a comparison: the sentences
    are the runs of terminators, however the text ends, so that a text with
    no terminator has none; no count is negative or exceeds the
    characters, and the paragraphs are at least one. *)
Theorem text_stats_shape (text : str) :
  let s := TextComparison._get_text_stats text in
  TextComparison.sentences s
  = Z.of_nat (length (Re.findall Re.terminators text))
  /\ (0 <= TextComparison.sentences s <= TextComparison.characters s)%Z
  /\ (0 <= TextComparison.words s <= TextComparison.characters s)%Z
  /\ (0 <= TextComparison.characters_no_spaces s
      <= TextComparison.characters s)%Z
  /\ (1 <= TextComparison.paragraphs s)%Z
  /\ (2 * (TextComparison.paragraphs s - 1)
      <= TextComparison.characters s)%Z.
Proof.
  cbv zeta. unfold TextComparison._get_text_stats.
  cbn [TextComparison.sentences TextComparison.characters
       TextComparison.words TextComparison.characters_no_spaces
       TextComparison.paragraphs].
  rewrite split_length.
  pose proof (findall_length Re.terminators (sound_run _) text).
  pose proof (findall_length Re.word (sound_run _) text).
  pose proof (remove_spaces_length text).
  pose proof (count_blank_lines_bound (length text) text (le_n _)).
  repeat split; lia.
Qed.

Lemma text_stats_nonneg (text : str) :
  (0 <= TextComparison.characters (TextComparison._get_text_stats text))%Z
  /\ (0 <= TextComparison.words (TextComparison._get_text_stats text))%Z.
Proof. simpl. lia. Qed.

Lemma change_percent_bounds (o h : Z) :
  (0 <= h)%Z ->
  -100 <= ComparisonReport.change_percent o h
  /\ ((o <= h)%Z -> 0 <= ComparisonReport.change_percent o h)
  /\ ((h <= o)%Z -> ComparisonReport.change_percent o h <= 0)
  /\ ((o <= 0)%Z -> ComparisonReport.change_percent o h == 0).
Proof.
  intros Hh. unfold ComparisonReport.change_percent.
  destruct (0 <? o)%Z eqn:E.
  - apply Z.ltb_lt in E.
    assert (Ho : 0 < inject_Z o)
      by (change 0 with (inject_Z 0); now rewrite <- Zlt_Qlt).
    assert (Hh' : 0 <= inject_Z h)
      by (change 0 with (inject_Z 0); now rewrite <- Zle_Qle).
    assert (Hval : inject_Z (h - o) / inject_Z o * 100
                   == inject_Z h / inject_Z o * 100 - 100).
    { unfold Z.sub. rewrite inject_Z_plus, inject_Z_opp. field. lra. }
    split; [| split; [| split]].
    + rewrite <- (round_Z (-100) 2). apply round_mono.
      rewrite Hval. change (inject_Z (-100)) with (-100).
      assert (0 <= inject_Z h / inject_Z o) by now apply Qdiv_nonneg.
      lra.
    + intros Hle. rewrite <- (round_zero 2). apply round_mono.
      apply Qmult_le_0_compat; [| discriminate].
      apply Qdiv_nonneg; [| assumption].
      change 0 with (inject_Z 0). rewrite <- Zle_Qle. lia.
    + intros Hle. apply Qle_trans with (Py.round 0 2);
        [| rewrite round_zero; apply Qle_refl].
      apply round_mono.
      assert (Hd : inject_Z h / inject_Z o <= 1).
      { apply Qdiv_le_1; [| assumption]. now rewrite <- Zle_Qle. }
      rewrite Hval. lra.
    + lia.
  - split; [discriminate |].
    split; [intros _; apply Qle_refl |].
    split; [intros _; apply Qle_refl | reflexivity].
Qed.

(** X23.  In the basic comparison, exchanging the two texts
    reverses the three changes; a percentage has the sign of its change, is
    never below -100, and is 0 when the original has no character or no
    word, whatever was added. *)
Theorem basic_changes_signs (original humanized : str) :
  let r := ComparisonReport._compare_basic_stats original humanized in
  let c := ComparisonReport.changes r in
  let c' :=
    ComparisonReport.changes
      (ComparisonReport._compare_basic_stats humanized original) in
  ComparisonReport.character_change c'
  = (- ComparisonReport.character_change c)%Z
  /\ ComparisonReport.word_change c' = (- ComparisonReport.word_change c)%Z
  /\ ComparisonReport.sentence_change c'
     = (- ComparisonReport.sentence_change c)%Z
  /\ -100 <= ComparisonReport.character_change_percent c
  /\ -100 <= ComparisonReport.word_change_percent c
  /\ ((0 <= ComparisonReport.character_change c)%Z ->
      0 <= ComparisonReport.character_change_percent c)
  /\ ((ComparisonReport.character_change c <= 0)%Z ->
      ComparisonReport.character_change_percent c <= 0)
  /\ ((0 <= ComparisonReport.word_change c)%Z ->
      0 <= ComparisonReport.word_change_percent c)
  /\ ((ComparisonReport.word_change c <= 0)%Z ->
      ComparisonReport.word_change_percent c <= 0)
  /\ (TextComparison.characters (ComparisonReport.original_stats r) = 0%Z ->
      ComparisonReport.character_change_percent c == 0)
  /\ (TextComparison.words (ComparisonReport.original_stats r) = 0%Z ->
      ComparisonReport.word_change_percent c == 0).
Proof.
  cbv zeta. unfold ComparisonReport._compare_basic_stats.
  cbn [ComparisonReport.changes ComparisonReport.original_stats
       ComparisonReport.character_change ComparisonReport.word_change
       ComparisonReport.sentence_change
       ComparisonReport.character_change_percent
       ComparisonReport.word_change_percent].
  pose proof (text_stats_nonneg original) as [Hco Hwo].
  pose proof (text_stats_nonneg humanized) as [Hch Hwh].
  pose proof (change_percent_bounds
                (TextComparison.characters
                   (TextComparison._get_text_stats original))
                _ Hch) as (C1 & C2 & C3 & C4).
  pose proof (change_percent_bounds
                (TextComparison.words
                   (TextComparison._get_text_stats original))
                _ Hwh) as (W1 & W2 & W3 & W4).
  split; [lia |]. split; [lia |]. split; [lia |].
  split; [exact C1 |]. split; [exact W1 |].
  split; [intros Hc; apply C2; lia |].
  split; [intros Hc; apply C3; lia |].
  split; [intros Hc; apply W2; lia |].
  split; [intros Hc; apply W3; lia |].
  split; [intros Hc; apply C4; lia | intros Hc; apply W4; lia].
Qed.

End Comparison.

Section ChangeSummary.
Local Open Scope Q_scope.

(** X24.  The level of a change summary bounds its preservation
    score: the score is 100 less the changes counted, at least 93 on the
    level minimal, 75 on moderate and 48 on substantial; a score below 48
    has the level extensive. *)
Theorem change_level_preservation
    (word_changes : TextComparison.word_changes)
    (sentence_changes : TextComparison.sentence_changes)
    (structural_changes : TextComparison.structural_changes) :
  let s :=
    TextComparison._generate_change_summary word_changes sentence_changes
                                            structural_changes in
  TextComparison.preservation_score s
  == 100 - (Qn (TextComparison.total_word_changes s)
            + inject_Z (TextComparison.sentence_modifications s)
            + Qn (TextComparison.structural_modifications s))
  /\ TextComparison.preservation_score s <= 100
  /\ (TextComparison.change_level s = "minimal"%string ->
      93 <= TextComparison.preservation_score s)
  /\ (TextComparison.change_level s = "moderate"%string ->
      75 <= TextComparison.preservation_score s)
  /\ (TextComparison.change_level s = "substantial"%string ->
      48 <= TextComparison.preservation_score s)
  /\ (TextComparison.preservation_score s < 48 ->
      TextComparison.change_level s = "extensive"%string).
Proof.
  cbv zeta. unfold TextComparison._generate_change_summary.
  cbn [TextComparison.preservation_score TextComparison.change_level
       TextComparison.total_word_changes
       TextComparison.sentence_modifications
       TextComparison.structural_modifications].
  set (w := (TextComparison.added_count word_changes
             + TextComparison.removed_count word_changes)%nat).
  set (c := Z.abs (TextComparison.sentence_count_change sentence_changes)).
  set (p := length (TextComparison.punctuation_changes structural_changes)).
  assert (Hc : (0 <= c)%Z) by apply Z.abs_nonneg.
  set (total := (Z.of_nat w + c + Z.of_nat p)%Z).
  assert (Et : 100 - (Qn w + inject_Z c + Qn p) == inject_Z (100 - total)).
  { unfold total, Qn, Z.sub.
    rewrite !inject_Z_plus, inject_Z_opp, !inject_Z_plus. reflexivity. }
  assert (Er : Py.round (100 - (Qn w + inject_Z c + Qn p)) 2
               == inject_Z (100 - total)).
  { rewrite (round_comp _ _ 2 Et). apply round_Z. }
  rewrite Er.
  assert (Hbound : forall k : Z,
             (total <= k)%Z -> inject_Z (100 - k) <= inject_Z (100 - total))
    by (intros k Hk; rewrite <- Zle_Qle; lia).
  split; [symmetry; exact Et |].
  split; [change 100 with (inject_Z 100); rewrite <- Zle_Qle;
          unfold total; lia |].
  destruct (w <? 5)%nat eqn:W5; destruct (c <? 2)%Z eqn:C2;
    destruct (p <? 3)%nat eqn:P3;
    destruct (w <? 15)%nat eqn:W15; destruct (c <? 5)%Z eqn:C5;
    destruct (p <? 8)%nat eqn:P8;
    destruct (w <? 30)%nat eqn:W30; destruct (c <? 10)%Z eqn:C10;
    destruct (p <? 15)%nat eqn:P15; cbn [andb];
    repeat match goal with
           | Hb : (_ <? _)%nat = true |- _ => apply Nat.ltb_lt in Hb
           | Hb : (_ <? _)%nat = false |- _ => apply Nat.ltb_ge in Hb
           | Hb : (_ <? _)%Z = true |- _ => apply Z.ltb_lt in Hb
           | Hb : (_ <? _)%Z = false |- _ => apply Z.ltb_ge in Hb
           end;
    try lia;
    (split; [intros E; try discriminate E;
             apply (Hbound 7%Z); unfold total; lia |]);
    (split; [intros E; try discriminate E;
             apply (Hbound 25%Z); unfold total; lia |]);
    (split; [intros E; try discriminate E;
             apply (Hbound 52%Z); unfold total; lia |]);
    intros Hlt; try reflexivity;
    exfalso; change 48 with (inject_Z 48) in Hlt;
    rewrite <- Zlt_Qlt in Hlt; unfold total in Hlt; lia.
Qed.

End ChangeSummary.

Section SentenceReport.
Context `{UnicodeData} `{UnicodeFold}.
Local Open Scope Q_scope.

Local Abbreviation classified st :=
  (ComparisonReport.simple st + ComparisonReport.compound st
   + ComparisonReport.complex st + ComparisonReport.compound_complex st)%nat.

Lemma count_structure_total (st : ComparisonReport.structures) (s : str) :
  classified (ComparisonReport.count_structure st s) = S (classified st).
Proof.
  unfold ComparisonReport.count_structure.
  destruct (0 <? _)%nat; destruct (0 <? _)%nat; simpl; lia.
Qed.

Lemma structures_total (sentences : list str) :
  forall st : ComparisonReport.structures,
    classified (fold_left ComparisonReport.count_structure sentences st)
    = (classified st + length sentences)%nat.
Proof.
  induction sentences as [| s sentences IH]; intros st; simpl; [lia |].
  rewrite IH, count_structure_total. lia.
Qed.

Lemma fold_min_le (xs : list nat) :
  forall x : nat,
    (fold_left Nat.min xs x <= x)%nat
    /\ Forall (fun y => (fold_left Nat.min xs x <= y)%nat) xs.
Proof.
  induction xs as [| y xs IH]; intros x; simpl; [split; [lia | constructor] |].
  destruct (IH (Nat.min x y)) as [H1 H2].
  split; [lia |]. constructor; [lia | exact H2].
Qed.

Lemma fold_max_ge (xs : list nat) :
  forall x : nat,
    (x <= fold_left Nat.max xs x)%nat
    /\ Forall (fun y => (y <= fold_left Nat.max xs x)%nat) xs.
Proof.
  induction xs as [| y xs IH]; intros x; simpl; [split; [lia | constructor] |].
  destruct (IH (Nat.max x y)) as [H1 H2].
  split; [lia |]. constructor; [lia | exact H2].
Qed.

Lemma fold_min_floor (k : nat) (xs : list nat) :
  forall x : nat,
    (k <= x)%nat -> Forall (fun y => (k <= y)%nat) xs ->
    (k <= fold_left Nat.min xs x)%nat.
Proof.
  induction xs as [| y xs IH]; intros x Hx Hxs; simpl; [assumption |].
  inversion Hxs; subst. apply IH; [lia | assumption].
Qed.

Lemma sum_between (lo hi : nat) (xs : list nat) :
  Forall (fun y => (lo <= y <= hi)%nat) xs ->
  (lo * length xs <= fold_right Nat.add O xs <= hi * length xs)%nat.
Proof.
  induction 1 as [| y xs Hy _ IH]; simpl; [lia |]. nia.
Qed.

(** A sentence that is not empty and does not begin with white space holds
    a word of [str.split]. *)
Lemma split_count_pos (s : str) :
  s <> [] -> Window.head_in Char.is_space s = false ->
  (1 <= TextComparison.split_count s)%nat.
Proof.
  destruct s as [| c r]; [congruence | intros _ Hc]. simpl in Hc.
  unfold TextComparison.split_count.
  rewrite (findall_cons _ (sound_run _)).
  unfold Re.run at 1. cbn [Str.take_while]. rewrite Hc. simpl. lia.
Qed.

Lemma sentences_of_words (text : str) :
  Forall (fun s => (1 <= TextComparison.split_count s)%nat)
         (TextComparison.sentences_of text).
Proof.
  unfold TextComparison.sentences_of.
  apply Forall_forall. intros s Hs.
  apply list_elem_of_In, in_map_iff in Hs as (s0 & <- & Hs0).
  apply filter_In in Hs0 as [_ Hne].
  apply split_count_pos; [| apply strip_head].
  intros E. rewrite E in Hne. discriminate.
Qed.

(** X25.  The sentence report of a comparison puts every sentence
    of either text in exactly one of the four classes of structure: the
    classes of a text add up to its sentences, and the change of the number
    of sentences is the difference of the two totals. *)
Theorem sentence_structures_total (original humanized : str) :
  let r := ComparisonReport._analyze_sentence_changes original humanized in
  let total (st : ComparisonReport.structures) :=
    (ComparisonReport.simple st + ComparisonReport.compound st
     + ComparisonReport.complex st
     + ComparisonReport.compound_complex st)%nat in
  total (ComparisonReport.original_structures r)
  = length (TextComparison.sentences_of original)
  /\ total (ComparisonReport.humanized_structures r)
     = length (TextComparison.sentences_of humanized)
  /\ TextComparison.sentence_count_change
       (ComparisonReport.sentence_changes_of r)
     = (Z.of_nat (total (ComparisonReport.humanized_structures r))
        - Z.of_nat (total (ComparisonReport.original_structures r)))%Z.
Proof.
  cbv zeta. unfold ComparisonReport._analyze_sentence_changes.
  cbn [ComparisonReport.original_structures
       ComparisonReport.humanized_structures
       ComparisonReport.sentence_changes_of].
  unfold ComparisonReport._analyze_sentence_structures.
  rewrite !structures_total. simpl.
  repeat split.
Qed.

(** X26.  The lengths reported for the sentences of a text: with no
    sentence the minimum, the maximum and the average are 0; otherwise
    every sentence holds a word, and the minimum is at most the average,
    which is at most the maximum. *)
Theorem length_summary_order (text : str) :
  let sentences := TextComparison.sentences_of text in
  let s := ComparisonReport.length_summary_of sentences in
  (sentences = [] ->
   ComparisonReport.min_length s = 0%nat
   /\ ComparisonReport.max_length s = 0%nat
   /\ ComparisonReport.avg_length s == 0)
  /\ (sentences <> [] ->
      (1 <= ComparisonReport.min_length s)%nat
      /\ Qn (ComparisonReport.min_length s) <= ComparisonReport.avg_length s
      /\ ComparisonReport.avg_length s <= Qn (ComparisonReport.max_length s)).
Proof.
  cbv zeta. pose proof (sentences_of_words text) as Hw.
  destruct (TextComparison.sentences_of text) as [| s0 rest] eqn:E.
  - split; [intros _ | congruence].
    split; [reflexivity |]. split; [reflexivity |]. apply round_zero.
  - split; [discriminate | intros _].
    unfold ComparisonReport.length_summary_of.
    cbn [ComparisonReport.min_length ComparisonReport.max_length
         ComparisonReport.avg_length map ComparisonReport.min_or_zero
         ComparisonReport.max_or_zero].
    set (x := TextComparison.split_count s0) in *.
    set (xs := map TextComparison.split_count rest) in *.
    inversion Hw as [| ? ? Hx Hrest]; subst.
    assert (Hxs : Forall (fun y => (1 <= y)%nat) xs).
    { unfold xs. apply Forall_forall. intros y Hy.
      apply list_elem_of_In, in_map_iff in Hy as (s & <- & Hs).
      rewrite Forall_forall in Hrest. apply Hrest.
      now apply list_elem_of_In. }
    destruct (fold_min_le xs x) as [Hmin0 Hmin].
    destruct (fold_max_ge xs x) as [Hmax0 Hmax].
    pose proof (fold_min_floor 1 xs x Hx Hxs) as Hone.
    set (lo := fold_left Nat.min xs x) in *.
    set (hi := fold_left Nat.max xs x) in *.
    assert (Hall : Forall (fun y => (lo <= y <= hi)%nat) (x :: xs)).
    { constructor; [lia |].
      rewrite Forall_forall in Hmin, Hmax. apply Forall_forall.
      intros y Hy. split; [now apply Hmin | now apply Hmax]. }
    apply sum_between in Hall. cbn [length] in Hall.
    unfold TextComparison.average_length.
    cbn [map length]. fold x. fold xs.
    replace (length rest) with (length xs) by (unfold xs; apply length_map).
    set (total := fold_right Nat.add O (x :: xs)) in *.
    assert (Hn : 0 < Qn (S (length xs))) by (apply Qn_pos; lia).
    assert (Hlo : Qn lo <= Qn total / Qn (S (length xs))).
    { apply Qle_shift_div_l; [assumption |].
      unfold Qn. rewrite <- inject_Z_mult, <- Zle_Qle. lia. }
    assert (Hhi : Qn total / Qn (S (length xs)) <= Qn hi).
    { apply Qle_shift_div_r; [assumption |].
      unfold Qn. rewrite <- inject_Z_mult, <- Zle_Qle. lia. }
    split; [exact Hone |]. split.
    + rewrite <- (round_Z (Z.of_nat lo) 2). now apply round_mono.
    + apply Qle_trans with (Py.round (Qn hi) 2); [now apply round_mono |].
      unfold Qn. rewrite round_Z. apply Qle_refl.
Qed.

End SentenceReport.

Section ReadabilityComparison.
Context `{UnicodeData} `{FloatSqrt}.
Local Open Scope Q_scope.

(** What the readability group of a text holds under the two keys that the
    comparison reads. *)
Lemma readability_keys (text : str) :
  let d := TextAnalytics._calculate_readability text in
  ((TextAnalytics._split_sentences text = []
    \/ TextAnalytics._split_words text = [])
   /\ ComparisonReport.number_at d "flesch_reading_ease" = None)
  \/ (TextAnalytics._split_sentences text <> []
      /\ TextAnalytics._split_words text <> []
      /\ exists x y : Q,
           ComparisonReport.number_at d "flesch_reading_ease"
           = Some (Py.round x 2)
           /\ ComparisonReport.number_at d "average_grade_level"
              = Some (Py.round y 2)
           /\ 0 <= Py.round x 2 <= 100).
Proof.
  cbv zeta. unfold TextAnalytics._calculate_readability.
  destruct (TextAnalytics._split_sentences text) as [| s ss] eqn:Es;
    [left; split; [now left | reflexivity] |].
  destruct (TextAnalytics._split_words text) as [| w ws] eqn:Ew;
    [left; split; [now right | reflexivity] |].
  right. split; [discriminate |]. split; [discriminate |].
  cbn [length Nat.eqb orb]. unfold ComparisonReport.number_at.
  eexists. eexists.
  split; [reflexivity |]. split; [reflexivity |].
  apply clamped_round_bounds.
Qed.


End ReadabilityComparison.

(** ** The corrections of LanguageTool (languagetool_service.py) *)

Section Corrections.
Import LanguageTool.

Local Abbreviation descending l :=
  (Sorted (fun x y : rule_match => (match_offset y <= match_offset x)%nat) l).

Lemma insert_by_offset_perm (m : rule_match) (l : list rule_match) :
  insert_by_offset m l ≡ₚ m :: l.
Proof.
  induction l as [| y l IH]; simpl; [reflexivity |].
  destruct (match_offset y <=? match_offset m)%nat; [reflexivity |].
  rewrite IH. apply perm_swap.
Qed.

Lemma sorted_by_offset_perm (l : list rule_match) :
  sorted_by_offset_reversed l ≡ₚ l.
Proof.
  induction l as [| m l IH]; simpl; [reflexivity |].
  rewrite insert_by_offset_perm. now apply perm_skip.
Qed.

Lemma insert_by_offset_sorted (m : rule_match) (l : list rule_match) :
  descending l -> descending (insert_by_offset m l).
Proof.
  induction 1 as [| y l Hl IH Hy]; simpl.
  - repeat constructor.
  - destruct (Nat.leb_spec (match_offset y) (match_offset m)) as [Hle | Hgt].
    + constructor; [constructor; assumption | constructor; assumption].
    + constructor; [exact IH |].
      destruct l as [| z l]; simpl.
      * constructor. lia.
      * destruct (match_offset z <=? match_offset m)%nat;
          constructor; [lia |].
        inversion Hy; assumption.
Qed.

Lemma sorted_by_offset_sorted (l : list rule_match) :
  descending (sorted_by_offset_reversed l).
Proof.
  induction l as [| m l IH]; simpl; [constructor |].
  now apply insert_by_offset_sorted.
Qed.

(** The head of a sorted list has the largest offset. *)
Lemma descending_head (x : rule_match) (l : list rule_match) :
  descending (x :: l) ->
  Forall (fun y => (match_offset y <= match_offset x)%nat) l.
Proof.
  intros Hs. apply Sorted_StronglySorted in Hs.
  - inversion Hs; assumption.
  - intros a b c Hab Hbc. lia.
Qed.

(** Offsets that fall strictly along the list. *)
Local Abbreviation falling l :=
  (StronglySorted
     (fun x y : rule_match => (match_offset y < match_offset x)%nat) l).

(** A sorted list is the list of falling offsets of which it is a
    rearrangement. *)
Lemma descending_unique (l1 : list rule_match) :
  forall l2 : list rule_match,
    descending l1 -> falling l2 -> l1 ≡ₚ l2 -> l1 = l2.
Proof.
  induction l1 as [| x l1 IH]; intros l2 Hs Hf Hp.
  - apply Permutation_nil in Hp. now subst.
  - destruct l2 as [| y l2];
      [symmetry in Hp; apply Permutation_nil in Hp; discriminate |].
    pose proof (descending_head _ _ Hs) as Hx.
    inversion Hf as [| ? ? Hf' Hy]; subst.
    assert (Hxy : x = y).
    { assert (Hin : In x (y :: l2))
        by (apply (Permutation_in _ Hp); now left).
      assert (Hin' : In y (x :: l1))
        by (apply (Permutation_in _ (Permutation_sym Hp)); now left).
      destruct Hin as [E | Hin]; [now symmetry |].
      rewrite Forall_forall in Hy.
      pose proof (Hy x ltac:(now apply list_elem_of_In)) as Hlt.
      destruct Hin' as [E | Hin']; [now symmetry |].
      rewrite Forall_forall in Hx.
      pose proof (Hx y ltac:(now apply list_elem_of_In)). lia. }
    subst y. f_equal. apply IH.
    + now inversion Hs.
    + assumption.
    + now apply Permutation_cons_inv in Hp.
Qed.

Lemma spans_in_order_from (pos n : nat) (spans : list rule_match) :
  spans_in_order pos n spans ->
  (pos <= n)%nat
  /\ Forall (fun m => (pos <= match_offset m)%nat
                      /\ (match_offset m + match_length m <= n)%nat) spans.
Proof.
  revert pos. induction spans as [| m rest IH]; intros pos Hs; simpl in Hs.
  - split; [assumption | constructor].
  - destruct Hs as (Hpos & _ & Hrest).
    destruct (IH _ Hrest) as [Hn Hall].
    split; [lia |]. constructor.
    + destruct rest as [| m' rest']; simpl in Hrest; [lia |].
      inversion Hall as [| ? ? [Hm' _] _]; subst. lia.
    + eapply Forall_impl; [exact Hall |]. simpl. intros y [? ?]. lia.
Qed.

Lemma spans_in_order_rising (pos n : nat) (spans : list rule_match) :
  spans_in_order pos n spans ->
  StronglySorted
    (fun x y : rule_match => (match_offset x < match_offset y)%nat) spans.
Proof.
  revert pos. induction spans as [| m rest IH]; intros pos Hs;
    [constructor |].
  simpl in Hs. destruct Hs as (Hpos & Hnext & Hrest).
  constructor; [now apply (IH _ Hrest) |].
  destruct rest as [| m' rest']; [constructor |].
  pose proof (IH _ Hrest) as Hss. inversion Hss as [| ? ? _ Hall]; subst.
  constructor; [exact Hnext |].
  eapply Forall_impl; [exact Hall |]. simpl. intros y Hy. lia.
Qed.

Lemma rising_rev (l : list rule_match) :
  StronglySorted
    (fun x y : rule_match => (match_offset x < match_offset y)%nat) l ->
  falling (rev l).
Proof.
  induction 1 as [| x l Hl IH Hx]; simpl; [constructor |].
  apply StronglySorted_app_2; [| exact IH | repeat constructor].
  intros a b Ha Hb. apply list_elem_of_singleton in Hb. subst b.
  rewrite Forall_forall in Hx. apply Hx.
  apply list_elem_of_In. apply list_elem_of_In in Ha.
  now apply in_rev.
Qed.

(** The matches are read from the largest offset down, in whatever order
    they were given. *)
Lemma sorted_spans (pos n : nat) (spans matches : list rule_match) :
  spans_in_order pos n spans -> matches ≡ₚ spans ->
  sorted_by_offset_reversed matches = rev spans.
Proof.
  intros Hs Hp. apply descending_unique.
  - apply sorted_by_offset_sorted.
  - apply rising_rev. exact (spans_in_order_rising _ _ _ Hs).
  - rewrite sorted_by_offset_perm, Hp. apply Permutation_rev.
Qed.

Lemma apply_one_replacement (apply_all : bool) (t : str) (m : rule_match) :
  apply_one apply_all t m
  = match replacement_of apply_all m with
    | Some replacement =>
        take (match_offset m) t ++ replacement
        ++ drop (match_offset m + match_length m) t
    | None => t
    end.
Proof.
  unfold apply_one, replacement_of.
  destruct (match_replacements m) as [| r rs]; [reflexivity |].
  destruct (negb apply_all && _); [reflexivity |].
  destruct (Str.is_empty r); reflexivity.
Qed.

Lemma fold_left_rev {A B} (f : A -> B -> A) (l : list B) (i : A) :
  fold_left f (rev l) i = fold_right (fun x y => f y x) i l.
Proof.
  induction l as [| x l IH]; simpl; [reflexivity |].
  now rewrite fold_left_app, IH.
Qed.

Lemma take_plus {A} (p q : nat) (l : list A) :
  take (p + q) l = take p l ++ take q (drop p l).
Proof.
  revert l. induction p as [| p IH]; intros l; [reflexivity |].
  destruct l as [| x l]; simpl.
  - now destruct q.
  - now rewrite IH.
Qed.

(** Read from the right, the corrections leave the text before the spans
    as it was and replace every span where it stood. *)
Lemma corrections_from (apply_all : bool) (text : str)
    (spans : list rule_match) :
  forall pos : nat,
    spans_in_order pos (length text) spans ->
    fold_right (fun m t => apply_one apply_all t m) text spans
    = take pos text ++ replace_spans apply_all pos text spans.
Proof.
  induction spans as [| m rest IH]; intros pos Hs.
  - simpl. now rewrite take_drop.
  - pose proof Hs as (Hpos & _ & Hrest).
    destruct (spans_in_order_from _ _ _ Hrest) as [Hend _].
    cbn [fold_right replace_spans].
    rewrite (IH _ Hrest), apply_one_replacement.
    set (o := match_offset m) in *. set (k := match_length m) in *.
    assert (Eo : take o text
                 = take pos text ++ take (o - pos) (drop pos text)).
    { rewrite <- take_plus. f_equal. lia. }
    assert (Elen : length (take (o + k) text) = (o + k)%nat)
      by (rewrite length_take; lia).
    destruct (replacement_of apply_all m) as [r |].
    + rewrite take_app_le by lia.
      rewrite take_take, Nat.min_l by lia.
      rewrite drop_app_length' by (symmetry; exact Elen).
      rewrite Eo, <- !app_assoc. reflexivity.
    + rewrite take_plus, Eo, <- !app_assoc. reflexivity.
Qed.

(** X28.  Corrections whose spans lie in the text one after the
    other, without overlap and at different offsets, are applied as if all
    at once, in whatever order the matches are given: the text outside
    the spans stays, a span whose match has a first replacement that is
    not empty is replaced by it, and when not all corrections are applied
    the span of a match in a skipped category or with more than three
    replacements stays as well. *)
Theorem corrections_replace_spans
    (text : str) (spans matches : list rule_match) (apply_all : bool) :
  spans_in_order 0 (length text) spans ->
  matches ≡ₚ spans ->
  apply_corrections text matches apply_all
  = replace_spans apply_all 0 text spans.
Proof.
  intros Hs Hp. unfold apply_corrections.
  destruct matches as [| m ms].
  - apply Permutation_nil in Hp. subst spans. simpl. now rewrite drop_0.
  - rewrite (sorted_spans _ _ _ _ Hs Hp), fold_left_rev.
    rewrite (corrections_from apply_all text spans 0 Hs). reflexivity.
Qed.

End Corrections.

(** Two corrections given from the right to the left. *)
Lemma corrections_replace_spans_witness :
  let subject :=
    {| LanguageTool.match_offset := 2; LanguageTool.match_length := 3;
       LanguageTool.match_replacements := [lit "have"];
       LanguageTool.match_category := lit "GRAMMAR" |} in
  let article :=
    {| LanguageTool.match_offset := 6; LanguageTool.match_length := 1;
       LanguageTool.match_replacements := [lit "an"; lit "the"];
       LanguageTool.match_category := lit "GRAMMAR" |} in
  LanguageTool.spans_in_order 0 (length (lit "I has a apple."))
                              [subject; article]
  /\ LanguageTool.apply_corrections (lit "I has a apple.")
                                    [article; subject] false
     = lit "I have an apple.".
Proof.
  intros subject article.
  assert (Hs : LanguageTool.spans_in_order 0 (length (lit "I has a apple."))
                                           [subject; article])
    by (simpl; lia).
  split; [exact Hs |].
  rewrite (corrections_replace_spans (lit "I has a apple.")
             [subject; article] [article; subject] false Hs
             (perm_swap _ _ _)).
  reflexivity.
Defined.

(** ** The scores of ProWritingAid (prowritingaid_service.py) *)

Section Scores.
Context `{UnicodeData}.
Import ProWritingAid.
Local Open Scope Q_scope.

Local Abbreviation of_grammar :=
  (fun t : suggestion =>
     TextAnalytics.word_in grammar_categories (Str.lower (category t))).
Local Abbreviation of_style :=
  (fun t : suggestion =>
     TextAnalytics.word_in style_categories (Str.lower (category t))).

Lemma categories_disjoint (c : str) :
  TextAnalytics.word_in grammar_categories c = true ->
  TextAnalytics.word_in style_categories c = false.
Proof.
  intros Hg. apply word_in_spec in Hg.
  assert (Hall : forallb
                   (fun w => negb (TextAnalytics.word_in style_categories w))
                   grammar_categories = true)
    by (vm_compute; reflexivity).
  rewrite forallb_forall in Hall. specialize (Hall c Hg).
  now apply negb_true_iff in Hall.
Qed.

Lemma count_tag_step (g s : nat) (t : suggestion) :
  count_tag (g, s) t
  = ((g + if of_grammar t then 1 else 0)%nat,
     (s + if of_style t then 1 else 0)%nat).
Proof.
  unfold count_tag.
  destruct (TextAnalytics.word_in grammar_categories
              (Str.lower (category t))) eqn:Eg.
  - rewrite (categories_disjoint _ Eg). f_equal; lia.
  - destruct (TextAnalytics.word_in style_categories
                (Str.lower (category t))); f_equal; lia.
Qed.

(** The loop over the tags counts the tags of the two groups of
    categories. *)
Lemma count_tag_fold (l : list suggestion) :
  forall g s : nat,
    fold_left count_tag l (g, s)
    = ((g + length (List.filter of_grammar l))%nat,
       (s + length (List.filter of_style l))%nat).
Proof.
  induction l as [| t l IH]; intros g s.
  - simpl. now rewrite !Nat.add_0_r.
  - cbn [fold_left List.filter]. rewrite count_tag_step, IH.
    destruct (TextAnalytics.word_in grammar_categories _);
      destruct (TextAnalytics.word_in style_categories _);
      cbn [length]; f_equal; lia.
Qed.

(** X29.  The scores that are drawn from an analysis of
    ProWritingAid: the grammar and the style score lie between 0 and 100
    and fall by 10 for each tag of grammar, spelling or punctuation and by
    5 for each tag of style, readability or overused words, down to 0;
    the overall score is their mean; the readability score is 0 always;
    and all scores are 0 when the analysis holds no result or the text of
    the result is empty, whether issues were found or not. *)
Theorem writing_scores_ranges (analysis_result : option analysis_report) :
  let s := get_writing_score analysis_result in
  let grammar (r : analysis_report) :=
    length (List.filter
              (fun t => TextAnalytics.word_in grammar_categories
                          (Str.lower (category t))) (tags r)) in
  let style (r : analysis_report) :=
    length (List.filter
              (fun t => TextAnalytics.word_in style_categories
                          (Str.lower (category t))) (tags r)) in
  (0 <= grammar_score s <= 100)%Z
  /\ (0 <= style_score s <= 100)%Z
  /\ 0 <= overall_score s <= 100
  /\ overall_score s
     == (inject_Z (grammar_score s) + inject_Z (style_score s)) / 2
  /\ readability_score s = 0%Z
  /\ (analysis_result = None ->
      issues_found s = None /\ grammar_score s = 0%Z
      /\ style_score s = 0%Z)
  /\ (forall r : analysis_report,
         analysis_result = Some r ->
         issues_found s = Some (length (tags r))
         /\ (grammar r + style r <= length (tags r))%nat
         /\ (report_text r = [] ->
             grammar_score s = 0%Z /\ style_score s = 0%Z)
         /\ (report_text r <> [] ->
             grammar_score s
             = Z.max 0 (100 - 10 * Z.of_nat (grammar r))
             /\ style_score s
                = Z.max 0 (100 - 5 * Z.of_nat (style r)))).
Proof.
  cbv zeta. destruct analysis_result as [r |].
  - unfold get_writing_score. rewrite count_tag_fold. cbn [Nat.add].
    set (g := length (List.filter _ (tags r))).
    set (st := length (List.filter _ (tags r))).
    assert (Hsum : (g + st <= length (tags r))%nat).
    { apply filter_disjoint_length. intros t. apply categories_disjoint. }
    destruct (report_text r) as [| c text] eqn:Et.
    + simpl.
      split; [lia |]. split; [lia |].
      split; [split; discriminate |]. split; [reflexivity |].
      split; [reflexivity |]. split; [discriminate |].
      intros r' [= <-]. rewrite Et.
      split; [reflexivity |]. split; [exact Hsum |].
      split; [auto | congruence].
    + cbn [length Nat.ltb Nat.leb].
      cbn [grammar_score style_score overall_score readability_score
           issues_found].
      set (gs := Z.max 0 (100 - Z.of_nat g * 10)).
      set (ss := Z.max 0 (100 - Z.of_nat st * 5)).
      assert (Hg : (0 <= gs <= 100)%Z) by (unfold gs; lia).
      assert (Hs : (0 <= ss <= 100)%Z) by (unfold ss; lia).
      assert (Hq : 0 <= inject_Z (gs + ss) <= 200).
      { change 0 with (inject_Z 0). change 200 with (inject_Z 200).
        rewrite <- !Zle_Qle. lia. }
      split; [exact Hg |]. split; [exact Hs |].
      split; [split; [apply Qle_shift_div_l | apply Qle_shift_div_r];
              (reflexivity || lra) |].
      split; [now rewrite inject_Z_plus |].
      split; [reflexivity |]. split; [discriminate |].
      intros r' [= <-]. rewrite Et.
      split; [reflexivity |]. split; [exact Hsum |].
      split; [discriminate | intros _].
      unfold gs, ss. split; f_equal; lia.
  - simpl.
    split; [lia |]. split; [lia |].
    split; [split; discriminate |]. split; [reflexivity |].
    split; [reflexivity |]. split; [auto | discriminate].
Qed.

End Scores.

(** ** The remote services of the pipeline (routes/humanizer.py) *)

Section Gate.
Context `{UnicodeData} `{UnicodeUpper}.
Import Services.

Local Abbreviation counted st :=
  (LanguageTool.grammar_issues st + LanguageTool.spelling_issues st
   + LanguageTool.style_issues st + LanguageTool.punctuation_issues st
   + LanguageTool.other_issues st)%nat.

Lemma count_issue_total (st : LanguageTool.writing_statistics)
    (m : LanguageTool.rule_match) :
  LanguageTool.total_issues (LanguageTool.count_issue st m)
  = LanguageTool.total_issues st
  /\ counted (LanguageTool.count_issue st m) = S (counted st).
Proof.
  unfold LanguageTool.count_issue.
  repeat match goal with
         | |- context [if ?c then _ else _] => destruct c
         end; simpl; split; lia.
Qed.

(** The five counters of the statistics count every match once. *)
Lemma statistics_total (matches : list LanguageTool.rule_match) :
  forall st : LanguageTool.writing_statistics,
    LanguageTool.total_issues
      (fold_left LanguageTool.count_issue matches st)
    = LanguageTool.total_issues st
    /\ counted (fold_left LanguageTool.count_issue matches st)
       = (counted st + length matches)%nat.
Proof.
  induction matches as [| m matches IH]; intros st; simpl; [lia |].
  destruct (IH (LanguageTool.count_issue st m)) as [E1 E2].
  destruct (count_issue_total st m) as [E3 E4].
  rewrite E1, E2, E3, E4. lia.
Qed.

Lemma eqb_mode (mode : str) (name : string) :
  mode <> lit name -> Str.eqb mode (lit name) = false.
Proof. intros Hne. unfold Str.eqb. now apply bool_decide_eq_false. Qed.

(** X30.  The remote services of the pipeline: outside the mode
    aggressive the text that is handed on is the one that the corrections
    of LanguageTool made of the input, or the input when the check failed;
    outside the modes balanced and aggressive no other service runs, and
    HIX Bypass runs in the mode aggressive only; the text is the input
    unless a service is reported as applied; and the statistics reported
    for LanguageTool count every issue in exactly one of five groups. *)
Theorem external_services_gate (env : environment) (text mode : str) :
  let '(enhanced_text, results) :=
    enhance_with_external_services env text mode in
  let corrected :=
    match languagetool_check env text with
    | LanguageTool.CheckFailed _ => text
    | LanguageTool.Checked matches =>
        LanguageTool.apply_corrections text matches false
    end in
  (mode <> lit "aggressive" -> enhanced_text = corrected)
  /\ (forall e : str,
         languagetool_check env text = LanguageTool.CheckFailed e ->
         applied (languagetool results) = false
         /\ error (languagetool results) = Some e)
  /\ (forall st : LanguageTool.writing_statistics,
         report (languagetool results) = Some st ->
         LanguageTool.total_issues st
         = (LanguageTool.grammar_issues st + LanguageTool.spelling_issues st
            + LanguageTool.style_issues st
            + LanguageTool.punctuation_issues st
            + LanguageTool.other_issues st)%nat)
  /\ (mode <> lit "balanced" -> mode <> lit "aggressive" ->
      prowritingaid results = not_run
      /\ ai_text_humanizer_result results = not_run)
  /\ (mode <> lit "aggressive" -> hix_bypass_result results = not_run)
  /\ (applied (languagetool results) = false ->
      applied (prowritingaid results) = false ->
      applied (ai_text_humanizer_result results) = false ->
      applied (hix_bypass_result results) = false ->
      enhanced_text = text).
Proof.
  unfold enhance_with_external_services, balanced_or_aggressive.
  unfold LanguageTool.enhance_text_quality.
  assert (Hstats : forall matches st,
             LanguageTool.get_writing_statistics matches = st ->
             LanguageTool.total_issues st = counted st).
  { intros matches st <-. unfold LanguageTool.get_writing_statistics.
    destruct (statistics_total matches
                {| LanguageTool.total_issues := length matches;
                   LanguageTool.grammar_issues := 0;
                   LanguageTool.spelling_issues := 0;
                   LanguageTool.style_issues := 0;
                   LanguageTool.punctuation_issues := 0;
                   LanguageTool.other_issues := 0 |}) as [E1 E2].
    rewrite E1, E2. reflexivity. }
  assert (Hnil : forall t : str, LanguageTool.apply_corrections t [] false = t)
    by reflexivity.
  destruct (languagetool_check env text) as [e | matches] eqn:Echeck.
  - (* the check failed *)
    destruct (Str.eqb mode (lit "aggressive")) eqn:Ea.
    + rewrite orb_true_r. cbn [andb].
      destruct (ProWritingAid.configured (prowritingaid_key env)) eqn:Kp;
        [unfold ProWritingAid.enhance_text_quality; rewrite Kp;
         cbn [negb];
         destruct (prowritingaid_analysis env text) as [pe | [pr |]] |];
        (destruct (ProWritingAid.configured (ai_text_humanizer_email env));
         [match goal with
          | |- context [ai_text_humanizer env ?t] =>
              destruct (ai_text_humanizer env t)
          end |]);
        (destruct (ProWritingAid.configured (hix_bypass_key env));
         [match goal with
          | |- context [hix_bypass env ?t] => destruct (hix_bypass env t)
          end |]);
        cbn -[LanguageTool.apply_corrections];
        apply bool_decide_eq_true in Ea;
        (split; [intros Hn; exfalso; exact (Hn Ea) |]);
        (split; [intros e' [= <-]; auto |]);
        (split; [discriminate |]);
        (split; [intros _ Hn; exfalso; exact (Hn Ea) |]);
        (split; [intros Hn; exfalso; exact (Hn Ea) |]);
        intros; try discriminate; reflexivity.
    + rewrite orb_false_r.
      destruct (Str.eqb mode (lit "balanced")) eqn:Eb; cbn [andb].
      * destruct (ProWritingAid.configured (prowritingaid_key env)) eqn:Kp;
          [unfold ProWritingAid.enhance_text_quality; rewrite Kp;
           cbn [negb];
           destruct (prowritingaid_analysis env text) as [pe | [pr |]] |];
          (destruct (ProWritingAid.configured (ai_text_humanizer_email env));
           [match goal with
            | |- context [ai_text_humanizer env ?t] =>
                destruct (ai_text_humanizer env t)
            end |]);
          cbn -[LanguageTool.apply_corrections];
          apply bool_decide_eq_true in Eb;
          (split; [reflexivity |]);
          (split; [intros e' [= <-]; auto |]);
          (split; [discriminate |]);
          (split; [intros Hn _; exfalso; exact (Hn Eb) |]);
          (split; [reflexivity |]);
          intros; reflexivity.
      * cbn -[LanguageTool.apply_corrections].
        split; [reflexivity |].
        split; [intros e' [= <-]; auto |].
        split; [discriminate |].
        split; [auto |]. split; [reflexivity |].
        intros; reflexivity.
  - (* the check returned matches *)
    set (corrected := match matches with
                      | [] => text
                      | _ :: _ =>
                          LanguageTool.apply_corrections text matches false
                      end).
    assert (Ecorr : corrected
                    = LanguageTool.apply_corrections text matches false)
      by (unfold corrected; now destruct matches).
    rewrite <- Ecorr. clearbody corrected.
    pose proof (Hstats matches _ eq_refl) as Htotal.
    set (stats := LanguageTool.get_writing_statistics matches) in *.
    clearbody stats.
    destruct (Str.eqb mode (lit "aggressive")) eqn:Ea.
    + rewrite orb_true_r. cbn [andb].
      destruct (ProWritingAid.configured (prowritingaid_key env)) eqn:Kp;
        [unfold ProWritingAid.enhance_text_quality; rewrite Kp;
         cbn [negb];
         destruct (prowritingaid_analysis env corrected)
           as [pe | [pr |]] |];
        (destruct (ProWritingAid.configured (ai_text_humanizer_email env));
         [match goal with
          | |- context [ai_text_humanizer env ?t] =>
              destruct (ai_text_humanizer env t)
          end |]);
        (destruct (ProWritingAid.configured (hix_bypass_key env));
         [match goal with
          | |- context [hix_bypass env ?t] => destruct (hix_bypass env t)
          end |]);
        cbn -[ProWritingAid.apply_suggestions
              ProWritingAid.get_writing_score];
        apply bool_decide_eq_true in Ea;
        (split; [intros Hn; exfalso; exact (Hn Ea) |]);
        (split; [discriminate |]);
        (split; [intros st [= <-]; exact Htotal |]);
        (split; [intros _ Hn; exfalso; exact (Hn Ea) |]);
        (split; [intros Hn; exfalso; exact (Hn Ea) |]);
        intros; discriminate.
    + rewrite orb_false_r.
      destruct (Str.eqb mode (lit "balanced")) eqn:Eb; cbn [andb].
      * destruct (ProWritingAid.configured (prowritingaid_key env)) eqn:Kp;
          [unfold ProWritingAid.enhance_text_quality; rewrite Kp;
           cbn [negb];
           destruct (prowritingaid_analysis env corrected)
             as [pe | [pr |]] |];
          (destruct (ProWritingAid.configured (ai_text_humanizer_email env));
           [match goal with
            | |- context [ai_text_humanizer env ?t] =>
                destruct (ai_text_humanizer env t)
            end |]);
          cbn -[ProWritingAid.apply_suggestions
                ProWritingAid.get_writing_score];
          apply bool_decide_eq_true in Eb;
          (split; [reflexivity |]);
          (split; [discriminate |]);
          (split; [intros st [= <-]; exact Htotal |]);
          (split; [intros Hn _; exfalso; exact (Hn Eb) |]);
          (split; [reflexivity |]);
          intros; discriminate.
      * cbn.
        split; [reflexivity |].
        split; [discriminate |].
        split; [intros st [= <-]; exact Htotal |].
        split; [auto |]. split; [reflexivity |].
        intros; discriminate.
Qed.

End Gate.
